(** * Minesweeper: the game engine of [X-Assignments/X-Minesweeper.py]

    A shallow embedding of the class [Minesweeper], and of the methods of
    the GUI class [MinesweeperGUI] that call into it, with the proofs of
    its specification.

    Modelling conventions.
    - Python integers are [Z]; a Python list is a [list], indexed the way
      Python indexes it: a negative index counts from the end, an index
      outside [[-len, len)] raises [IndexError].
    - The object's fields are a record; a method is a function from the
      object to a result: a normal return with the new object, an exception
      with the object as it was when the exception was raised, or
      [Unfinished] when the random draws given to the sampling loop ran out
      before the method returned.
    - [random.randint] reads its raw values from an explicit list of draws.
    - The interpreter's recursion limit is modelled where the depth of the
      calls is not bounded by the program text, that is in [reveal]: a call
      is made with the number of frames the interpreter still allows; the
      call of a method takes one of them, and where none is left the call
      raises [RecursionError]; no handler catches it, so it goes up through
      the callers and leaves the object as it then is.  Builtins and
      operators take no frame (the limit counts the calls of Python
      functions, as CPython does since 3.12).  The number of frames is a
      parameter of every call from outside, and the theorems quantify
      over it.  The calls that the constructor makes are of bounded depth
      and are taken to have their frames. *)

From Stdlib Require Import ZArith Lia String DecimalString.
From stdpp Require Import base tactics option list numbers.

Local Open Scope string_scope.
Local Open Scope list_scope.
Local Open Scope Z_scope.

(** ** Python values and lists *)

(** [range(n)] and [range(a, b)]. *)
Definition range2 (a b : Z) : list Z :=
  map (fun k => a + Z.of_nat k) (seq 0 (Z.to_nat (b - a))).

Definition range (n : Z) : list Z := range2 0 n.

(** The position a Python index denotes in a list of length [n]. *)
Definition py_index (n : nat) (i : Z) : option nat :=
  if (0 <=? i) && (i <? Z.of_nat n) then Some (Z.to_nat i)
  else if (- Z.of_nat n <=? i) && (i <? 0) then Some (Z.to_nat (Z.of_nat n + i))
  else None.

(** [l[i]] and [l[i] = x]; [None] stands for [IndexError]. *)
Definition getitem {A} (l : list A) (i : Z) : option A :=
  k ← py_index (length l) i; l !! k.

Definition setitem {A} (l : list A) (i : Z) (x : A) : option (list A) :=
  k ← py_index (length l) i; Some (<[k:=x]> l).

(** [g[r][c]] and [g[r][c] = x] on a list of rows.  The rows of both grids
    are built by separate evaluations of the inner comprehension, so no two
    rows are the same object and updating a row in place is updating that
    row of the grid. *)
Definition grid_get {A} (g : list (list A)) (r c : Z) : option A :=
  row ← getitem g r; getitem row c.

Definition grid_set {A} (g : list (list A)) (r c : Z) (x : A)
  : option (list (list A)) :=
  row ← getitem g r; row' ← setitem row c x; setitem g r row'.

(** A cell of [board]: the string ['M'] or an integer. *)
Inductive cell := Mine | Count (n : Z).

Definition cell_eqb (a b : cell) : bool :=
  match a, b with
  | Mine, Mine => true
  | Count n, Count m => n =? m
  | _, _ => false
  end.

(** [str(x)] for a cell of [board]. *)
Definition str (x : cell) : string :=
  match x with
  | Mine => "M"
  | Count n => NilZero.string_of_int (Z.to_int n)
  end.

(** ** The object and the method monad *)

Record Minesweeper := mkMinesweeper {
  rows : Z;
  cols : Z;
  num_mines : Z;
  board : list (list cell);
  visible_board : list (list string);
  game_over : bool;
  win : bool
}.

Definition set_board (b : list (list cell)) (g : Minesweeper) : Minesweeper :=
  mkMinesweeper (rows g) (cols g) (num_mines g) b (visible_board g)
                (game_over g) (win g).

Definition set_visible_board (v : list (list string)) (g : Minesweeper)
  : Minesweeper :=
  mkMinesweeper (rows g) (cols g) (num_mines g) (board g) v
                (game_over g) (win g).

Definition set_game_over (b : bool) (g : Minesweeper) : Minesweeper :=
  mkMinesweeper (rows g) (cols g) (num_mines g) (board g) (visible_board g)
                b (win g).

Definition set_win (b : bool) (g : Minesweeper) : Minesweeper :=
  mkMinesweeper (rows g) (cols g) (num_mines g) (board g) (visible_board g)
                (game_over g) b.

Inductive exn := IndexError | ValueError | RecursionError.

Inductive res (A : Type) :=
| Ok (a : A) (g : Minesweeper)
| Raise (e : exn) (g : Minesweeper)
| Unfinished.
Arguments Ok {A} a g.
Arguments Raise {A} e g.
Arguments Unfinished {A}.

Definition Py (A : Type) : Type := Minesweeper -> res A.

Definition py_ret {A} (a : A) : Py A := fun g => Ok a g.

Definition py_bind {A B} (m : Py A) (k : A -> Py B) : Py B :=
  fun g => match m g with
           | Ok a g' => k a g'
           | Raise e g' => Raise e g'
           | Unfinished => Unfinished
           end.

Notation "'let*' x := m 'in' k" := (py_bind m (fun x => k))
  (at level 10, x pattern, m at level 100, k at level 200, only parsing).
Notation "m ';;;' k" := (py_bind m (fun _ => k))
  (at level 100, k at level 200, right associativity, only parsing).

Definition raise {A} (e : exn) : Py A := fun g => Raise e g.
Definition unfinished {A} : Py A := fun _ => Unfinished.

(** A call of a method that calls no method itself, made where the
    interpreter allows [frames] more frames. *)
Definition call {A} (frames : nat) (m : Py A) : Py A :=
  match frames with
  | O => raise RecursionError
  | S _ => m
  end.
Definition gets {A} (f : Minesweeper -> A) : Py A := fun g => Ok (f g) g.
Definition modify (f : Minesweeper -> Minesweeper) : Py unit :=
  fun g => Ok tt (f g).

(** An indexing expression: its value, or [IndexError]. *)
Definition index {A} (o : option A) : Py A :=
  match o with Some a => py_ret a | None => raise IndexError end.

(** [for x in l: body], with the local variables the body updates as an
    accumulator. *)
Fixpoint for_fold {X A} (l : list X) (body : X -> A -> Py A) (a : A) : Py A :=
  match l with
  | [] => py_ret a
  | x :: l' => let* a' := body x a in for_fold l' body a'
  end.

Definition for_each {X} (l : list X) (body : X -> Py unit) : Py unit :=
  for_fold l (fun x _ => body x) tt.

Definition read_visible (r c : Z) : Py string :=
  let* v := gets visible_board in index (grid_get v r c).

Definition write_visible (r c : Z) (x : string) : Py unit :=
  let* v := gets visible_board in
  let* v' := index (grid_set v r c x) in
  modify (set_visible_board v').

Definition read_board (r c : Z) : Py cell :=
  let* b := gets board in index (grid_get b r c).

Definition write_board (r c : Z) (x : cell) : Py unit :=
  let* b := gets board in
  let* b' := index (grid_set b r c x) in
  modify (set_board b').

(** [random.randint(a, b)] on the raw draw [v]: [ValueError] on an empty
    range, else a value of [[a, b]]. *)
Definition randint (a b v : Z) : Py Z :=
  if b <? a then raise ValueError else py_ret (a + v mod (b - a + 1)).

(** ** The methods of [Minesweeper] *)

(** The fields as [__init__] assigns them (lines 9-15), before it calls
    [_place_mines] and [_calculate_numbers]. *)
Definition init_fields (rows cols num_mines : Z) : Minesweeper :=
  {| rows := rows; cols := cols; num_mines := num_mines;
     board := map (fun _ => map (fun _ => Count 0) (range cols)) (range rows);
     visible_board := map (fun _ => map (fun _ => " ") (range cols)) (range rows);
     game_over := false; win := false |}.

(** The loop of [_place_mines] (lines 21-27); each turn takes one pair of
    raw draws, for its two calls of [random.randint]. *)
Fixpoint place_loop (draws : list (Z * Z)) (mines_placed : Z) : Py unit :=
  let* n := gets num_mines in
  if mines_placed <? n then
    match draws with
    | [] => unfinished
    | (v1, v2) :: draws' =>
      let* nrows := gets rows in
      let* r := randint 0 (nrows - 1) v1 in
      let* ncols := gets cols in
      let* c := randint 0 (ncols - 1) v2 in
      let* b := read_board r c in
      if negb (cell_eqb b Mine) then
        write_board r c Mine ;;;
        place_loop draws' (mines_placed + 1)
      else place_loop draws' mines_placed
    end
  else py_ret tt.

Definition _place_mines (draws : list (Z * Z)) : Py unit := place_loop draws 0.

(** [_get_neighbors] (lines 29-36): the list it builds, and the method. *)
Definition neighbors (nrows ncols r c : Z) : list (Z * Z) :=
  flat_map (fun i =>
    flat_map (fun j =>
      if (0 <=? i) && (i <? nrows) && ((0 <=? j) && (j <? ncols))
         && negb ((i =? r) && (j =? c))
      then [(i, j)] else [])
      (range2 (c - 1) (c + 2)))
    (range2 (r - 1) (r + 2)).

Definition _get_neighbors (r c : Z) : Py (list (Z * Z)) :=
  let* nrows := gets rows in
  let* ncols := gets cols in
  py_ret (neighbors nrows ncols r c).

(** [_calculate_numbers] (lines 38-48). *)
Definition _calculate_numbers : Py unit :=
  let* nrows := gets rows in
  for_each (range nrows) (fun r =>
    let* ncols := gets cols in
    for_each (range ncols) (fun c =>
      let* b := read_board r c in
      if cell_eqb b Mine then py_ret tt
      else
        let* ns := _get_neighbors r c in
        let* count :=
          for_fold ns (fun '(nr, nc) count =>
            let* b' := read_board nr nc in
            py_ret (if cell_eqb b' Mine then count + 1 else count)) 0 in
        write_board r c (Count count))).

(** [Minesweeper(rows, cols, num_mines)]: [__init__] (lines 8-17) on the
    draws that [random] will give. *)
Definition construct (rows cols num_mines : Z) (draws : list (Z * Z))
  : res unit :=
  (_place_mines draws ;;; _calculate_numbers) (init_fields rows cols num_mines).

(** [check_win] (lines 79-89). *)
Definition check_win : Py unit :=
  let* nrows := gets rows in
  let* hidden_cells :=
    for_fold (range nrows) (fun r hidden =>
      let* ncols := gets cols in
      for_fold (range ncols) (fun c hidden =>
        let* v := read_visible r c in
        py_ret (if v =? " " then hidden + 1 else hidden)%string) hidden) 0 in
  let* n := gets num_mines in
  if hidden_cells =? n then
    modify (set_win true) ;;; modify (set_game_over true)
  else py_ret tt.

(** [reveal] (lines 50-67), called where the interpreter allows [frames]
    more frames: the call takes one, and the calls it makes, of
    [_get_neighbors], of [reveal] and of [check_win], are left with
    [frames'].  ([str] is a builtin and takes no frame.) *)
Fixpoint reveal (frames : nat) (r c : Z) : Py unit :=
  match frames with
  | O => raise RecursionError
  | S frames' =>
    let* over := gets game_over in
    if over then py_ret tt else
    let* v := read_visible r c in
    if negb (v =? " ")%string then py_ret tt else
    let* b := read_board r c in
    if cell_eqb b Mine then
      modify (set_game_over true) ;;;
      write_visible r c "M"
    else
      let* b := read_board r c in
      write_visible r c (str b) ;;;
      let* b := read_board r c in
      (if cell_eqb b (Count 0) then
         let* ns := call frames' (_get_neighbors r c) in
         for_each ns (fun '(nr, nc) =>
           let* v := read_visible nr nc in
           if (v =? " ")%string then reveal frames' nr nc else py_ret tt)
       else py_ret tt) ;;;
      call frames' check_win
  end.

(** [flag] (lines 69-77), the specification's [toggleFlag]. *)
Definition flag (r c : Z) : Py unit :=
  let* over := gets game_over in
  if over then py_ret tt else
  let* v := read_visible r c in
  if negb ((v =? " ") || (v =? "F"))%string then py_ret tt else
  let* v := read_visible r c in
  if (v =? " ")%string then write_visible r c "F"
  else
    let* v := read_visible r c in
    if (v =? "F")%string then write_visible r c " " else py_ret tt.

(** ** Commands, outcome and reachable states *)

(** What the GUI reads off the two flags in [_check_game_status]
    (lines 158-167). *)
Inductive GameOutcome := InProgress | Won | Lost.

Definition outcome (g : Minesweeper) : GameOutcome :=
  if game_over g then (if win g then Won else Lost) else InProgress.

Inductive command := Reveal (r c : Z) | Flag (r c : Z).

(** The number of elements of a list that satisfy [p]. *)
Fixpoint count {A} (p : A -> bool) (l : list A) : nat :=
  match l with
  | [] => 0
  | x :: l' => (if p x then 1 else 0) + count p l'
  end%nat.

(** The cells showing [' ']: the ones [check_win] counts. *)
Definition is_blank (v : string) : bool := (v =? " ")%string.

Definition hidden_total (v : list (list string)) : nat :=
  count is_blank (concat v).

(** A call from outside, made where the interpreter allows [frames] more
    frames, and a sequence of such calls. *)
Definition exec (frames : nat) (cmd : command) : Py unit :=
  match cmd with
  | Reveal r c => reveal frames r c
  | Flag r c => call frames (flag r c)
  end.

Definition run (frames : nat) (cmds : list command) : Py unit :=
  for_each cmds (exec frames).

(** The coordinates of the cells: [[0, rows) x [0, cols)]. *)
Definition in_range (g : Minesweeper) (r c : Z) : Prop :=
  0 <= r < rows g /\ 0 <= c < cols g.

Definition cmd_in_range (g : Minesweeper) (cmd : command) : Prop :=
  match cmd with
  | Reveal r c => in_range g r c
  | Flag r c => in_range g r c
  end.

(** The states of the object: a constructed engine, then calls of
    [reveal] and [flag] at any coordinates and with any number of frames,
    returning or raising. *)
Inductive reachable : Minesweeper -> Prop :=
| reach_construct nrows ncols n draws g :
    construct nrows ncols n draws = Ok tt g -> reachable g
| reach_return g frames cmd g' :
    reachable g -> exec frames cmd g = Ok tt g' -> reachable g'
| reach_raise g frames cmd e g' :
    reachable g -> exec frames cmd g = Raise e g' -> reachable g'.

(** The states a game goes through when every call is at 0-indexed
    in-range coordinates, the only ones the interface allows and the GUI
    makes (one button per cell); the calls return, or raise for want of
    frames. *)
Inductive reachable_in_range : Minesweeper -> Prop :=
| in_range_construct nrows ncols n draws g :
    construct nrows ncols n draws = Ok tt g -> reachable_in_range g
| in_range_exec g frames cmd g' :
    reachable_in_range g -> cmd_in_range g cmd ->
    exec frames cmd g = Ok tt g' -> reachable_in_range g'
| in_range_raise g frames cmd e g' :
    reachable_in_range g -> cmd_in_range g cmd ->
    exec frames cmd g = Raise e g' -> reachable_in_range g'.

(** The three visibility states, as [flag] and the GUI's [_update_board]
    tell them apart: [' '], ['F'], anything else. *)
Inductive VisibilityState := Hidden | Flagged | Revealed.

Definition visibility (v : string) : VisibilityState :=
  if (v =? " ")%string then Hidden
  else if (v =? "F")%string then Flagged else Revealed.

Definition visibility_at (g : Minesweeper) (r c : Z) : option VisibilityState :=
  visibility <$> grid_get (visible_board g) r c.

Definition is_hazard (g : Minesweeper) (r c : Z) : Prop :=
  grid_get (board g) r c = Some Mine.

(** The hazards among the up to 8 neighbours of a cell, counted cell by
    cell over the eight offsets. *)
Definition hazard_at (b : list (list cell)) (nrows ncols r c : Z) : bool :=
  (0 <=? r) && (r <? nrows) && ((0 <=? c) && (c <? ncols)) &&
  match grid_get b r c with Some Mine => true | _ => false end.

Definition offsets8 : list (Z * Z) :=
  [(-1, -1); (-1, 0); (-1, 1); (0, -1); (0, 1); (1, -1); (1, 0); (1, 1)].

Definition adjacent_hazards (g : Minesweeper) (r c : Z) : Z :=
  Z.of_nat (count
    (fun d => hazard_at (board g) (rows g) (cols g) (r + d.1) (c + d.2))
    offsets8).

(** A grid of [nr] rows of [nc] cells each. *)
Definition has_dims {A} (gr : list (list A)) (nr nc : Z) : Prop :=
  length gr = Z.to_nat nr /\ Forall (fun row => length row = Z.to_nat nc) gr.


(** ** Reasoning about method calls *)

(** [sat x Q E U]: the result [x] satisfies [Q] if it is a normal return,
    [E] if it is an exception, and [U] holds if the draws ran out. *)
Definition sat {A} (x : res A) (Q : A -> Minesweeper -> Prop)
    (E : exn -> Minesweeper -> Prop) (U : Prop) : Prop :=
  match x with
  | Ok a g => Q a g
  | Raise e g => E e g
  | Unfinished => U
  end.

(** [returns x Q]: the call returned normally, in a state satisfying [Q]. *)
Definition returns {A} (x : res A) (Q : A -> Minesweeper -> Prop) : Prop :=
  sat x Q (fun _ _ => False) False.

(** The loop of the cascade in [reveal], with the frames left for the
    recursive calls. *)
Definition cascade (frames : nat) (ns : list (Z * Z)) : Py unit :=
  for_each ns (fun '(nr, nc) =>
    let* v := read_visible nr nc in
    if (v =? " ")%string then reveal frames nr nc else py_ret tt).

(** ** Invariants *)

(** Both grids have the dimensions the object records. *)
Definition well_shaped (g : Minesweeper) : Prop :=
  has_dims (board g) (rows g) (cols g) /\
  has_dims (visible_board g) (rows g) (cols g).

(** [g'] is [g] up to the visibility grid and the two flags. *)
Definition same_layout (g g' : Minesweeper) : Prop :=
  rows g' = rows g /\ cols g' = cols g /\ num_mines g' = num_mines g /\
  board g' = board g.

(** The visibility grids of [g] and [g'] agree off the cell [(r, c)]. *)
Definition same_visible_except (g g' : Minesweeper) (r c : Z) : Prop :=
  forall r' c', in_range g r' c' -> (r', c') <> (r, c) ->
    grid_get (visible_board g') r' c' = grid_get (visible_board g) r' c'.

(** The hazards among the neighbours [_get_neighbors] lists. *)
Definition mine_at (b : list (list cell)) (p : Z * Z) : bool :=
  match grid_get b p.1 p.2 with Some Mine => true | _ => false end.

Definition mines_around (g : Minesweeper) (r c : Z) : Z :=
  Z.of_nat (count (mine_at (board g)) (neighbors (rows g) (cols g) r c)).

(** Every integer of [board] is the number of hazards around its cell. *)
Definition numbered (g : Minesweeper) : Prop :=
  forall r c n, in_range g r c -> grid_get (board g) r c = Some (Count n) ->
                n = mines_around g r c.

Definition well_formed (g : Minesweeper) : Prop :=
  well_shaped g /\ numbered g.

(** What a non-losing [reveal] may do to a cell: nothing, or turn a [' ']
    over a non-hazard into its count.  [uncovers] adds what it does to the
    object as a whole: nothing at all once the game is over, and it sets
    [win] only when the cells showing [' '] are as many as [num_mines]. *)
Definition cell_uncovered (g g' : Minesweeper) (r c : Z) : Prop :=
  grid_get (visible_board g') r c = grid_get (visible_board g) r c \/
  (grid_get (visible_board g) r c = Some " " /\
   exists n, grid_get (board g) r c = Some (Count n) /\
             grid_get (visible_board g') r c = Some (str (Count n))).

(** What it may do to the flags: nothing, or set both. *)
Definition flags_evolve (g g' : Minesweeper) : Prop :=
  (game_over g' = game_over g /\ win g' = win g) \/
  (game_over g' = true /\ win g' = true).

Record uncovers (g g' : Minesweeper) : Prop := mk_uncovers {
  unc_layout : same_layout g g';
  unc_shape : has_dims (visible_board g') (rows g) (cols g);
  unc_cells : forall r c, in_range g r c -> cell_uncovered g g' r c;
  unc_hidden :
    (hidden_total (visible_board g') <= hidden_total (visible_board g))%nat;
  unc_flags : flags_evolve g g';
  unc_over : game_over g = true -> visible_board g' = visible_board g;
  unc_win :
    win g' = true ->
    win g = true \/ Z.of_nat (hidden_total (visible_board g')) = num_mines g
}.

(** The number of hazards on a board. *)
Definition is_mine (x : cell) : bool := cell_eqb x Mine.

Definition mine_total (b : list (list cell)) : nat := count is_mine (concat b).

(** [g'] is [g] with another board of the same dimensions. *)
Definition reboarded (g g' : Minesweeper) : Prop :=
  rows g' = rows g /\ cols g' = cols g /\ num_mines g' = num_mines g /\
  visible_board g' = visible_board g /\ game_over g' = game_over g /\
  win g' = win g /\ has_dims (board g') (rows g) (cols g).

(** The cell [_calculate_numbers] leaves at [(r, c)] of the board of [g]. *)
Definition numbered_cell (g : Minesweeper) (r c : Z) : cell :=
  if mine_at (board g) (r, c) then Mine else Count (mines_around g r c).

(** [(r, c)] comes before [(i, j)] in the order the loops visit the cells. *)
Definition visited_before (i j r c : Z) : bool :=
  (r <? i) || ((r =? i) && (c <? j)).

(** The state of [_calculate_numbers], started on [g0], when its loops
    reach the cell [(i, j)]. *)
Definition calculated_upto (g0 g : Minesweeper) (i j : Z) : Prop :=
  reboarded g0 g /\
  forall r c, in_range g0 r c ->
    grid_get (board g) r c
    = if visited_before i j r c then Some (numbered_cell g0 r c)
      else grid_get (board g0) r c.

(** No hazard cell shows anything but [' '] or ['F']. *)
Definition no_hazard_revealed (g : Minesweeper) : Prop :=
  forall r c v, in_range g r c -> is_hazard g r c ->
    grid_get (visible_board g) r c = Some v -> visibility v <> Revealed.

(** The invariant of the states reachable at in-range coordinates. *)
Definition game_inv (g : Minesweeper) : Prop :=
  well_formed g /\
  (win g = true -> game_over g = true) /\
  (game_over g = false -> no_hazard_revealed g) /\
  (win g = true -> no_hazard_revealed g) /\
  (win g = true ->
   Z.of_nat (hidden_total (visible_board g)) = num_mines g) /\
  Z.of_nat (mine_total (board g)) = Z.max 0 (num_mines g).

(** A method that leaves [rows], [cols], [num_mines] and [board] as they
    are, however it ends. *)
Definition keeps_layout {A} (m : Py A) : Prop :=
  forall g, sat (m g) (fun _ g' => same_layout g g')
                (fun _ g' => same_layout g g') True.

(** Some hazard cell shows something else than [' '] or ['F']. *)
Definition hazard_revealed (g : Minesweeper) : Prop :=
  exists r c, in_range g r c /\ is_hazard g r c /\
              visibility_at g r c = Some Revealed.

(** ** Sample games *)

Definition blank33 : list (list string) :=
  [[" "; " "; " "]; [" "; " "; " "]; [" "; " "; " "]].

(** The 3x3 game with its one hazard in the corner [(0, 0)]. *)
Definition corner33 : Minesweeper :=
  {| rows := 3; cols := 3; num_mines := 1;
     board := [[Mine; Count 1; Count 0];
               [Count 1; Count 1; Count 0];
               [Count 0; Count 0; Count 0]];
     visible_board := blank33;
     game_over := false; win := false |}.

(** The 1x3 game with its one hazard at [(0, 0)]. *)
Definition strip13 : Minesweeper :=
  {| rows := 1; cols := 3; num_mines := 1;
     board := [[Mine; Count 1; Count 0]];
     visible_board := [[" "; " "; " "]];
     game_over := false; win := false |}.

(** [corner33] after the hazard was revealed. *)
Definition lost33 : Minesweeper :=
  {| rows := 3; cols := 3; num_mines := 1;
     board := board corner33;
     visible_board := [["M"; " "; " "]; [" "; " "; " "]; [" "; " "; " "]];
     game_over := true; win := false |}.

(** [visits frames r c g p]: running [reveal frames r c] on [g] calls
    [reveal] at the coordinates [p], at top level or from the loop of a
    cascade (the neighbour [(nr, nc)] of a cell counting 0, reached in the
    state [gk] the earlier neighbours left, and still showing [' ']; the
    loop is reached when [_get_neighbors] had a frame). *)
Inductive visits : nat -> Z -> Z -> Minesweeper -> Z * Z -> Prop :=
| visits_here frames r c g : visits frames r c g (r, c)
| visits_cascade frames r c g v' before nr nc after gk p :
    (0 < frames)%nat ->
    game_over g = false ->
    grid_get (visible_board g) r c = Some " " ->
    grid_get (board g) r c = Some (Count 0) ->
    grid_set (visible_board g) r c (str (Count 0)) = Some v' ->
    neighbors (rows g) (cols g) r c = before ++ (nr, nc) :: after ->
    cascade frames before (set_visible_board v' g) = Ok tt gk ->
    grid_get (visible_board gk) nr nc = Some " " ->
    visits frames nr nc gk p ->
    visits (S frames) r c g p.

(** [strip13] after [flag(0, 1)] and [reveal(0, 2)]. *)
Definition strip13_won : Minesweeper :=
  {| rows := 1; cols := 3; num_mines := 1;
     board := board strip13;
     visible_board := [[" "; "F"; "0"]];
     game_over := true; win := true |}.

(** [strip13] after [flag(0, 0)] and [reveal(0, 2)]. *)
Definition strip13_cleared : Minesweeper :=
  {| rows := 1; cols := 3; num_mines := 1;
     board := board strip13;
     visible_board := [["F"; "1"; "0"]];
     game_over := false; win := false |}.

(** [corner33] after [flag(0, 0)] and [reveal(2, 2)]. *)
Definition corner33_cut : Minesweeper :=
  {| rows := 3; cols := 3; num_mines := 1;
     board := board corner33;
     visible_board := [["F"; "1"; "0"]; ["1"; "1"; "0"]; [" "; "0"; "0"]];
     game_over := true; win := true |}.

(** ** The region of a cascade *)

(** The cells a cascade started at [(r, c)] can reach in [g]: the start,
    and every neighbour showing [' '] of a reached cell that counts 0.
    These are the connected cells counting 0, linked through hidden cells,
    and the hidden cells on their border. *)
Inductive in_region (g : Minesweeper) (r c : Z) : Z * Z -> Prop :=
| region_start : in_region g r c (r, c)
| region_step p q :
    in_region g r c p ->
    grid_get (board g) p.1 p.2 = Some (Count 0) ->
    In q (neighbors (rows g) (cols g) p.1 p.2) ->
    grid_get (visible_board g) q.1 q.2 = Some " " ->
    in_region g r c q.

(** The cell [p] does not show in [g'] what it showed in [g]. *)
Definition changed (g g' : Minesweeper) (p : Z * Z) : Prop :=
  grid_get (visible_board g') p.1 p.2 <> grid_get (visible_board g) p.1 p.2.

(** Around every cell counting 0 that was uncovered between [g] and [g'],
    no neighbour is left showing [' ']. *)
Definition closed (g g' : Minesweeper) : Prop :=
  forall p q, in_range g p.1 p.2 -> changed g g' p ->
    grid_get (board g) p.1 p.2 = Some (Count 0) ->
    In q (neighbors (rows g) (cols g) p.1 p.2) ->
    grid_get (visible_board g') q.1 q.2 <> Some " ".

(** What a [reveal] at the non-hazard cell [(r, c)] of [g] has done when it
    returns [g']. *)
Definition cascaded (g : Minesweeper) (r c : Z) (g' : Minesweeper) : Prop :=
  uncovers g g' /\
  (forall p, in_range g p.1 p.2 -> changed g g' p -> in_region g r c p) /\
  (game_over g' = false ->
   closed g g' /\ grid_get (visible_board g') r c <> Some " ").

(** What a cascade cut short by the recursion limit has done: it
    uncovered cells of its region only. *)
Definition cut_short (g : Minesweeper) (r c : Z) (g' : Minesweeper) : Prop :=
  uncovers g g' /\
  (forall p, in_range g p.1 p.2 -> changed g g' p -> in_region g r c p).

(** A method that returns or raises, not for want of frames, and leaves
    no more cells showing [' '] than it found. *)
Definition settles {A} (m : Py A) : Prop :=
  forall g,
    sat (m g)
      (fun _ g' => (hidden_total (visible_board g')
                    <= hidden_total (visible_board g))%nat)
      (fun e g' => e <> RecursionError /\
                   (hidden_total (visible_board g')
                    <= hidden_total (visible_board g))%nat)
      False.

(** [strip13] after [reveal(-1, -1)]. *)
Definition strip13_wrapped : Minesweeper :=
  {| rows := 1; cols := 3; num_mines := 1;
     board := board strip13;
     visible_board := [["M"; " "; "0"]];
     game_over := true; win := true |}.
(** What every reachable state satisfies, whatever the coordinates of the
    calls. *)
Definition sound (g : Minesweeper) : Prop :=
  well_formed g /\
  (win g = true -> game_over g = true) /\
  Z.of_nat (mine_total (board g)) = Z.max 0 (num_mines g).

(** The part of [sound] that is about the visibility grid and the flags. *)
Definition shaped (g : Minesweeper) : Prop :=
  has_dims (visible_board g) (rows g) (cols g) /\
  (win g = true -> game_over g = true).

(** A method that keeps [shaped], however it ends. *)
Definition keeps_shaped {A} (m : Py A) : Prop :=
  forall g, shaped g ->
    sat (m g) (fun _ g' => shaped g') (fun _ g' => shaped g') True.

(** ** Frames *)

(** [m'] does what [m] does wherever [m] does not raise [RecursionError]. *)
Definition approx {A} (m m' : Py A) : Prop :=
  forall g, (exists g', m g = Raise RecursionError g') \/ m' g = m g.

(** ** What any call may do to the visibility grid *)

(** What a call of [reveal] may do to a cell, hazard or not: nothing, or
    turn a [' '] into what [board] holds there. *)
Definition cell_shown (g g' : Minesweeper) (r c : Z) : Prop :=
  grid_get (visible_board g') r c = grid_get (visible_board g) r c \/
  (grid_get (visible_board g) r c = Some " " /\
   exists b, grid_get (board g) r c = Some b /\
             grid_get (visible_board g') r c = Some (str b)).

Record shows (g g' : Minesweeper) : Prop := mk_shows {
  shw_layout : same_layout g g';
  shw_shape : has_dims (visible_board g') (rows g) (cols g);
  shw_cells : forall r c, in_range g r c -> cell_shown g g' r c
}.

(** Every cell shows [' '], ['F'] or what [board] holds there. *)
Definition truthful (g : Minesweeper) : Prop :=
  forall r c v b, in_range g r c ->
    grid_get (visible_board g) r c = Some v ->
    grid_get (board g) r c = Some b ->
    v = " " \/ v = "F" \/ v = str b.

(** The cells of [g] that show a count or a hazard show the same in [g']. *)
Definition keeps_revealed (g g' : Minesweeper) : Prop :=
  forall r c v, in_range g r c ->
    grid_get (visible_board g) r c = Some v -> visibility v = Revealed ->
    grid_get (visible_board g') r c = Some v.

(** ** [__str__] *)

(** [sep.join(l)] for a list of strings. *)
Definition join (sep : string) (l : list string) : string :=
  String.concat sep l.

(** The string ['\n']. *)
Definition newline : string := String (Ascii.ascii_of_nat 10) "".

(** [__str__] (lines 91-93). *)
Definition __str__ : Py string :=
  let* v := gets visible_board in
  py_ret (join newline (map (join " ") v)).

(** ** The interface: [MinesweeperGUI] *)

(** The options of a [tk.Button] that the class configures; [fg] is [None]
    as long as no colour was configured. *)
Inductive Relief := RAISED | SUNKEN.

Inductive ButtonState := NORMAL | DISABLED.

Record Button := mkButton {
  text : string;
  relief : Relief;
  state : ButtonState;
  fg : option string
}.

(** [button.config(text=..., relief=..., state=..., fg=...)]: the options
    that are given are set, the others stay. *)
Definition config (t : option string) (rl : option Relief)
    (st : option ButtonState) (f : option string) (b : Button) : Button :=
  {| text := default (text b) t;
     relief := default (relief b) rl;
     state := default (state b) st;
     fg := match f with Some c => Some c | None => fg b end |}.

(** [d.get(k, default)] on a dict literal. *)
Definition dict_get (d : list (string * string)) (k dflt : string) : string :=
  match find (fun kv => (kv.1 =? k)%string) d with
  | Some kv => kv.2
  | None => dflt
  end.

Definition colors : list (string * string) :=
  [("1", "blue"); ("2", "green"); ("3", "red"); ("4", "purple");
   ("5", "maroon"); ("6", "turquoise"); ("7", "black"); ("8", "gray")].

Definition flag_text : string := "🚩".
Definition bomb_text : string := "💣".
Definition won_message : string := "Congratulations, you won! 🎉".
Definition lost_message : string := "Game Over! You hit a mine. 💥".

(** The object: the engine, the grid of buttons, and what the window has
    been told to do: the message boxes shown, latest first, and whether
    [window.quit()] was called. *)
Record MinesweeperGUI := mkGUI {
  game : Minesweeper;
  buttons : list (list Button);
  shown : list (string * string);
  quit_called : bool
}.

Definition set_game (g : Minesweeper) (s : MinesweeperGUI) : MinesweeperGUI :=
  mkGUI g (buttons s) (shown s) (quit_called s).

Definition set_buttons (bs : list (list Button)) (s : MinesweeperGUI)
  : MinesweeperGUI :=
  mkGUI (game s) bs (shown s) (quit_called s).

(** The methods of the interface: a normal return, or an exception, with
    the object as it then is. *)
Inductive gres :=
| GOk (s : MinesweeperGUI)
| GRaise (e : exn) (s : MinesweeperGUI)
| GUnfinished.

Definition GPy : Type := MinesweeperGUI -> gres.

Definition gseq (m k : GPy) : GPy :=
  fun s => match m s with
           | GOk s' => k s'
           | GRaise e s' => GRaise e s'
           | GUnfinished => GUnfinished
           end.

Notation "m ';;>' k" := (gseq m k)
  (at level 100, k at level 200, right associativity, only parsing).

Fixpoint gfor {X} (l : list X) (body : X -> GPy) : GPy :=
  match l with
  | [] => GOk
  | x :: l' => body x ;;> gfor l' body
  end.

(** A call of a method of [self.game]. *)
Definition call_game (m : Py unit) : GPy :=
  fun s => match m (game s) with
           | Ok _ g' => GOk (set_game g' s)
           | Raise e g' => GRaise e (set_game g' s)
           | Unfinished => GUnfinished
           end.

(** [messagebox.showinfo(title, message)] and [self.window.quit()]. *)
Definition showinfo (title message : string) : GPy :=
  fun s => GOk (mkGUI (game s) (buttons s) ((title, message) :: shown s)
                      (quit_called s)).

Definition window_quit : GPy :=
  fun s => GOk (mkGUI (game s) (buttons s) (shown s) true).

(** The body of the loops of [_update_board] (lines 125-143), on the
    button of the cell. *)
Definition update_button (cell_value : string) (button : Button) : Button :=
  if (cell_value =? " ")%string then
    config (Some "") (Some RAISED) (Some NORMAL) None button
  else if (cell_value =? "F")%string then
    config (Some flag_text) (Some RAISED) (Some NORMAL) None button
  else
    let button :=
      config (Some cell_value) (Some SUNKEN) (Some DISABLED) None button in
    if (cell_value =? "0")%string then config (Some "") None None None button
    else if (cell_value =? "M")%string then
      config (Some bomb_text) None None None button
    else
      config None None None (Some (dict_get colors cell_value "black")) button.

(** [self.buttons[r][c].config(...)], the button being updated in place. *)
Definition config_at (r c : Z) (f : Button -> Button) : GPy :=
  fun s => match grid_get (buttons s) r c with
           | None => GRaise IndexError s
           | Some button =>
             match grid_set (buttons s) r c (f button) with
             | Some bs => GOk (set_buttons bs s)
             | None => GRaise IndexError s
             end
           end.

(** [_update_board] (lines 121-143). *)
Definition _update_board : GPy :=
  fun s =>
    gfor (range (rows (game s))) (fun r s =>
      gfor (range (cols (game s))) (fun c s =>
        match grid_get (visible_board (game s)) r c with
        | None => GRaise IndexError s
        | Some cell_value => config_at r c (update_button cell_value) s
        end) s) s.

(** [_check_game_status] (lines 156-168). *)
Definition _check_game_status : GPy :=
  fun s =>
    if game_over (game s) then
      ((if win (game s) then showinfo "Minesweeper" won_message
        else
          (fun s =>
             gfor (range (rows (game s))) (fun r s =>
               gfor (range (cols (game s))) (fun c s =>
                 match grid_get (board (game s)) r c with
                 | None => GRaise IndexError s
                 | Some x =>
                   if cell_eqb x Mine then
                     config_at r c
                       (config (Some bomb_text) (Some SUNKEN) None None) s
                   else GOk s
                 end) s) s) ;;>
          showinfo "Minesweeper" lost_message) ;;>
       window_quit) s
    else GOk s.

(** [_on_click_left] (lines 145-149) and [_on_click_right] (lines 151-154),
    where the interpreter leaves [frames] frames to the calls that the
    handler makes; the event of the latter is not used.  The methods of the
    interface that the handlers call are of bounded depth and are taken to
    have their frames. *)
Definition _on_click_left (frames : nat) (r c : Z) : GPy :=
  call_game (reveal frames r c) ;;> _update_board ;;> _check_game_status.

Definition _on_click_right (frames : nat) (r c : Z) : GPy :=
  call_game (call frames (flag r c)) ;;> _update_board.

(** What the buttons show when [_update_board] has run on the grid [bs0]
    of buttons, and when the loop of [_check_game_status] has. *)
Definition rendered (g : Minesweeper) (r c : Z) (b : Button) : Button :=
  match grid_get (visible_board g) r c with
  | Some v => update_button v b
  | None => b
  end.

Definition exposed (g : Minesweeper) (r c : Z) (b : Button) : Button :=
  match grid_get (board g) r c with
  | Some Mine => config (Some bomb_text) (Some SUNKEN) None None b
  | _ => b
  end.

(** The state of a loop over the cells, started on [s0], that applies [f]
    to the button of each cell, when it reaches the cell [(i, j)]. *)
Definition buttons_upto (f : Z -> Z -> Button -> Button)
    (s0 s : MinesweeperGUI) (i j : Z) : Prop :=
  game s = game s0 /\ shown s = shown s0 /\ quit_called s = quit_called s0 /\
  has_dims (buttons s) (rows (game s0)) (cols (game s0)) /\
  forall r c b, in_range (game s0) r c ->
    grid_get (buttons s0) r c = Some b ->
    grid_get (buttons s) r c
    = Some (if visited_before i j r c then f r c b else b).

(** A button as [_create_widgets] creates it (lines 111-116): no text, the
    default relief, state and colour. *)
Definition new_button : Button :=
  {| text := ""; relief := RAISED; state := NORMAL; fg := None |}.

(** The interface on [corner33] when the window opens. *)
Definition gui33 : MinesweeperGUI :=
  {| game := corner33;
     buttons := map (fun _ => map (fun _ => new_button) (range 3)) (range 3);
     shown := []; quit_called := false |}.

(** ** The cells [_place_mines] draws *)

(** The cell a pair of raw draws of [random.randint] falls on (lines
    23-24). *)
Definition drawn_cell (nrows ncols : Z) (d : Z * Z) : Z * Z :=
  (d.1 mod nrows, d.2 mod ncols).

Definition cell_in (p : Z * Z) (l : list (Z * Z)) : bool :=
  existsb (fun q => (q.1 =? p.1) && (q.2 =? p.2)) l.

(** The cells of [l] that are not in [seen], each once, in the order in
    which they first occur. *)
Fixpoint fresh_cells (seen l : list (Z * Z)) : list (Z * Z) :=
  match l with
  | [] => []
  | p :: l' =>
    if cell_in p seen then fresh_cells seen l'
    else p :: fresh_cells (p :: seen) l'
  end.

(** * Python lists *)

Section PyLists.
Context {A : Type}.
Implicit Types (l : list A).

Lemma py_index_in_range n i :
  0 <= i < Z.of_nat n -> py_index n i = Some (Z.to_nat i).
Proof.
  intros Hi. unfold py_index.
  destruct (Z.leb_spec 0 i), (Z.ltb_spec i (Z.of_nat n)); simpl; auto; lia.
Qed.

Lemma py_index_wrap n i :
  - Z.of_nat n <= i < 0 -> py_index n i = Some (Z.to_nat (Z.of_nat n + i)).
Proof.
  intros Hi. unfold py_index.
  destruct (Z.leb_spec 0 i), (Z.ltb_spec i (Z.of_nat n)),
    (Z.leb_spec (- Z.of_nat n) i), (Z.ltb_spec i 0); simpl; auto; lia.
Qed.

Lemma py_index_outside n i :
  i < - Z.of_nat n \/ Z.of_nat n <= i -> py_index n i = None.
Proof.
  intros Hi. unfold py_index.
  destruct (Z.leb_spec 0 i), (Z.ltb_spec i (Z.of_nat n)),
    (Z.leb_spec (- Z.of_nat n) i), (Z.ltb_spec i 0); simpl; auto; lia.
Qed.

Lemma py_index_mod n i :
  - Z.of_nat n <= i < Z.of_nat n ->
  py_index n i = py_index n (i mod Z.of_nat n).
Proof.
  intros Hi. destruct (Z_lt_le_dec i 0) as [Hneg|Hpos].
  - rewrite py_index_wrap by lia.
    replace (i mod Z.of_nat n) with (Z.of_nat n + i).
    + now rewrite py_index_in_range by lia.
    + apply Z.mod_unique with (q := -1); lia.
  - now rewrite Z.mod_small by lia.
Qed.

Lemma getitem_in_range l i :
  0 <= i < Z.of_nat (length l) -> getitem l i = l !! Z.to_nat i.
Proof. intros Hi. unfold getitem. now rewrite py_index_in_range. Qed.

Lemma setitem_in_range l i x :
  0 <= i < Z.of_nat (length l) -> setitem l i x = Some (<[Z.to_nat i:=x]> l).
Proof. intros Hi. unfold setitem. now rewrite py_index_in_range. Qed.

Lemma getitem_outside l i :
  i < - Z.of_nat (length l) \/ Z.of_nat (length l) <= i -> getitem l i = None.
Proof. intros Hi. unfold getitem. now rewrite py_index_outside. Qed.

Lemma getitem_mod l i :
  - Z.of_nat (length l) <= i < Z.of_nat (length l) ->
  getitem l i = getitem l (i mod Z.of_nat (length l)).
Proof. intros Hi. unfold getitem. now rewrite <- py_index_mod. Qed.

Lemma setitem_mod l i x :
  - Z.of_nat (length l) <= i < Z.of_nat (length l) ->
  setitem l i x = setitem l (i mod Z.of_nat (length l)) x.
Proof. intros Hi. unfold setitem. now rewrite <- py_index_mod. Qed.

Lemma getitem_elem l i x : getitem l i = Some x -> In x l.
Proof.
  unfold getitem. destruct (py_index (length l) i) as [k|]; [simpl|done].
  intros Hk. apply list_elem_of_In. eapply list_elem_of_lookup_2. exact Hk.
Qed.
End PyLists.

Section Grids.
Context {A : Type}.
Implicit Types (gr : list (list A)).

(** Reading a cell of a grid at in-range coordinates. *)
Lemma grid_get_in_range gr nr nc r c :
  has_dims gr nr nc -> 0 <= r < nr -> 0 <= c < nc ->
  exists row x, gr !! Z.to_nat r = Some row /\ row !! Z.to_nat c = Some x /\
                grid_get gr r c = Some x.
Proof.
  intros [Hlen Hrows] Hr Hc.
  destruct (lookup_lt_is_Some_2 gr (Z.to_nat r)) as [row Hrow]; [lia|].
  assert (Hl : length row = Z.to_nat nc).
  { eapply Forall_lookup_1 in Hrows; eauto. }
  destruct (lookup_lt_is_Some_2 row (Z.to_nat c)) as [x Hx]; [lia|].
  exists row, x. split; [done|]. split; [done|].
  unfold grid_get. rewrite getitem_in_range by lia. rewrite Hrow. simpl.
  rewrite getitem_in_range by lia. done.
Qed.

Lemma grid_get_lookup gr nr nc r c :
  has_dims gr nr nc -> 0 <= r < nr -> 0 <= c < nc ->
  grid_get gr r c = gr !! Z.to_nat r ≫= (fun row => row !! Z.to_nat c).
Proof.
  intros Hd Hr Hc.
  destruct (grid_get_in_range gr nr nc r c) as (row & x & Hrow & Hx & ->); auto.
  rewrite Hrow. simpl. done.
Qed.

(** Writing a cell at in-range coordinates: the grid keeps its
    dimensions and only that cell changes. *)
Lemma grid_set_in_range gr nr nc r c x :
  has_dims gr nr nc -> 0 <= r < nr -> 0 <= c < nc ->
  exists gr', grid_set gr r c x = Some gr' /\ has_dims gr' nr nc /\
    grid_get gr' r c = Some x /\
    forall r' c', 0 <= r' < nr -> 0 <= c' < nc -> (r', c') <> (r, c) ->
                  grid_get gr' r' c' = grid_get gr r' c'.
Proof.
  intros Hd Hr Hc.
  destruct (grid_get_in_range gr nr nc r c) as (row & y & Hrow & Hy & _); auto.
  destruct Hd as [Hlen Hrows].
  assert (Hl : length row = Z.to_nat nc).
  { eapply Forall_lookup_1 in Hrows; eauto. }
  set (row' := <[Z.to_nat c:=x]> row).
  set (gr' := <[Z.to_nat r:=row']> gr).
  assert (Hd' : has_dims gr' nr nc).
  { split; [unfold gr'; now rewrite length_insert|].
    apply Forall_insert; [done|]. unfold row'. now rewrite length_insert. }
  exists gr'. split.
  { unfold grid_set. rewrite getitem_in_range by lia. rewrite Hrow. simpl.
    rewrite setitem_in_range by lia. simpl.
    rewrite setitem_in_range by lia. done. }
  split; [done|]. split.
  - rewrite (grid_get_lookup gr' nr nc) by auto.
    unfold gr'. rewrite list_lookup_insert_eq by lia. simpl.
    unfold row'. rewrite list_lookup_insert_eq by lia. done.
  - intros r' c' Hr' Hc' Hne.
    rewrite (grid_get_lookup gr' nr nc), (grid_get_lookup gr nr nc)
      by (auto; split; auto).
    unfold gr'. destruct (decide (Z.to_nat r = Z.to_nat r')) as [Heq|Hneq].
    + rewrite <- Heq, list_lookup_insert_eq by lia. rewrite Hrow. simpl.
      unfold row'. rewrite list_lookup_insert_ne; [done|].
      intros Hcc. apply Hne. f_equal; lia.
    + now rewrite list_lookup_insert_ne.
Qed.

Lemma grid_get_outside gr nr nc r c :
  has_dims gr nr nc ->
  (r < - nr \/ nr <= r) \/ (c < - nc \/ nc <= c) ->
  grid_get gr r c = None.
Proof.
  intros [Hlen Hrows] Hout. unfold grid_get.
  destruct (getitem gr r) as [row|] eqn:Hget; [simpl|done].
  unfold getitem in Hget.
  destruct (py_index (length gr) r) as [k|] eqn:Hk; [simpl in Hget|done].
  assert (Hl : length row = Z.to_nat nc).
  { eapply Forall_lookup_1 in Hrows; eauto. }
  clear Hget. destruct Hout as [Hr|Hc].
  - rewrite py_index_outside in Hk; [done|lia].
  - apply getitem_outside. lia.
Qed.

(** A negative index in bounds is the index counted from the end. *)
Lemma grid_get_wrap gr nr nc r c :
  has_dims gr nr nc -> - nr <= r < nr -> - nc <= c < nc ->
  grid_get gr r c = grid_get gr (r mod nr) (c mod nc).
Proof.
  intros [Hlen Hrows] Hr Hc. unfold grid_get.
  rewrite (getitem_mod gr r) by lia.
  replace (Z.of_nat (length gr)) with nr by lia.
  destruct (getitem gr (r mod nr)) as [row|] eqn:Hget; [simpl|done].
  apply getitem_elem in Hget.
  assert (Hl : length row = Z.to_nat nc).
  { eapply Forall_forall in Hrows; eauto. }
  rewrite (getitem_mod row c) by lia.
  now replace (Z.of_nat (length row)) with nc by lia.
Qed.

Lemma grid_set_wrap gr nr nc r c x :
  has_dims gr nr nc -> - nr <= r < nr -> - nc <= c < nc ->
  grid_set gr r c x = grid_set gr (r mod nr) (c mod nc) x.
Proof.
  intros [Hlen Hrows] Hr Hc. unfold grid_set.
  rewrite (getitem_mod gr r) by lia.
  replace (Z.of_nat (length gr)) with nr by lia.
  destruct (getitem gr (r mod nr)) as [row|] eqn:Hget; [simpl|done].
  apply getitem_elem in Hget.
  assert (Hl : length row = Z.to_nat nc).
  { eapply Forall_forall in Hrows; eauto. }
  rewrite (setitem_mod row c) by lia.
  replace (Z.of_nat (length row)) with nc by lia.
  destruct (setitem row (c mod nc) x) as [row'|]; [simpl|done].
  rewrite (setitem_mod gr r) by lia.
  now replace (Z.of_nat (length gr)) with nr by lia.
Qed.

(** A write at coordinates that can be read replaces one cell of one row,
    whatever the sign of the indices. *)
Lemma grid_set_insert gr gr' r c x y :
  grid_get gr r c = Some y -> grid_set gr r c x = Some gr' ->
  exists k j row, gr !! k = Some row /\ row !! j = Some y /\
                  gr' = <[k:=<[j:=x]> row]> gr.
Proof.
  unfold grid_get, grid_set, getitem, setitem.
  destruct (py_index (length gr) r) as [k|]; [simpl|done].
  destruct (gr !! k) as [row|] eqn:Hrow; [simpl|done].
  destruct (py_index (length row) c) as [j|]; [simpl|done].
  intros Hy [= <-]. now exists k, j, row.
Qed.
End Grids.

(** * The method monad *)

Section Monad.
Context {A B : Type}.

Lemma bind_Ok (m : Py A) (k : A -> Py B) g a g' :
  m g = Ok a g' -> py_bind m k g = k a g'.
Proof. unfold py_bind. now intros ->. Qed.

Lemma bind_Raise (m : Py A) (k : A -> Py B) g e g' :
  m g = Raise e g' -> py_bind m k g = Raise e g'.
Proof. unfold py_bind. now intros ->. Qed.

Lemma bind_Unfinished (m : Py A) (k : A -> Py B) g :
  m g = Unfinished -> py_bind m k g = Unfinished.
Proof. unfold py_bind. now intros ->. Qed.

Lemma sat_bind (m : Py A) (k : A -> Py B) g Q E U :
  sat (m g) (fun a g' => sat (k a g') Q E U) E U ->
  sat (py_bind m k g) Q E U.
Proof. unfold py_bind. now destruct (m g). Qed.

Lemma sat_mono (x : res A) (Q Q' : A -> Minesweeper -> Prop)
    (E E' : exn -> Minesweeper -> Prop) (U U' : Prop) :
  sat x Q E U ->
  (forall a g, Q a g -> Q' a g) -> (forall e g, E e g -> E' e g) ->
  (U -> U') -> sat x Q' E' U'.
Proof. destruct x; simpl; auto. Qed.

Lemma returns_Ok (x : res A) Q :
  returns x Q <-> exists a g, x = Ok a g /\ Q a g.
Proof.
  unfold returns. destruct x; simpl; split;
    try (intros (? & ? & [=] & ?)); try done.
  - eauto.
  - now subst.
Qed.
End Monad.

Lemma read_visible_Some r c g v :
  grid_get (visible_board g) r c = Some v -> read_visible r c g = Ok v g.
Proof. unfold read_visible, py_bind, gets. now intros ->. Qed.

Lemma read_visible_None r c g :
  grid_get (visible_board g) r c = None ->
  read_visible r c g = Raise IndexError g.
Proof. unfold read_visible, py_bind, gets. now intros ->. Qed.

Lemma read_board_Some r c g b :
  grid_get (board g) r c = Some b -> read_board r c g = Ok b g.
Proof. unfold read_board, py_bind, gets. now intros ->. Qed.

Lemma write_visible_Some r c x g v' :
  grid_set (visible_board g) r c x = Some v' ->
  write_visible r c x g = Ok tt (set_visible_board v' g).
Proof. unfold write_visible, py_bind, gets. now intros ->. Qed.

Lemma write_board_Some r c x g b' :
  grid_set (board g) r c x = Some b' ->
  write_board r c x g = Ok tt (set_board b' g).
Proof. unfold write_board, py_bind, gets. now intros ->. Qed.

(** ** Loops *)

Section Loops.
Context {X A : Type}.
Implicit Types (body : X -> A -> Py A).

(** A loop whose body keeps an invariant keeps it. *)
Lemma for_fold_inv (I : A -> Minesweeper -> Prop) E U l body a g :
  (forall x a g, x ∈ l -> I a g -> sat (body x a g) I E U) ->
  I a g -> sat (for_fold l body a g) I E U.
Proof.
  revert a g. induction l as [|x l IH]; intros a g Hbody HI; simpl; [done|].
  apply sat_bind. eapply sat_mono.
  - apply Hbody; [left|done].
  - intros a' g' HI'. apply IH; [|done].
    intros. apply Hbody; [now right|done].
  - auto.
  - auto.
Qed.

(** A loop whose body only reads the state computes a fold. *)
Lemma for_fold_pure (f : X -> A -> A) l body a g :
  (forall x a, x ∈ l -> body x a g = Ok (f x a) g) ->
  for_fold l body a g = Ok (fold_left (fun a x => f x a) l a) g.
Proof.
  revert a. induction l as [|x l IH]; intros a Hbody; simpl; [done|].
  erewrite bind_Ok by (apply Hbody; left). apply IH.
  intros. apply Hbody. now right.
Qed.
End Loops.

(** A loop over [range(n)] with an invariant on the index reached. *)
Lemma for_range_inv {A} (I : Z -> A -> Minesweeper -> Prop) E U n
    (body : Z -> A -> Py A) a g :
  (forall i a g, 0 <= i < n -> I i a g -> sat (body i a g) (I (i + 1)) E U) ->
  I 0 a g -> sat (for_fold (range n) body a g) (I (Z.max 0 n)) E U.
Proof.
  unfold range, range2. rewrite Z.sub_0_r.
  assert (Hgen : forall k s a g, Z.of_nat (s + k) = Z.max 0 n ->
    I (Z.of_nat s) a g ->
    (forall i a g, 0 <= i < n -> I i a g -> sat (body i a g) (I (i + 1)) E U) ->
    sat (for_fold (map (fun k => 0 + Z.of_nat k) (seq s k)) body a g)
        (I (Z.max 0 n)) E U).
  { induction k as [|k IH]; intros s a0 g0 Hs HI Hbody; simpl.
    - rewrite <- Hs. now replace (s + 0)%nat with s by lia.
    - apply sat_bind. eapply sat_mono.
      + apply Hbody; [lia|]. now replace (0 + Z.of_nat s) with (Z.of_nat s) by lia.
      + intros a' g' HI'. apply IH; [lia| |done].
        now replace (Z.of_nat (S s)) with (0 + Z.of_nat s + 1) by lia.
      + auto.
      + auto. }
  intros Hbody HI. apply Hgen; [lia|done|done].
Qed.

(** A read-only loop over the indices of a list folds over its elements. *)
Lemma for_range_pure {X A} (f : X -> A -> A) (l : list X)
    (body : Z -> A -> Py A) a g :
  (forall k x a, l !! k = Some x -> body (Z.of_nat k) a g = Ok (f x a) g) ->
  for_fold (range (Z.of_nat (length l))) body a g
  = Ok (fold_left (fun a x => f x a) l a) g.
Proof.
  unfold range, range2. rewrite Z.sub_0_r, Nat2Z.id.
  assert (Hgen : forall l s a,
    (forall k x a, l !! k = Some x ->
                   body (Z.of_nat (s + k)) a g = Ok (f x a) g) ->
    for_fold (map (fun k => 0 + Z.of_nat k) (seq s (length l))) body a g
    = Ok (fold_left (fun a x => f x a) l a) g).
  { clear l a. induction l as [|x l IH]; intros s a Hbody; simpl; [done|].
    erewrite bind_Ok.
    2:{ replace (0 + Z.of_nat s) with (Z.of_nat (s + 0)) by lia.
        now apply Hbody. }
    apply IH. intros k y a' Hk.
    replace (S s + k)%nat with (s + S k)%nat by lia. now apply Hbody. }
  intros Hbody. now apply (Hgen l 0%nat a).
Qed.

(** A loop with an invariant on the elements already visited. *)
Lemma for_fold_inv_prefix {X A} (I : list X -> A -> Minesweeper -> Prop)
    E U (l : list X) (body : X -> A -> Py A) a g :
  (forall done x rest a g, l = done ++ x :: rest -> I done a g ->
     sat (body x a g) (I (done ++ [x])) E U) ->
  I [] a g -> sat (for_fold l body a g) (I l) E U.
Proof.
  assert (Hgen : forall rest done a g, l = done ++ rest -> I done a g ->
    (forall done x rest a g, l = done ++ x :: rest -> I done a g ->
       sat (body x a g) (I (done ++ [x])) E U) ->
    sat (for_fold rest body a g) (I l) E U).
  { induction rest as [|x rest IH]; intros done a0 g0 Hl HI Hbody; simpl.
    - rewrite app_nil_r in Hl. now subst.
    - apply sat_bind. eapply sat_mono.
      + eapply Hbody; eauto.
      + intros a' g' HI'. apply (IH (done ++ [x])); [|done|done].
        now rewrite <- app_assoc.
      + auto.
      + auto. }
  intros Hbody HI. now apply (Hgen l []).
Qed.

(** * Single cells: [flag] and the losing [reveal] *)

Lemma grid_set_back {A} (gr gr' : list (list A)) nr nc r c x y :
  has_dims gr nr nc -> 0 <= r < nr -> 0 <= c < nc ->
  grid_get gr r c = Some x -> grid_set gr r c y = Some gr' ->
  grid_set gr' r c x = Some gr.
Proof.
  intros Hd Hr Hc Hget Hset.
  destruct (grid_get_in_range gr nr nc r c) as (row & x' & Hrow & Hx & Hget');
    auto.
  assert (x' = x) as -> by congruence.
  destruct Hd as [Hlen Hrows].
  assert (Hl : length row = Z.to_nat nc).
  { eapply Forall_lookup_1 in Hrows; eauto. }
  revert Hset. unfold grid_set.
  rewrite getitem_in_range by lia. rewrite Hrow. simpl.
  rewrite setitem_in_range by lia. simpl.
  rewrite setitem_in_range by lia. intros [= <-].
  rewrite getitem_in_range by (rewrite length_insert; lia).
  rewrite list_lookup_insert_eq by lia. simpl.
  rewrite setitem_in_range by (rewrite length_insert; lia). simpl.
  rewrite setitem_in_range by (rewrite length_insert; lia).
  rewrite list_insert_insert_eq. f_equal.
  rewrite list_insert_insert_eq.
  rewrite (list_insert_id row) by done. now apply list_insert_id.
Qed.

Section Flag.
Variables (g : Minesweeper) (r c : Z).
Hypothesis Hshape : well_shaped g.
Hypothesis Hrange : in_range g r c.

Lemma visible_in_range :
  exists v, grid_get (visible_board g) r c = Some v.
Proof.
  destruct Hshape as [_ Hv], Hrange as [Hr Hc].
  destruct (grid_get_in_range _ _ _ r c Hv Hr Hc) as (? & v & _ & _ & ?).
  eauto.
Qed.

Lemma board_in_range : exists b, grid_get (board g) r c = Some b.
Proof.
  destruct Hshape as [Hb _], Hrange as [Hr Hc].
  destruct (grid_get_in_range _ _ _ r c Hb Hr Hc) as (? & b & _ & _ & ?).
  eauto.
Qed.

(** Writing the visibility of an in-range cell. *)
Lemma write_visible_in_range x :
  exists v', grid_set (visible_board g) r c x = Some v' /\
    write_visible r c x g = Ok tt (set_visible_board v' g) /\
    well_shaped (set_visible_board v' g) /\
    grid_get v' r c = Some x /\
    same_visible_except g (set_visible_board v' g) r c.
Proof.
  destruct Hshape as [Hb Hv], Hrange as [Hr Hc].
  destruct (grid_set_in_range _ _ _ r c x Hv Hr Hc)
    as (v' & Hset & Hd' & Hget & Hother).
  exists v'. split; [done|]. split; [now apply write_visible_Some|].
  split; [now split|]. split; [done|].
  intros r' c' [Hr' Hc'] Hne. simpl. now apply Hother.
Qed.

Lemma flag_hidden :
  game_over g = false -> grid_get (visible_board g) r c = Some " " ->
  exists v', grid_set (visible_board g) r c "F" = Some v' /\
             flag r c g = Ok tt (set_visible_board v' g).
Proof.
  intros Hover Hv.
  destruct (write_visible_in_range "F") as (v' & Hset & Hw & _).
  exists v'. split; [done|].
  unfold flag, py_bind, gets. rewrite Hover.
  repeat (rewrite (read_visible_Some _ _ _ _ Hv); simpl). done.
Qed.

Lemma flag_flagged :
  game_over g = false -> grid_get (visible_board g) r c = Some "F" ->
  exists v', grid_set (visible_board g) r c " " = Some v' /\
             flag r c g = Ok tt (set_visible_board v' g).
Proof.
  intros Hover Hv.
  destruct (write_visible_in_range " ") as (v' & Hset & Hw & _).
  exists v'. split; [done|].
  unfold flag, py_bind, gets. rewrite Hover.
  repeat (rewrite (read_visible_Some _ _ _ _ Hv); simpl). done.
Qed.

Lemma flag_revealed v :
  grid_get (visible_board g) r c = Some v -> visibility v = Revealed ->
  flag r c g = Ok tt g.
Proof.
  intros Hv Hvis. unfold flag, py_bind, gets.
  destruct (game_over g); [done|].
  rewrite (read_visible_Some _ _ _ _ Hv). unfold visibility in Hvis.
  destruct (v =? " ")%string; [done|].
  destruct (v =? "F")%string; [done|]. done.
Qed.

(** Revealing a hidden hazard. *)
Lemma reveal_mine frames :
  game_over g = false -> grid_get (visible_board g) r c = Some " " ->
  grid_get (board g) r c = Some Mine ->
  exists v', grid_set (visible_board g) r c "M" = Some v' /\
    reveal (S frames) r c g
    = Ok tt (set_visible_board v' (set_game_over true g)).
Proof.
  intros Hover Hv Hb.
  destruct (write_visible_in_range "M") as (v' & Hset & Hw & _).
  exists v'. split; [done|].
  simpl. unfold py_bind at 1, gets at 1. rewrite Hover.
  rewrite (bind_Ok _ _ _ _ _ (read_visible_Some _ _ _ _ Hv)). simpl.
  rewrite (bind_Ok _ _ _ _ _ (read_board_Some _ _ _ _ Hb)). simpl.
  unfold py_bind at 1, modify at 1. now apply write_visible_Some.
Qed.
End Flag.

Lemma flag_game_over r c g : game_over g = true -> flag r c g = Ok tt g.
Proof. intros H. unfold flag, py_bind, gets. now rewrite H. Qed.

Lemma reveal_game_over frames r c g :
  game_over g = true -> reveal (S frames) r c g = Ok tt g.
Proof. intros H. simpl. unfold py_bind, gets. now rewrite H. Qed.

Lemma reveal_not_hidden frames r c g v :
  grid_get (visible_board g) r c = Some v -> v <> " " ->
  reveal (S frames) r c g = Ok tt g.
Proof.
  intros Hv Hne. simpl. unfold py_bind at 1, gets at 1.
  destruct (game_over g); [done|].
  rewrite (bind_Ok _ _ _ _ _ (read_visible_Some _ _ _ _ Hv)).
  apply String.eqb_neq in Hne. now rewrite Hne.
Qed.

(** [flag] as a function of the cell it reads and the write it performs. *)
Lemma flag_eq r c g :
  flag r c g
  = if game_over g then Ok tt g else
    match grid_get (visible_board g) r c with
    | None => Raise IndexError g
    | Some v =>
      if (v =? " ")%string then
        match grid_set (visible_board g) r c "F" with
        | Some v' => Ok tt (set_visible_board v' g)
        | None => Raise IndexError g
        end
      else if (v =? "F")%string then
        match grid_set (visible_board g) r c " " with
        | Some v' => Ok tt (set_visible_board v' g)
        | None => Raise IndexError g
        end
      else Ok tt g
    end.
Proof.
  unfold flag. unfold py_bind at 1, gets at 1.
  destruct (game_over g); [done|].
  destruct (grid_get (visible_board g) r c) as [v|] eqn:Hv.
  2:{ now rewrite (bind_Raise _ _ _ _ _ (read_visible_None _ _ _ Hv)). }
  rewrite (bind_Ok _ _ _ _ _ (read_visible_Some _ _ _ _ Hv)).
  destruct (v =? " ")%string eqn:E1; simpl.
  { rewrite (bind_Ok _ _ _ _ _ (read_visible_Some _ _ _ _ Hv)). rewrite E1.
    unfold write_visible, py_bind, gets.
    now destruct (grid_set (visible_board g) r c "F"). }
  destruct (v =? "F")%string eqn:E2; simpl; [|done].
  rewrite (bind_Ok _ _ _ _ _ (read_visible_Some _ _ _ _ Hv)). rewrite E1.
  rewrite (bind_Ok _ _ _ _ _ (read_visible_Some _ _ _ _ Hv)). rewrite E2.
  unfold write_visible, py_bind, gets.
  now destruct (grid_set (visible_board g) r c " ").
Qed.

(** * [check_win] *)

Lemma range_to_nat n : range n = range (Z.of_nat (Z.to_nat n)).
Proof. unfold range, range2. f_equal. f_equal. lia. Qed.

Lemma count_app {A} (p : A -> bool) l1 l2 :
  count p (l1 ++ l2) = (count p l1 + count p l2)%nat.
Proof. induction l1 as [|x l1 IH]; simpl; [done|]. rewrite IH. lia. Qed.

Lemma count_le_length {A} (p : A -> bool) l : (count p l <= length l)%nat.
Proof. induction l as [|x l IH]; simpl; [done|]. destruct (p x); lia. Qed.

Lemma fold_count_row (row : list string) (a : Z) :
  fold_left (fun a x => if (x =? " ")%string then a + 1 else a) row a
  = a + Z.of_nat (count is_blank row).
Proof.
  revert a. induction row as [|x row IH]; intros a; simpl; [lia|].
  rewrite IH. unfold is_blank. destruct (x =? " ")%string; lia.
Qed.

Lemma fold_count_grid (v : list (list string)) (a : Z) :
  fold_left (fun a row => a + Z.of_nat (count is_blank row)) v a
  = a + Z.of_nat (hidden_total v).
Proof.
  unfold hidden_total. revert a.
  induction v as [|row v IH]; intros a; simpl; [lia|].
  rewrite IH, count_app. lia.
Qed.

(** The number [check_win] compares with [num_mines] is the number of cells
    showing [' ']. *)
Lemma check_win_eq g :
  well_shaped g ->
  check_win g
  = Ok tt (if Z.of_nat (hidden_total (visible_board g)) =? num_mines g
           then set_game_over true (set_win true g) else g).
Proof.
  intros [_ [Hlen Hrows]]. unfold check_win.
  unfold py_bind at 1, gets at 1.
  erewrite bind_Ok.
  2:{ rewrite range_to_nat, <- Hlen.
      apply (for_range_pure (fun row a => a + Z.of_nat (count is_blank row))).
      intros k row a Hrow. unfold py_bind at 1, gets at 1.
      assert (Hl : length row = Z.to_nat (cols g)).
      { eapply Forall_lookup_1 in Hrows; eauto. }
      rewrite range_to_nat, <- Hl.
      erewrite (for_range_pure
                  (fun x a => if (x =? " ")%string then a + 1 else a)).
      - now rewrite fold_count_row.
      - intros j x a' Hx. erewrite bind_Ok; [done|].
        apply read_visible_Some. unfold grid_get.
        apply lookup_lt_Some in Hrow as Hk, Hx as Hj.
        rewrite getitem_in_range by lia. rewrite Nat2Z.id, Hrow. simpl.
        rewrite getitem_in_range by lia. now rewrite Nat2Z.id. }
  rewrite fold_count_grid, Z.add_0_l.
  unfold py_bind at 1, gets at 1.
  destruct (_ =? _); done.
Qed.

(** * The cascade of [reveal] *)

Lemma str_revealed n : visibility (str (Count n)) = Revealed.
Proof.
  unfold str, NilZero.string_of_int, NilZero.string_of_uint.
  destruct (Z.to_int n) as [[]|[]]; reflexivity.
Qed.

Lemma str_not_blank n : is_blank (str (Count n)) = false.
Proof.
  pose proof (str_revealed n) as H. unfold visibility in H. unfold is_blank.
  now destruct (str (Count n) =? " ")%string.
Qed.

Lemma str_neq_blank n : str (Count n) <> " ".
Proof.
  intros H. pose proof (str_not_blank n) as Hnb. unfold is_blank in Hnb.
  now rewrite H in Hnb.
Qed.

Lemma count_insert {A} (p : A -> bool) l k x y :
  l !! k = Some y ->
  (count p (<[k:=x]> l) + (if p y then 1 else 0)
   = count p l + (if p x then 1 else 0))%nat.
Proof.
  revert k. induction l as [|z l IH]; intros [|k] Hk; simpl in *; try done.
  - injection Hk as ->. lia.
  - specialize (IH k Hk). lia.
Qed.

Lemma count_concat_insert {A} (p : A -> bool) (gr : list (list A)) k row row' :
  gr !! k = Some row ->
  (count p (concat (<[k:=row']> gr)) + count p row
   = count p (concat gr) + count p row')%nat.
Proof.
  revert k. induction gr as [|z gr IH]; intros [|k] Hk; simpl in *; try done.
  - injection Hk as ->. rewrite !count_app. lia.
  - specialize (IH k Hk). rewrite !count_app. lia.
Qed.

(** Uncovering a cell that showed [' '] takes one off the count of hidden
    cells, at any coordinates that can be read. *)
Lemma hidden_total_set (v v' : list (list string)) r c x :
  grid_get v r c = Some " " -> is_blank x = false ->
  grid_set v r c x = Some v' ->
  (hidden_total v' + 1 = hidden_total v)%nat.
Proof.
  intros Hget Hx Hset.
  destruct (grid_set_insert v v' r c x " " Hget Hset)
    as (k & j & row & Hrow & Hy & ->).
  unfold hidden_total.
  pose proof (count_concat_insert is_blank v k row (<[j:=x]> row) Hrow) as H1.
  pose proof (count_insert is_blank row j x " " Hy) as H2.
  rewrite Hx in H2. simpl in H2. lia.
Qed.

(** ** [uncovers] is a preorder *)

Lemma flags_evolve_refl g : flags_evolve g g.
Proof. now left. Qed.

Lemma flags_evolve_trans g1 g2 g3 :
  flags_evolve g1 g2 -> flags_evolve g2 g3 -> flags_evolve g1 g3.
Proof.
  unfold flags_evolve. intros [[H1 H2]|[H1 H2]] [[H3 H4]|[H3 H4]];
    try (left; split; congruence); right; split; congruence.
Qed.

Lemma in_range_layout g g' r c :
  same_layout g g' -> in_range g' r c <-> in_range g r c.
Proof. intros (Hr & Hc & _). unfold in_range. now rewrite Hr, Hc. Qed.

Lemma uncovers_refl g : well_shaped g -> uncovers g g.
Proof.
  intros [_ Hv]. split.
  - now repeat split.
  - done.
  - intros r c _. now left.
  - done.
  - apply flags_evolve_refl.
  - done.
  - now left.
Qed.

Lemma uncovers_trans g1 g2 g3 :
  uncovers g1 g2 -> uncovers g2 g3 -> uncovers g1 g3.
Proof.
  intros [L1 S1 C1 H1 F1 O1 W1] [L2 S2 C2 H2 F2 O2 W2].
  destruct L1 as (Lr1 & Lc1 & Ln1 & Lb1), L2 as (Lr2 & Lc2 & Ln2 & Lb2).
  split.
  - repeat split; congruence.
  - now rewrite Lr1, Lc1 in S2.
  - intros r c Hrc.
    assert (Hrc2 : in_range g2 r c).
    { unfold in_range. now rewrite Lr1, Lc1. }
    destruct (C1 r c Hrc) as [E1|(V1 & n1 & B1 & E1)],
             (C2 r c Hrc2) as [E2|(V2 & n2 & B2 & E2)].
    + left. congruence.
    + right. split; [congruence|]. exists n2. split; congruence.
    + right. split; [done|]. exists n1. split; congruence.
    + exfalso. apply (str_neq_blank n1). congruence.
  - lia.
  - eapply flags_evolve_trans; eauto.
  - intros Hover. rewrite O2, O1; [done|done|].
    destruct F1 as [[-> _]|[-> _]]; done.
  - intros Hwin. destruct (W2 Hwin) as [Hwin2|Hcount]; [|right; congruence].
    destruct (W1 Hwin2) as [Hwin1|Hcount]; [now left|].
    destruct F1 as [[_ Fw]|[Fo _]]; [left; congruence|].
    right. now rewrite O2.
Qed.

Lemma uncovers_well_formed g g' :
  well_formed g -> uncovers g g' -> well_formed g'.
Proof.
  intros [[Hb Hv] Hn] [(Lr & Lc & Ln & Lb) S _ _ _]. split.
  - split; rewrite ?Lb, Lr, Lc; done.
  - intros r c n Hrc Hget. unfold mines_around. rewrite Lb, Lr, Lc.
    apply Hn; [|now rewrite <- Lb]. unfold in_range. now rewrite <- Lr, <- Lc.
Qed.

(** ** [_get_neighbors] *)

Lemma in_range2 a b i : In i (range2 a b) <-> a <= i < b.
Proof.
  unfold range2. rewrite in_map_iff. split.
  - intros (k & <- & Hk). apply in_seq in Hk. lia.
  - intros Hi. exists (Z.to_nat (i - a)). split; [lia|].
    apply in_seq. lia.
Qed.

(** The coordinates [_get_neighbors] lists are exactly the cells of the
    grid at distance one of [(r, c)]. *)
Lemma in_neighbors nrows ncols r c i j :
  In (i, j) (neighbors nrows ncols r c) <->
  (0 <= i < nrows /\ 0 <= j < ncols) /\
  (r - 1 <= i <= r + 1 /\ c - 1 <= j <= c + 1) /\ (i, j) <> (r, c).
Proof.
  unfold neighbors. rewrite in_flat_map. split.
  - intros (i' & Hi' & Hin). apply in_flat_map in Hin as (j' & Hj' & Hin).
    apply in_range2 in Hi', Hj'.
    destruct (Z.leb_spec 0 i'), (Z.ltb_spec i' nrows), (Z.leb_spec 0 j'),
      (Z.ltb_spec j' ncols), (Z.eqb_spec i' r), (Z.eqb_spec j' c);
      simpl in Hin; try done;
      destruct Hin as [[= <- <-]|[]]; (split; [lia|]); (split; [lia|]);
      intros [= ? ?]; lia.
  - intros ((Hi & Hj) & (Hir & Hjc) & Hne).
    exists i. split; [apply in_range2; lia|].
    apply in_flat_map. exists j. split; [apply in_range2; lia|].
    destruct (Z.leb_spec 0 i), (Z.ltb_spec i nrows), (Z.leb_spec 0 j),
      (Z.ltb_spec j ncols); try lia.
    destruct (Z.eqb_spec i r), (Z.eqb_spec j c); simpl; auto.
    subst. done.
Qed.

Lemma count_zero {A} (p : A -> bool) l x :
  count p l = 0%nat -> In x l -> p x = false.
Proof.
  induction l as [|y l IH]; simpl; [done|].
  intros Hc [->|Hin].
  - destruct (p x); [lia|done].
  - apply IH; [|done]. destruct (p y); lia.
Qed.

(** ** Calls and frames *)

Lemma call_S {A} frames (m : Py A) : call (S frames) m = m.
Proof. reflexivity. Qed.

Lemma call_O {A} (m : Py A) g : call 0 m g = Raise RecursionError g.
Proof. reflexivity. Qed.

Lemma sat_call {A} frames (m : Py A) g Q (E : exn -> Minesweeper -> Prop) U :
  E RecursionError g -> sat (m g) Q E U -> sat (call frames m g) Q E U.
Proof. now destruct frames. Qed.

Lemma reveal_no_frame r c g : reveal 0 r c g = Raise RecursionError g.
Proof. reflexivity. Qed.

(** ** Revealing a non-hazard cell *)

Lemma reveal_count_eq frames g r c n v' :
  game_over g = false ->
  grid_get (visible_board g) r c = Some " " ->
  grid_get (board g) r c = Some (Count n) ->
  grid_set (visible_board g) r c (str (Count n)) = Some v' ->
  reveal (S frames) r c g
  = ((if n =? 0
      then call frames (cascade frames (neighbors (rows g) (cols g) r c))
      else py_ret tt) ;;; call frames check_win) (set_visible_board v' g).
Proof.
  intros Hover Hv Hb Hset. simpl.
  unfold py_bind at 1, gets at 1. rewrite Hover.
  rewrite (bind_Ok _ _ _ _ _ (read_visible_Some _ _ _ _ Hv)). simpl.
  rewrite (bind_Ok _ _ _ _ _ (read_board_Some _ _ _ _ Hb)). simpl.
  rewrite (bind_Ok _ _ _ _ _ (read_board_Some _ _ _ _ Hb)).
  rewrite (bind_Ok _ _ _ _ _ (write_visible_Some _ _ _ _ _ Hset)).
  erewrite bind_Ok by (apply read_board_Some; simpl; exact Hb).
  simpl. destruct (n =? 0); [|done].
  destruct frames as [|frames]; [done|].
  unfold py_bind at 1. unfold py_bind at 1. simpl. done.
Qed.

(** With no frame left for the calls it makes, [reveal] on a hidden cell
    that is not a hazard uncovers the cell and raises. *)
Lemma reveal_count_last g r c n v' :
  game_over g = false ->
  grid_get (visible_board g) r c = Some " " ->
  grid_get (board g) r c = Some (Count n) ->
  grid_set (visible_board g) r c (str (Count n)) = Some v' ->
  reveal 1 r c g = Raise RecursionError (set_visible_board v' g).
Proof.
  intros Hover Hv Hb Hset.
  rewrite (reveal_count_eq 0 g r c n v') by done.
  unfold py_bind. now destruct (n =? 0).
Qed.

Lemma check_win_uncovers g :
  well_shaped g -> returns (check_win g) (fun _ g' => uncovers g g').
Proof.
  intros Hs. rewrite check_win_eq by done. simpl.
  destruct (_ =? _) eqn:Hcount.
  - destruct Hs as [_ Hv]. split; simpl.
    + now repeat split.
    + done.
    + intros r c _. now left.
    + done.
    + now right.
    + done.
    + intros _. right. now apply Z.eqb_eq.
  - now apply uncovers_refl.
Qed.

Lemma write_count_uncovers g r c n :
  well_shaped g -> in_range g r c -> game_over g = false ->
  grid_get (visible_board g) r c = Some " " ->
  grid_get (board g) r c = Some (Count n) ->
  exists v', grid_set (visible_board g) r c (str (Count n)) = Some v' /\
    uncovers g (set_visible_board v' g) /\
    (hidden_total v' + 1 = hidden_total (visible_board g))%nat.
Proof.
  intros Hs Hrc Hover Hv Hb.
  destruct (write_visible_in_range g r c Hs Hrc (str (Count n)))
    as (v' & Hset & _ & [_ Hs'] & Hget & Hother).
  assert (Hh : (hidden_total v' + 1 = hidden_total (visible_board g))%nat).
  { eapply hidden_total_set; eauto using str_not_blank. }
  exists v'. split; [done|]. split; [|done].
  split; simpl.
  - now repeat split.
  - exact Hs'.
  - intros r' c' Hrc'. destruct (decide ((r', c') = (r, c))) as [[= -> ->]|Hne].
    + right. split; [done|]. exists n. now split.
    + left. now apply Hother.
  - lia.
  - now left.
  - congruence.
  - now left.
Qed.

(** A [reveal] on an in-range cell that is not a hazard only uncovers
    cells, whether it returns or runs out of frames, which it can do only
    when it has no more frames than there are hidden cells. *)
Lemma reveal_safe frames : forall g r c,
  well_formed g -> in_range g r c ->
  grid_get (board g) r c <> Some Mine ->
  sat (reveal frames r c g) (fun _ g' => uncovers g g')
    (fun e g' => e = RecursionError /\ uncovers g g' /\
                 (frames <= hidden_total (visible_board g))%nat)
    False.
Proof.
  induction frames as [|frames IH]; intros g r c Hwf Hrc Hsafe.
  { destruct Hwf as [Hs _]. simpl.
    split; [done|]. split; [now apply uncovers_refl|lia]. }
  destruct Hwf as [Hs Hn].
  destruct (game_over g) eqn:Hover.
  { rewrite reveal_game_over by done. now apply uncovers_refl. }
  destruct (visible_in_range g r c Hs Hrc) as [v Hv].
  destruct (String.eqb_spec v " ") as [->|Hnb].
  2:{ erewrite reveal_not_hidden by eauto. now apply uncovers_refl. }
  destruct (board_in_range g r c Hs Hrc) as [[|n] Hb]; [done|].
  destruct (write_count_uncovers g r c n Hs Hrc Hover Hv Hb)
    as (v' & Hset & Hunc & Hh).
  rewrite (reveal_count_eq frames g r c n v') by done.
  set (g1 := set_visible_board v' g) in *.
  assert (Hwf1 : well_formed g1) by (eapply uncovers_well_formed; eauto; now split).
  set (E := fun (e : exn) g' => e = RecursionError /\ uncovers g1 g' /\
              (frames <= hidden_total (visible_board g1))%nat).
  assert (Hlast : forall e g', E e g' ->
            e = RecursionError /\ uncovers g g' /\
            (S frames <= hidden_total (visible_board g))%nat).
  { intros e g' (-> & H1 & Hf). split; [done|].
    split; [eapply uncovers_trans; eauto|]. simpl in Hf. lia. }
  assert (Hfirst : forall g', uncovers g1 g' ->
            frames = 0%nat -> E RecursionError g').
  { intros g' H1 ->. split; [done|]. split; [done|lia]. }
  apply sat_bind.
  assert (Hcas : sat
            ((if n =? 0
              then call frames (cascade frames (neighbors (rows g) (cols g) r c))
              else py_ret tt) g1)
            (fun _ g' => uncovers g1 g') E False).
  { destruct (Z.eqb_spec n 0) as [->|Hn0].
    2:{ apply uncovers_refl, Hwf1. }
    destruct frames as [|frames'] eqn:Hframes.
    { apply Hfirst; [apply uncovers_refl, Hwf1|done]. }
    rewrite call_S, <- Hframes. rewrite <- Hframes in IH.
    assert (Hns : forall p, In p (neighbors (rows g) (cols g) r c) ->
              in_range g p.1 p.2 /\ mine_at (board g) p = false).
    { intros [i j] Hin. split.
      - apply in_neighbors in Hin. apply Hin.
      - specialize (Hn r c 0 Hrc Hb). unfold mines_around in Hn.
        eapply count_zero; [|exact Hin]. lia. }
    unfold cascade, for_each.
    apply (for_fold_inv (fun _ g' => uncovers g1 g')); [|apply uncovers_refl, Hwf1].
    intros [nr nc] [] gk Hin Hk.
    apply list_elem_of_In, Hns in Hin as [Hrck Hmine]. simpl in Hrck.
    assert (Hwfk : well_formed gk) by (eapply uncovers_well_formed; eauto).
    assert (Hlk : same_layout g gk).
    { destruct (unc_layout _ _ Hk) as (?&?&?&?).
      repeat split; simpl in *; congruence. }
    assert (Hrck' : in_range gk nr nc) by now apply (in_range_layout g gk).
    destruct (visible_in_range gk nr nc (proj1 Hwfk) Hrck') as [vk Hvk].
    apply sat_bind. rewrite (read_visible_Some _ _ _ _ Hvk). simpl.
    destruct (vk =? " ")%string; [|exact Hk].
    eapply sat_mono.
    - apply IH; [done|done|].
      destruct Hlk as (_ & _ & _ & ->). unfold mine_at in Hmine. simpl in Hmine.
      intros Heq. now rewrite Heq in Hmine.
    - intros ? g' Hg'. eapply uncovers_trans; eauto.
    - intros e g' (-> & Hg' & Hf). split; [done|].
      split; [eapply uncovers_trans; eauto|].
      pose proof (unc_hidden _ _ Hk) as Hhk. lia.
    - done. }
  eapply sat_mono; [exact Hcas| |exact Hlast|done].
  intros ? g2 H12. simpl.
  assert (Hwf2 : well_formed g2) by (eapply uncovers_well_formed; eauto).
  destruct frames as [|frames'].
  { simpl. apply Hlast, Hfirst; done. }
  rewrite call_S.
  eapply sat_mono; [apply check_win_uncovers, Hwf2| |done|done].
  intros ? g3 H23. simpl.
  simpl in H12, H23.
  eapply uncovers_trans; [exact Hunc|]. eapply uncovers_trans; eauto.
Qed.

(** With more frames than hidden cells the call returns. *)
Lemma reveal_safe_returns frames g r c :
  well_formed g -> in_range g r c ->
  grid_get (board g) r c <> Some Mine ->
  (hidden_total (visible_board g) < frames)%nat ->
  returns (reveal frames r c g) (fun _ g' => uncovers g g').
Proof.
  intros Hwf Hrc Hsafe Hframes.
  eapply sat_mono; [now apply reveal_safe| | |]; cbv beta; try done.
  intros e g' (_ & _ & Hf). lia.
Qed.

(** * The region a cascade uncovers *)

Lemma uncovers_keeps_shown g g' r c :
  uncovers g g' -> in_range g r c ->
  grid_get (visible_board g) r c <> Some " " ->
  grid_get (visible_board g') r c <> Some " ".
Proof.
  intros Hunc Hrc Hshown.
  destruct (unc_cells _ _ Hunc r c Hrc) as [->|[Hv _]]; done.
Qed.

Lemma uncovers_hidden_before g g' r c :
  uncovers g g' -> in_range g r c ->
  grid_get (visible_board g') r c = Some " " ->
  grid_get (visible_board g) r c = Some " ".
Proof.
  intros Hunc Hrc Hhid.
  destruct (unc_cells _ _ Hunc r c Hrc) as [<-|[Hv _]]; done.
Qed.

Lemma uncovers_game_over g g' :
  uncovers g g' -> game_over g' = false -> game_over g = false.
Proof.
  intros Hunc. destruct (unc_flags _ _ Hunc) as [[<- _]|[-> _]]; done.
Qed.

(** A cell changed between [g] and [g''] changed before or after [g']. *)
Lemma changed_split g g' g'' p :
  uncovers g g' -> in_range g p.1 p.2 -> changed g g'' p ->
  changed g g' p \/
  (grid_get (visible_board g') p.1 p.2 = grid_get (visible_board g) p.1 p.2 /\
   changed g' g'' p).
Proof.
  intros Hunc Hp Hch. unfold changed in *.
  destruct (unc_cells _ _ Hunc p.1 p.2 Hp) as [E|(Hv & n & _ & E)].
  - right. split; [done|]. now rewrite E.
  - left. rewrite E, Hv. intros [= Hs]. exact (str_neq_blank n Hs).
Qed.

(** The region of a later cascade, started at a cell of the region, lies
    within the region. *)
Lemma region_mono g gk r c q p :
  uncovers g gk -> in_region g r c q -> in_region gk q.1 q.2 p ->
  in_region g r c p.
Proof.
  intros Hunc Hq Hp. pose proof (unc_layout _ _ Hunc) as (R & C & _ & B).
  induction Hp as [|p q' Hp IH Hzero Hin Hhid].
  - now destruct q.
  - rewrite R, C in Hin. rewrite B in Hzero.
    apply (region_step g r c p q' IH Hzero Hin).
    destruct q' as [i j]. apply in_neighbors in Hin as [Hij _].
    now apply (uncovers_hidden_before g gk).
Qed.

Lemma cascaded_refl g r c :
  well_shaped g ->
  game_over g = true \/ grid_get (visible_board g) r c <> Some " " ->
  cascaded g r c g.
Proof.
  intros Hs Hor. split; [now apply uncovers_refl|]. split.
  - intros p _ Hch. now exfalso.
  - intros Hover. destruct Hor as [Ht|Hshown]; [congruence|].
    split; [|done]. intros p q _ Hch. now exfalso.
Qed.

(** [check_win] leaves the visibility grid alone. *)
Lemma check_win_visible g :
  well_shaped g ->
  exists g', check_win g = Ok tt g' /\ uncovers g g' /\
    visible_board g' = visible_board g /\
    (game_over g' = false -> g' = g).
Proof.
  intros Hs. pose proof (check_win_uncovers g Hs) as Hunc.
  rewrite check_win_eq in * by done.
  destruct (_ =? _); simpl in Hunc; eexists; (split; [reflexivity|]);
    (split; [exact Hunc|]); split; done.
Qed.

Lemma cascaded_cut_short g r c g' : cascaded g r c g' -> cut_short g r c g'.
Proof. intros (H1 & H2 & _). now split. Qed.

(** The cascade: [reveal] at a non-hazard cell uncovers cells of its
    region only and, unless the game ends on the way or the frames run
    out, leaves no hidden cell around an uncovered cell that counts 0. *)
Lemma reveal_region frames : forall g r c,
  well_formed g -> in_range g r c ->
  grid_get (board g) r c <> Some Mine ->
  sat (reveal frames r c g) (fun _ g' => cascaded g r c g')
    (fun e g' => e = RecursionError /\ cut_short g r c g' /\
                 (frames <= hidden_total (visible_board g))%nat)
    False.
Proof.
  induction frames as [|frames IH]; intros g r c Hwf Hrc Hsafe.
  { simpl. split; [done|]. split; [|lia].
    split; [apply uncovers_refl, Hwf|]. intros p _ Hch. now exfalso. }
  pose proof Hwf as [Hs Hn].
  destruct (game_over g) eqn:Hover.
  { rewrite reveal_game_over by done. apply cascaded_refl; auto. }
  destruct (visible_in_range g r c Hs Hrc) as [v Hv].
  destruct (String.eqb_spec v " ") as [->|Hnb].
  2:{ erewrite reveal_not_hidden by eauto. apply cascaded_refl; [done|].
      right. congruence. }
  destruct (board_in_range g r c Hs Hrc) as [[|n] Hb]; [done|].
  destruct (write_count_uncovers g r c n Hs Hrc Hover Hv Hb)
    as (v' & Hset & Hunc & Hh).
  destruct (write_visible_in_range g r c Hs Hrc (str (Count n)))
    as (v'' & Hset' & _ & _ & Hget & Hother).
  assert (v'' = v') as -> by congruence. clear Hset'.
  rewrite (reveal_count_eq frames g r c n v') by done.
  set (g1 := set_visible_board v' g) in *.
  assert (Hwf1 : well_formed g1) by (eapply uncovers_well_formed; eauto).
  assert (Hshown1 : grid_get (visible_board g1) r c <> Some " ").
  { simpl. rewrite Hget. intros [= Hs']. exact (str_neq_blank n Hs'). }
  set (ns := neighbors (rows g) (cols g) r c).
  (* what is known of a state the cascade is in, and of one it raised in *)
  set (part := fun g2 =>
         uncovers g1 g2 /\
         (forall p, in_range g p.1 p.2 -> changed g1 g2 p ->
                    in_region g r c p)).
  set (E := fun (e : exn) g2 =>
         e = RecursionError /\ part g2 /\
         (frames <= hidden_total (visible_board g1))%nat).
  assert (Hpart1 : part g1).
  { split; [apply uncovers_refl, Hwf1|]. intros p _ Hch. now exfalso. }
  assert (Hch1 : forall g2 p, in_range g p.1 p.2 -> changed g g2 p ->
                              p = (r, c) \/ changed g1 g2 p).
  { intros g2 [i j] Hp Hch. destruct (decide ((i, j) = (r, c))) as [|Hne];
      [now left|right].
    intros Heq. apply Hch. unfold changed in Heq |- *. cbn [fst snd] in *.
    rewrite Heq. exact (Hother i j Hp Hne). }
  assert (Hlast : forall e g2, E e g2 ->
            e = RecursionError /\ cut_short g r c g2 /\
            (S frames <= hidden_total (visible_board g))%nat).
  { intros e g2 (-> & (H12 & Hreg) & Hf). split; [done|]. split.
    - split; [eapply uncovers_trans; eauto|].
      intros p Hp Hch. destruct (Hch1 g2 p Hp Hch) as [->|Hch'].
      + apply region_start.
      + now apply Hreg.
    - simpl in Hf. lia. }
  assert (Hfirst : forall g2, part g2 -> frames = 0%nat -> E RecursionError g2).
  { intros g2 H2 ->. split; [done|]. split; [done|lia]. }
  apply sat_bind.
  assert (Hcas : sat
            ((if n =? 0 then call frames (cascade frames ns) else py_ret tt) g1)
            (fun _ g2 =>
               part g2 /\
               (game_over g2 = false ->
                closed g1 g2 /\
                (n = 0 -> forall q, In q ns ->
                   grid_get (visible_board g2) q.1 q.2 <> Some " ")))
            E False).
  { destruct (Z.eqb_spec n 0) as [->|Hn0].
    2:{ simpl. split; [exact Hpart1|].
        intros _. split; [|done]. intros p q _ Hch. now exfalso. }
    destruct (Nat.eq_dec frames 0%nat) as [Hf0|Hf0].
    { rewrite Hf0 at 1. now apply Hfirst. }
    replace (call frames (cascade frames ns)) with (cascade frames ns)
      by now destruct frames.
    assert (Hns : forall p, In p ns ->
              in_range g p.1 p.2 /\ mine_at (board g) p = false).
    { intros [i j] Hin. split.
      - apply in_neighbors in Hin. apply Hin.
      - specialize (Hn r c 0 Hrc Hb). unfold mines_around in Hn.
        eapply count_zero; [|exact Hin]. unfold ns. lia. }
    unfold cascade, for_each.
    eapply sat_mono;
      [apply (for_fold_inv_prefix (fun done _ gk =>
         part gk /\
         (game_over gk = false ->
          closed g1 gk /\
          forall q, In q done ->
            grid_get (visible_board gk) q.1 q.2 <> Some " ")))
      | | intros ? ? H; exact H | intros H; exact H ].
    - (* the body of the loop *)
      intros done [nr nc] rest [] gk Hsplit ((Hk & Hreg) & Hclosed).
      assert (Hin : In (nr, nc) ns).
      { rewrite Hsplit. apply in_or_app. right. now left. }
      destruct (Hns _ Hin) as [Hrck Hmine]. simpl in Hrck.
      assert (Hwfk : well_formed gk) by (eapply uncovers_well_formed; eauto).
      assert (Hgk : uncovers g gk) by (eapply uncovers_trans; eauto).
      pose proof (unc_layout _ _ Hgk) as (Rk & Ck & _ & Bk).
      assert (Hrck' : in_range gk nr nc) by (unfold in_range; now rewrite Rk, Ck).
      destruct (visible_in_range gk nr nc (proj1 Hwfk) Hrck') as [vk Hvk].
      apply sat_bind. rewrite (read_visible_Some _ _ _ _ Hvk). simpl.
      destruct (String.eqb_spec vk " ") as [->|Hvk'].
      + (* the neighbour is hidden: the recursive call *)
        assert (Hnext : forall gk', cut_short gk nr nc gk' -> part gk').
        { intros gk' (Hkk' & Hreg').
          split; [eapply uncovers_trans; eauto|].
          intros p Hp Hch.
          destruct (changed_split g1 gk gk' p Hk Hp Hch) as [Hch2|[_ Hch2]].
          - now apply Hreg.
          - apply (region_mono g gk r c (nr, nc) p Hgk).
            + apply (region_step g r c (r, c) (nr, nc));
                [apply region_start|exact Hb|exact Hin|].
              simpl. now apply (uncovers_hidden_before g gk).
            + apply Hreg'; [|done]. unfold in_range. now rewrite Rk, Ck. }
        eapply sat_mono; [apply (IH gk nr nc)| | |done]; try done.
        * rewrite Bk. unfold mine_at in Hmine. simpl in Hmine.
          intros Heq. now rewrite Heq in Hmine.
        * intros ? gk' Hcasc. pose proof Hcasc as (Hkk' & Hreg' & Hclosed').
          simpl.
          split; [now apply Hnext, cascaded_cut_short|].
          intros Hover'.
          pose proof (uncovers_game_over gk gk' Hkk' Hover') as Hoverk.
          destruct (Hclosed Hoverk) as [Hcl Hdone].
          destruct (Hclosed' Hover') as [Hcl' Hshown'].
          split.
          -- intros p q Hp Hch Hzero Hq.
             assert (Hqr : in_range g q.1 q.2).
             { destruct q as [i j]. apply in_neighbors in Hq. apply Hq. }
             destruct (changed_split g1 gk gk' p Hk Hp Hch)
               as [Hch2|[_ Hch2]].
             ++ apply (uncovers_keeps_shown gk gk' _ _ Hkk').
                { unfold in_range. now rewrite Rk, Ck. }
                now apply (Hcl p q).
             ++ apply (Hcl' p q); try done.
                { unfold in_range. now rewrite Rk, Ck. }
                { now rewrite Bk. }
                { now rewrite Rk, Ck. }
          -- intros q Hq. apply in_app_or in Hq as [Hq|[<-|[]]].
             ++ apply (uncovers_keeps_shown gk gk' _ _ Hkk'); [|now apply Hdone].
                assert (Hq' : In q ns).
                { rewrite Hsplit. apply in_or_app. now left. }
                destruct (Hns q Hq') as [Hqr _].
                unfold in_range. now rewrite Rk, Ck.
             ++ exact Hshown'.
        * intros e gk' (-> & Hcut & Hf). split; [done|].
          split; [now apply Hnext|].
          pose proof (unc_hidden _ _ Hk) as Hhk. lia.
      + (* the neighbour is not hidden: skipped *)
        simpl. split; [now split|].
        intros Hoverk. destruct (Hclosed Hoverk) as [Hcl Hdone].
        split; [exact Hcl|].
        intros q Hq. apply in_app_or in Hq as [Hq|[<-|[]]].
        * now apply Hdone.
        * simpl. congruence.
    - (* the invariant holds when the loop starts *)
      split; [exact Hpart1|].
      intros _. split; [|intros q []]. intros p q _ Hch. now exfalso.
    - (* and gives the result when it ends *)
      simpl. intros ? g2 (H12 & Hclosed).
      split; [done|].
      intros Hover2. destruct (Hclosed Hover2) as [Hcl Hdone].
      split; [exact Hcl|]. intros _. exact Hdone. }
  eapply sat_mono; [exact Hcas| |exact Hlast|done].
  intros ? g2 ((H12 & Hreg) & Hclosed). simpl.
  assert (Hwf2 : well_formed g2) by (eapply uncovers_well_formed; eauto).
  destruct (Nat.eq_dec frames 0%nat) as [Hf0|Hf0].
  { rewrite Hf0 at 1. rewrite call_O. simpl. apply Hlast, Hfirst; done. }
  replace (call frames check_win) with check_win by now destruct frames.
  destruct (check_win_visible g2 (proj1 Hwf2)) as (g3 & Hrun & H23 & Hvis & Hsame).
  rewrite Hrun. simpl.
  assert (H13 : uncovers g1 g3) by (eapply uncovers_trans; eauto).
  assert (Hch3 : forall p, in_range g p.1 p.2 -> changed g g3 p ->
                           p = (r, c) \/ changed g1 g2 p).
  { intros p Hp Hch. destruct (Hch1 g3 p Hp Hch) as [|Hch']; [now left|right].
    unfold changed in *. now rewrite <- Hvis. }
  split; [eapply uncovers_trans; eauto|]. split.
  - intros p Hp Hch. destruct (Hch3 p Hp Hch) as [->|Hch'].
    + apply region_start.
    + now apply Hreg.
  - intros Hover3. assert (g3 = g2) as -> by auto.
    destruct (Hclosed Hover3) as [Hcl Hdone]. split.
    + intros p q Hp Hch Hzero Hq.
      destruct (Hch3 p Hp Hch) as [->|Hch'].
      * simpl in Hzero, Hq. apply Hdone; [congruence|exact Hq].
      * now apply (Hcl p q).
    + now apply (uncovers_keeps_shown g1 g2).
Qed.

(** With more frames than hidden cells the cascade is complete. *)
Lemma reveal_region_returns frames g r c :
  well_formed g -> in_range g r c ->
  grid_get (board g) r c <> Some Mine ->
  (hidden_total (visible_board g) < frames)%nat ->
  returns (reveal frames r c g) (fun _ g' => cascaded g r c g').
Proof.
  intros Hwf Hrc Hsafe Hframes.
  eapply sat_mono; [now apply reveal_region| | |]; cbv beta; try done.
  intros e g' (_ & _ & Hf). lia.
Qed.

(** * Construction *)

Lemma length_range n : length (range n) = Z.to_nat n.
Proof.
  unfold range, range2. rewrite length_map, length_seq. f_equal. lia.
Qed.

Lemma has_dims_init {A} (x : A) nrows ncols :
  has_dims (map (fun _ => map (fun _ => x) (range ncols)) (range nrows))
           nrows ncols.
Proof.
  split.
  - now rewrite length_map, length_range.
  - apply Forall_forall. intros row Hin.
    apply in_map_iff in Hin as (? & <- & _).
    now rewrite length_map, length_range.
Qed.

Lemma init_fields_shaped nrows ncols n :
  well_shaped (init_fields nrows ncols n).
Proof. split; apply has_dims_init. Qed.

Lemma grid_get_init {A} (x : A) nrows ncols r c :
  0 <= r < nrows -> 0 <= c < ncols ->
  grid_get (map (fun _ => map (fun _ => x) (range ncols)) (range nrows)) r c
  = Some x.
Proof.
  intros Hr Hc.
  destruct (grid_get_in_range _ _ _ r c (has_dims_init x nrows ncols) Hr Hc)
    as (row & y & Hrow & Hy & ->).
  apply list_elem_of_lookup_2, (proj1 (list_elem_of_In _ _)), in_map_iff
    in Hrow as (? & <- & _).
  apply list_elem_of_lookup_2, (proj1 (list_elem_of_In _ _)), in_map_iff
    in Hy as (? & <- & _).
  done.
Qed.

Lemma randint_empty a b v g : b < a -> randint a b v g = Raise ValueError g.
Proof.
  intros H. unfold randint. destruct (Z.ltb_spec b a); [done|lia].
Qed.

Lemma randint_in a b v g :
  a <= b -> exists x, a <= x <= b /\ randint a b v g = Ok x g.
Proof.
  intros H. unfold randint. destruct (Z.ltb_spec b a); [lia|].
  exists (a + v mod (b - a + 1)). split; [|done].
  pose proof (Z.mod_pos_bound v (b - a + 1)). lia.
Qed.

Lemma reboarded_refl g : well_shaped g -> reboarded g g.
Proof. intros [Hb _]. repeat split; apply Hb. Qed.

Lemma reboarded_trans g1 g2 g3 :
  reboarded g1 g2 -> reboarded g2 g3 -> reboarded g1 g3.
Proof.
  intros (R1 & C1 & N1 & V1 & O1 & W1 & D1) (R2 & C2 & N2 & V2 & O2 & W2 & D2).
  unfold reboarded. rewrite R1, C1 in D2.
  repeat split; try congruence; apply D2.
Qed.

Lemma reboarded_shaped g g' :
  well_shaped g -> reboarded g g' -> well_shaped g'.
Proof.
  intros [Hb Hv] (R & C & N & V & O & W & D). split; rewrite R, C; [done|].
  now rewrite V.
Qed.

(** Writing a cell of the board at in-range coordinates. *)
Lemma write_board_in_range g r c x :
  well_shaped g -> in_range g r c ->
  exists b', grid_set (board g) r c x = Some b' /\
    write_board r c x g = Ok tt (set_board b' g) /\
    reboarded g (set_board b' g) /\
    grid_get b' r c = Some x /\
    forall r' c', in_range g r' c' -> (r', c') <> (r, c) ->
                  grid_get b' r' c' = grid_get (board g) r' c'.
Proof.
  intros [Hb Hv] [Hr Hc].
  destruct (grid_set_in_range _ _ _ r c x Hb Hr Hc)
    as (b' & Hset & Hd' & Hget & Hother).
  exists b'. split; [done|]. split; [now apply write_board_Some|].
  split; [repeat split; apply Hd'|]. split; [done|].
  intros r' c' [Hr' Hc'] Hne. now apply Hother.
Qed.

Lemma mine_total_set (b b' : list (list cell)) nr nc r c x y :
  has_dims b nr nc -> 0 <= r < nr -> 0 <= c < nc ->
  grid_get b r c = Some y -> grid_set b r c x = Some b' ->
  (mine_total b' + (if is_mine y then 1 else 0)
   = mine_total b + (if is_mine x then 1 else 0))%nat.
Proof.
  intros Hd Hr Hc Hget Hset.
  destruct (grid_get_in_range b nr nc r c) as (row & y' & Hrow & Hy & Hget');
    auto.
  assert (y' = y) as -> by congruence.
  destruct Hd as [Hlen Hrows].
  assert (Hl : length row = Z.to_nat nc).
  { eapply Forall_lookup_1 in Hrows; eauto. }
  revert Hset. unfold grid_set.
  rewrite getitem_in_range by lia. rewrite Hrow. simpl.
  rewrite setitem_in_range by lia. simpl.
  rewrite setitem_in_range by lia. intros [= <-].
  unfold mine_total.
  pose proof (count_concat_insert is_mine b (Z.to_nat r) row
                (<[Z.to_nat c:=x]> row) Hrow) as H1.
  pose proof (count_insert is_mine row (Z.to_nat c) x y Hy) as H2.
  lia.
Qed.

Lemma length_concat_dims {A} (gr : list (list A)) nr nc :
  has_dims gr nr nc -> length (concat gr) = (Z.to_nat nr * Z.to_nat nc)%nat.
Proof.
  intros [Hlen Hrows]. rewrite <- Hlen. clear Hlen.
  induction Hrows as [|row gr Hrow _ IH]; simpl; [done|].
  rewrite length_app, IH, Hrow. lia.
Qed.

Lemma mine_total_le b nr nc :
  has_dims b nr nc -> 0 <= nr -> 0 <= nc -> Z.of_nat (mine_total b) <= nr * nc.
Proof.
  intros Hd Hr Hc. unfold mine_total.
  pose proof (count_le_length is_mine (concat b)) as H.
  rewrite (length_concat_dims b nr nc Hd) in H. nia.
Qed.

(** ** [_place_mines] *)

(** The sampling loop, as far as its draws take it: when it returns, the
    board holds [num_mines] hazards (or the [mines_placed] it started from,
    if that is more); it raises only on an empty range of [randint]. *)
Lemma place_loop_sat draws : forall k g,
  well_shaped g -> Z.of_nat (mine_total (board g)) = k ->
  sat (place_loop draws k g)
      (fun _ g' => reboarded g g' /\
                   Z.of_nat (mine_total (board g')) = Z.max k (num_mines g))
      (fun e _ => e = ValueError /\ (rows g <= 0 \/ cols g <= 0))
      True.
Proof.
  induction draws as [|[v1 v2] draws IH]; intros k g Hs Hk.
  - simpl. unfold py_bind, gets. destruct (Z.ltb_spec k (num_mines g)); simpl; [done|].
    split; [now apply reboarded_refl|lia].
  - simpl. unfold py_bind at 1, gets at 1.
    destruct (Z.ltb_spec k (num_mines g)) as [Hlt|Hge]; simpl.
    2:{ split; [now apply reboarded_refl|lia]. }
    unfold py_bind at 1, gets at 1.
    destruct (Z_lt_le_dec (rows g - 1) 0) as [Hr0|Hr0].
    { rewrite (bind_Raise _ _ _ _ _ (randint_empty _ _ _ _ Hr0)). simpl.
      split; [done|lia]. }
    destruct (randint_in 0 (rows g - 1) v1 g Hr0) as (r & Hr & Hrand).
    rewrite (bind_Ok _ _ _ _ _ Hrand). clear Hrand.
    unfold py_bind at 1, gets at 1.
    destruct (Z_lt_le_dec (cols g - 1) 0) as [Hc0|Hc0].
    { rewrite (bind_Raise _ _ _ _ _ (randint_empty _ _ _ _ Hc0)). simpl.
      split; [done|lia]. }
    destruct (randint_in 0 (cols g - 1) v2 g Hc0) as (c & Hc & Hrand).
    rewrite (bind_Ok _ _ _ _ _ Hrand). clear Hrand.
    assert (Hrc : in_range g r c) by (unfold in_range; lia).
    destruct (board_in_range g r c Hs Hrc) as [b Hb].
    rewrite (bind_Ok _ _ _ _ _ (read_board_Some _ _ _ _ Hb)).
    destruct (cell_eqb b Mine) eqn:Hmine; simpl.
    + eapply sat_mono; [apply IH; done| |done|done].
      simpl. intros ? g' [Hre Hcount]. split; [done|lia].
    + destruct (write_board_in_range g r c Mine Hs Hrc)
        as (b' & Hset & Hw & Hre & _).
      rewrite (bind_Ok _ _ _ _ _ Hw).
      assert (Hs' : well_shaped (set_board b' g))
        by (eapply reboarded_shaped; eauto).
      assert (Hk' : Z.of_nat (mine_total (board (set_board b' g))) = k + 1).
      { simpl. destruct Hs as [Hbd _], Hrc as [Hr' Hc'].
        pose proof (mine_total_set _ _ _ _ r c Mine b Hbd Hr' Hc' Hb Hset) as H.
        unfold is_mine at 1 in H. rewrite Hmine in H. simpl in H. lia. }
      eapply sat_mono; [apply IH; done| |done|done].
      simpl. intros ? g' [Hre' Hcount].
      split; [eapply reboarded_trans; [exact Hre|exact Hre']|simpl in Hcount; lia].
Qed.

(** ** [_calculate_numbers] *)

Lemma fold_count_mines (b : list (list cell)) ns (a : Z) :
  fold_left (fun a p => if mine_at b p then a + 1 else a) ns a
  = a + Z.of_nat (count (mine_at b) ns).
Proof.
  revert a. induction ns as [|p ns IH]; intros a; simpl; [lia|].
  rewrite IH. destruct (mine_at b p); lia.
Qed.

(** The inner counting loop. *)
Lemma count_loop_eq g ns :
  well_shaped g -> (forall p, In p ns -> in_range g p.1 p.2) ->
  for_fold ns (fun '(nr, nc) count =>
      let* b' := read_board nr nc in
      py_ret (if cell_eqb b' Mine then count + 1 else count)) 0 g
  = Ok (Z.of_nat (count (mine_at (board g)) ns)) g.
Proof.
  intros Hs Hns.
  erewrite (for_fold_pure
              (fun p a => if mine_at (board g) p then a + 1 else a)).
  - now rewrite fold_count_mines.
  - intros [nr nc] a Hin. apply list_elem_of_In, Hns in Hin. simpl in Hin.
    destruct (board_in_range g nr nc Hs Hin) as [b Hb].
    rewrite (bind_Ok _ _ _ _ _ (read_board_Some _ _ _ _ Hb)).
    unfold mine_at. simpl. rewrite Hb. now destruct b.
Qed.

Lemma count_ext_in {A} (p q : A -> bool) l :
  (forall x, In x l -> p x = q x) -> count p l = count q l.
Proof.
  induction l as [|x l IH]; intros H; simpl; [done|].
  rewrite (H x) by now left. rewrite IH; [done|].
  intros y Hy. apply H. now right.
Qed.

Lemma numbered_cell_mine g r c :
  is_mine (numbered_cell g r c) = mine_at (board g) (r, c).
Proof. unfold numbered_cell. now destruct (mine_at (board g) (r, c)). Qed.

(** While the numbers are being written the hazards stay where they are. *)
Lemma calculated_mine_at g0 g i j p :
  calculated_upto g0 g i j -> in_range g0 p.1 p.2 ->
  mine_at (board g) p = mine_at (board g0) p.
Proof.
  intros [_ Hcells] Hp. destruct p as [r c]. simpl in Hp.
  unfold mine_at at 1. simpl. rewrite (Hcells r c Hp).
  destruct (visited_before i j r c); [|done].
  pose proof (numbered_cell_mine g0 r c) as H.
  destruct (numbered_cell g0 r c); simpl in H; now rewrite <- H.
Qed.

Lemma calculated_mines_around g0 g i j r c :
  calculated_upto g0 g i j -> mines_around g r c = mines_around g0 r c.
Proof.
  intros Hc. pose proof Hc as [(R & C & _) _]. unfold mines_around.
  rewrite R, C. f_equal. apply count_ext_in. intros [nr nc] Hin.
  eapply calculated_mine_at; [exact Hc|]. apply in_neighbors in Hin.
  apply Hin.
Qed.

(** One turn of the inner loop of [_calculate_numbers]. *)
Lemma calculate_cell g0 g i j :
  well_shaped g0 -> calculated_upto g0 g i j -> in_range g0 i j ->
  returns
    ((let* b := read_board i j in
      if cell_eqb b Mine then py_ret tt
      else
        let* ns := _get_neighbors i j in
        let* count :=
          for_fold ns (fun '(nr, nc) count =>
            let* b' := read_board nr nc in
            py_ret (if cell_eqb b' Mine then count + 1 else count)) 0 in
        write_board i j (Count count)) g)
    (fun _ g' => calculated_upto g0 g' i (j + 1)).
Proof.
  intros Hs0 Hc Hij. pose proof Hc as [Hre Hcells].
  assert (Hs : well_shaped g) by (eapply reboarded_shaped; eauto).
  pose proof Hre as (R & C & _).
  assert (Hij' : in_range g i j) by (unfold in_range; now rewrite R, C).
  destruct (board_in_range g i j Hs Hij') as [b Hb].
  assert (Hb0 : grid_get (board g0) i j = Some b).
  { rewrite <- Hb, (Hcells i j Hij). unfold visited_before.
    rewrite Z.ltb_irrefl, Z.eqb_refl, Z.ltb_irrefl. done. }
  assert (Hnext : forall r c, (r, c) <> (i, j) ->
            visited_before i (j + 1) r c = visited_before i j r c).
  { intros r c Hne. unfold visited_before.
    destruct (Z.eqb_spec r i) as [->|]; [|done].
    destruct (Z.ltb_spec c (j + 1)), (Z.ltb_spec c j); try done; try lia.
    exfalso. apply Hne. f_equal. lia. }
  assert (Hhere : visited_before i (j + 1) i j = true).
  { unfold visited_before. rewrite Z.eqb_refl.
    destruct (Z.ltb_spec j (j + 1)); [|lia]. apply orb_true_r. }
  rewrite (bind_Ok _ _ _ _ _ (read_board_Some _ _ _ _ Hb)).
  destruct b as [|n]; simpl.
  - split; [done|]. intros r c Hrc.
    destruct (decide ((r, c) = (i, j))) as [[= -> ->]|Hne].
    + rewrite Hhere, Hb. unfold numbered_cell, mine_at. simpl. now rewrite Hb0.
    + rewrite (Hnext r c Hne). now apply Hcells.
  - unfold _get_neighbors. unfold py_bind at 1, gets at 1.
    unfold py_bind at 1, gets at 1. unfold py_bind at 1, py_ret at 1.
    erewrite bind_Ok.
    2:{ apply count_loop_eq; [done|]. intros [nr nc] Hin.
        apply in_neighbors in Hin. apply Hin. }
    destruct (write_board_in_range g i j
                (Count (Z.of_nat (count (mine_at (board g))
                                    (neighbors (rows g) (cols g) i j))))
                Hs Hij') as (b' & Hset & Hw & Hre' & Hget & Hother).
    rewrite Hw. simpl. split; [eapply reboarded_trans; eauto|].
    intros r c Hrc. simpl.
    destruct (decide ((r, c) = (i, j))) as [[= -> ->]|Hne].
    + rewrite Hhere, Hget. f_equal. unfold numbered_cell, mine_at. simpl.
      rewrite Hb0. f_equal. apply (calculated_mines_around g0 g i j i j Hc).
    + rewrite (Hnext r c Hne), <- (Hcells r c Hrc). apply Hother; [|done].
      unfold in_range. now rewrite R, C.
Qed.

Lemma calculate_numbers_sat g0 :
  well_shaped g0 ->
  returns (_calculate_numbers g0)
    (fun _ g => reboarded g0 g /\
       forall r c, in_range g0 r c ->
                   grid_get (board g) r c = Some (numbered_cell g0 r c)).
Proof.
  intros Hs0. unfold _calculate_numbers. unfold py_bind at 1, gets at 1.
  unfold for_each. eapply sat_mono.
  - apply (for_range_inv (fun i _ g => calculated_upto g0 g i 0)).
    + intros i [] g Hi Hc. unfold py_bind at 1, gets at 1.
      pose proof Hc as [(R & C & _) _]. rewrite C.
      eapply sat_mono.
      * apply (for_range_inv (fun j _ g => calculated_upto g0 g i j)).
        -- intros j [] g' Hj Hc'. apply calculate_cell; [done|done|].
           unfold in_range. lia.
        -- exact Hc.
      * simpl. intros ? g' [Hre Hcells]. split; [done|].
        intros r c Hrc. rewrite (Hcells r c Hrc). unfold visited_before.
        destruct Hrc as [Hr Hcc].
        destruct (Z.ltb_spec r i), (Z.ltb_spec r (i + 1)), (Z.eqb_spec r i),
          (Z.eqb_spec r (i + 1)),
          (Z.ltb_spec c (Z.max 0 (cols g0))), (Z.ltb_spec c 0);
          simpl; try done; lia.
      * done.
      * done.
    + split; [now apply reboarded_refl|]. intros r c Hrc.
      unfold visited_before.
      destruct (Z.ltb_spec r 0), (Z.eqb_spec r 0), (Z.ltb_spec c 0); simpl;
        try done; destruct Hrc; lia.
  - simpl. intros ? g [Hre Hcells]. split; [done|].
    intros r c Hrc. rewrite (Hcells r c Hrc). unfold visited_before.
    destruct Hrc as [Hr Hcc].
    destruct (Z.ltb_spec r (Z.max 0 (rows g0))); [done|lia].
  - done.
  - done.
Qed.

(** ** The neighbours, offset by offset *)

Lemma range2_three a : range2 (a - 1) (a + 2) = [a + -1; a + 0; a + 1].
Proof.
  unfold range2. replace (a + 2 - (a - 1)) with 3 by lia. simpl.
  f_equal; [lia|]. f_equal; [lia|]. f_equal. lia.
Qed.

Lemma neighbors_offsets nrows ncols r c :
  neighbors nrows ncols r c
  = flat_map (fun d =>
      if (0 <=? r + d.1) && (r + d.1 <? nrows) &&
         ((0 <=? c + d.2) && (c + d.2 <? ncols))
      then [(r + d.1, c + d.2)] else []) offsets8.
Proof.
  unfold neighbors. rewrite !range2_three. unfold offsets8. simpl.
  repeat match goal with
  | |- context [?a =? ?b] =>
      destruct (Z.eqb_spec a b); try lia
  end.
  simpl. rewrite !andb_true_r, !andb_false_r, !app_nil_r. simpl.
  repeat match goal with
  | |- context [if ?b then _ else _] => destruct b
  end; reflexivity.
Qed.

Lemma count_flat_map_if {A B} (p : B -> bool) (t : A -> bool) (f : A -> B) l :
  count p (flat_map (fun d => if t d then [f d] else []) l)
  = count (fun d => t d && p (f d)) l.
Proof.
  induction l as [|d l IH]; simpl; [done|].
  rewrite count_app, IH. destruct (t d); simpl; lia.
Qed.

(** The count [_calculate_numbers] stores is the count over the eight
    offsets. *)
Lemma mines_around_adjacent g r c :
  mines_around g r c = adjacent_hazards g r c.
Proof.
  unfold mines_around, adjacent_hazards. f_equal.
  rewrite neighbors_offsets.
  rewrite (count_flat_map_if (mine_at (board g))
             (fun d => (0 <=? r + d.1) && (r + d.1 <? rows g) &&
                       ((0 <=? c + d.2) && (c + d.2 <? cols g)))
             (fun d => (r + d.1, c + d.2))).
  apply count_ext_in. intros d _. reflexivity.
Qed.

Lemma adjacent_hazards_bounds g r c : 0 <= adjacent_hazards g r c <= 8.
Proof.
  unfold adjacent_hazards.
  pose proof (count_le_length
    (fun d => hazard_at (board g) (rows g) (cols g) (r + d.1) (c + d.2))
    offsets8) as H.
  change (length offsets8) with 8%nat in H. lia.
Qed.

(** ** The constructed engine *)

Lemma mine_total_init nrows ncols n :
  Z.of_nat (mine_total (board (init_fields nrows ncols n))) = 0.
Proof.
  unfold mine_total. simpl.
  assert (Hrow : forall l : list Z,
            count is_mine (map (fun _ => Count 0) l) = 0%nat).
  { intros l. now induction l. }
  induction (range nrows) as [|x l IH]; simpl; [done|].
  rewrite count_app, Hrow. exact IH.
Qed.

Lemma construct_sat nrows ncols n draws g :
  construct nrows ncols n draws = Ok tt g ->
  (rows g = nrows /\ cols g = ncols /\ num_mines g = n) /\
  (game_over g = false /\ win g = false) /\
  visible_board g = visible_board (init_fields nrows ncols n) /\
  well_formed g /\
  (exists g1, Z.of_nat (mine_total (board g1)) = Z.max 0 n /\
     has_dims (board g1) nrows ncols /\
     forall r c, in_range g r c ->
       grid_get (board g) r c
       = Some (if mine_at (board g1) (r, c) then Mine
               else Count (adjacent_hazards g r c))).
Proof.
  unfold construct, _place_mines. intros Hrun.
  set (g0 := init_fields nrows ncols n) in *.
  assert (Hs0 : well_shaped g0) by apply init_fields_shaped.
  assert (Hk0 : Z.of_nat (mine_total (board g0)) = 0).
  { apply mine_total_init. }
  pose proof (place_loop_sat draws 0 g0 Hs0 Hk0) as Hplace.
  unfold py_bind in Hrun.
  destruct (place_loop draws 0 g0) as [[] g1|e g1|]; try done.
  simpl in Hplace. destruct Hplace as [Hre1 Hcount1].
  assert (Hs1 : well_shaped g1) by (eapply reboarded_shaped; eauto).
  pose proof (calculate_numbers_sat g1 Hs1) as Hcalc.
  rewrite Hrun in Hcalc. simpl in Hcalc. destruct Hcalc as [Hre2 Hcells].
  pose proof (reboarded_trans _ _ _ Hre1 Hre2) as (R & C & N & V & O & W & D).
  pose proof Hre2 as (R2 & C2 & _).
  assert (Hin : forall r c, in_range g r c -> in_range g1 r c).
  { intros r c. unfold in_range. now rewrite R2, C2. }
  assert (Hup : calculated_upto g1 g (rows g1) 0).
  { split; [done|]. intros r c Hrc. rewrite (Hcells r c Hrc).
    unfold visited_before. destruct Hrc as [Hr _].
    destruct (Z.ltb_spec r (rows g1)); [done|lia]. }
  split; [done|]. split; [done|]. split; [done|]. split.
  - split; [eapply reboarded_shaped; eauto|].
    intros r c m Hrc Hget. rewrite (Hcells r c (Hin r c Hrc)) in Hget.
    unfold numbered_cell in Hget.
    destruct (mine_at (board g1) (r, c)); [done|].
    injection Hget as <-. symmetry.
    eapply calculated_mines_around; eauto.
  - exists g1. split; [done|]. split; [apply Hre1|].
    intros r c Hrc. rewrite (Hcells r c (Hin r c Hrc)). unfold numbered_cell.
    rewrite <- mines_around_adjacent.
    now rewrite (calculated_mines_around g1 g _ _ r c Hup).
Qed.

(** ** Saturated and starved sampling *)

Lemma grid_get_in_concat {A} (gr : list (list A)) r c x :
  grid_get gr r c = Some x -> In x (concat gr).
Proof.
  unfold grid_get. destruct (getitem gr r) as [row|] eqn:Hrow; [simpl|done].
  intros Hx. apply getitem_elem in Hrow, Hx. apply in_concat. eauto.
Qed.

Lemma count_full {A} (p : A -> bool) l x :
  count p l = length l -> In x l -> p x = true.
Proof.
  induction l as [|y l IH]; simpl; [done|].
  pose proof (count_le_length p l) as Hle.
  intros Hc [->|Hin].
  - destruct (p x); [done|lia].
  - apply IH; [|done]. destruct (p y); lia.
Qed.

Lemma count_short {A} (p : A -> bool) (l : list A) :
  (count p l < length l)%nat -> exists j x, l !! j = Some x /\ p x = false.
Proof.
  induction l as [|y l IH]; simpl; [lia|]. intros Hc.
  destruct (p y) eqn:Hy.
  - destruct IH as (j & x & Hj & Hx); [lia|]. now exists (S j), x.
  - now exists 0%nat, y.
Qed.

(** A grid with fewer marked cells than cells has an unmarked cell. *)
Lemma grid_count_short {A} (p : A -> bool) (gr : list (list A)) nr nc :
  has_dims gr nr nc -> 0 <= nr -> 0 <= nc ->
  Z.of_nat (count p (concat gr)) < nr * nc ->
  exists r c x, (0 <= r < nr /\ 0 <= c < nc) /\
                grid_get gr r c = Some x /\ p x = false.
Proof.
  intros Hd Hnr Hnc Hc.
  assert (Hnat : exists i j row x, gr !! i = Some row /\ row !! j = Some x /\
                                   p x = false).
  { destruct Hd as [Hlen Hrows].
    assert (Hlt : (count p (concat gr) < length gr * Z.to_nat nc)%nat).
    { rewrite Hlen.
      assert (Z.of_nat (Z.to_nat nr * Z.to_nat nc) = nr * nc)
        by (rewrite Nat2Z.inj_mul; lia).
      lia. }
    clear Hc Hlen. induction Hrows as [|row gr Hrow _ IH]; simpl in *; [lia|].
    rewrite count_app in Hlt.
    destruct (Nat.lt_ge_cases (count p row) (length row)) as [Hr|Hr].
    - destruct (count_short p row Hr) as (j & x & Hj & Hx).
      now exists 0%nat, j, row, x.
    - destruct IH as (i & j & row' & x & Hi & Hj & Hx); [lia|].
      now exists (S i), j, row', x. }
  destruct Hnat as (i & j & row & x & Hi & Hj & Hx).
  pose proof Hd as [Hlen Hrows].
  assert (Hl : length row = Z.to_nat nc).
  { eapply Forall_lookup_1 in Hrows; eauto. }
  apply lookup_lt_Some in Hi as Hi', Hj as Hj'.
  exists (Z.of_nat i), (Z.of_nat j), x. split; [lia|]. split; [|done].
  rewrite (grid_get_lookup gr nr nc) by (auto; lia).
  rewrite !Nat2Z.id, Hi. simpl. done.
Qed.

(** One turn of the sampling loop on a board with room left. *)
Lemma place_loop_step v1 v2 draws k g :
  well_shaped g -> 0 < rows g -> 0 < cols g ->
  Z.of_nat (mine_total (board g)) = k -> k < num_mines g ->
  exists g' k',
    place_loop ((v1, v2) :: draws) k g = place_loop draws k' g' /\
    reboarded g g' /\ Z.of_nat (mine_total (board g')) = k' /\
    mine_at (board g') (v1 mod rows g, v2 mod cols g) = true /\
    forall r c, in_range g r c -> mine_at (board g') (r, c) = false ->
                mine_at (board g) (r, c) = false.
Proof.
  intros Hs Hrows Hcols Hk Hlt.
  set (r := v1 mod rows g). set (c := v2 mod cols g).
  assert (Hrc : in_range g r c).
  { unfold in_range, r, c. split; apply Z.mod_pos_bound; lia. }
  assert (Hr : randint 0 (rows g - 1) v1 g = Ok r g).
  { unfold randint. destruct (Z.ltb_spec (rows g - 1) 0); [lia|].
    unfold py_ret, r.
    now replace (rows g - 1 - 0 + 1) with (rows g) by lia. }
  assert (Hc : randint 0 (cols g - 1) v2 g = Ok c g).
  { unfold randint. destruct (Z.ltb_spec (cols g - 1) 0); [lia|].
    unfold py_ret, c.
    now replace (cols g - 1 - 0 + 1) with (cols g) by lia. }
  destruct (board_in_range g r c Hs Hrc) as [b Hb].
  assert (Hunfold : place_loop ((v1, v2) :: draws) k g
    = (if negb (cell_eqb b Mine)
       then write_board r c Mine ;;; place_loop draws (k + 1)
       else place_loop draws k) g).
  { simpl. unfold py_bind at 1, gets at 1.
    destruct (Z.ltb_spec k (num_mines g)); [|lia].
    unfold py_bind at 1, gets at 1. rewrite (bind_Ok _ _ _ _ _ Hr).
    unfold py_bind at 1, gets at 1. rewrite (bind_Ok _ _ _ _ _ Hc).
    now rewrite (bind_Ok _ _ _ _ _ (read_board_Some _ _ _ _ Hb)). }
  rewrite Hunfold. destruct b as [|m]; simpl.
  - exists g, k. split; [done|]. split; [now apply reboarded_refl|].
    split; [done|]. split; [|done]. unfold mine_at. simpl. now rewrite Hb.
  - destruct (write_board_in_range g r c Mine Hs Hrc)
      as (b' & Hset & Hw & Hre & Hget & Hother).
    exists (set_board b' g), (k + 1).
    split; [now rewrite (bind_Ok _ _ _ _ _ Hw)|]. split; [done|]. split.
    { simpl. destruct Hs as [Hbd _], Hrc as [Hr' Hc'].
      pose proof (mine_total_set _ _ _ _ r c Mine (Count m) Hbd Hr' Hc' Hb Hset)
        as H. simpl in H. lia. }
    split; [unfold mine_at; simpl; now rewrite Hget|].
    intros r' c' Hrc' Hfree. simpl in Hfree.
    destruct (decide ((r', c') = (r, c))) as [[= -> ->]|Hne].
    + unfold mine_at. simpl. now rewrite Hb.
    + unfold mine_at in *. simpl in *. now rewrite <- (Hother r' c' Hrc' Hne).
Qed.

(** If the loop runs out of draws, some cell was never drawn. *)
Lemma place_loop_starved draws : forall k g,
  well_shaped g -> 0 < rows g -> 0 < cols g ->
  Z.of_nat (mine_total (board g)) = k -> num_mines g <= rows g * cols g ->
  place_loop draws k g = Unfinished ->
  exists r c, in_range g r c /\ mine_at (board g) (r, c) = false /\
    forall d, In d draws -> (d.1 mod rows g, d.2 mod cols g) <> (r, c).
Proof.
  induction draws as [|[v1 v2] draws IH]; intros k g Hs Hrows Hcols Hk Hn Hrun.
  - simpl in Hrun. unfold py_bind, gets in Hrun.
    destruct (Z.ltb_spec k (num_mines g)) as [Hlt|]; [|done].
    destruct Hs as [Hb _].
    destruct (grid_count_short is_mine (board g) (rows g) (cols g) Hb)
      as (r & c & x & Hrc & Hget & Hx);
      [lia|lia|unfold mine_total in Hk; lia|].
    exists r, c. split; [done|]. split; [|intros d []].
    unfold mine_at. simpl. rewrite Hget. now destruct x.
  - destruct (Z.ltb_spec k (num_mines g)) as [Hlt|Hge].
    2:{ simpl in Hrun. unfold py_bind at 1, gets at 1 in Hrun.
        destruct (Z.ltb_spec k (num_mines g)); [lia|done]. }
    destruct (place_loop_step v1 v2 draws k g Hs Hrows Hcols Hk Hlt)
      as (g' & k' & Heq & Hre & Hk' & Hpicked & Hmono).
    rewrite Heq in Hrun. pose proof Hre as (R & C & N & _).
    destruct (IH k' g') as (r & c & Hrc & Hfree & Hrest);
      [eapply reboarded_shaped; eauto|lia|lia|done|rewrite R, C, N; lia|done|].
    assert (Hrc0 : in_range g r c) by (unfold in_range; now rewrite <- R, <- C).
    exists r, c. split; [done|]. split; [now apply Hmono|].
    intros d [<-|Hin]; simpl.
    + intros Heq'. rewrite Heq' in Hpicked. congruence.
    + rewrite <- R, <- C. now apply Hrest.
Qed.

(** * Counting cells of two grids *)

Section Counting.
Context {A B : Type} (p : A -> bool) (q : B -> bool).

Lemma count_le_Forall2 (l1 : list A) (l2 : list B) :
  Forall2 (fun x y => p x = true -> q y = true) l1 l2 ->
  (count p l1 <= count q l2)%nat.
Proof.
  induction 1 as [|x y l1 l2 Hxy _ IH]; simpl; [done|].
  destruct (p x); [rewrite Hxy by done|destruct (q y)]; lia.
Qed.

(** If every marked cell of the first list faces a marked cell of the
    second and the marks are as many, the marks face each other. *)
Lemma count_eq_Forall2 (l1 : list A) (l2 : list B) :
  Forall2 (fun x y => p x = true -> q y = true) l1 l2 ->
  count p l1 = count q l2 ->
  Forall2 (fun x y => q y = true -> p x = true) l1 l2.
Proof.
  induction 1 as [|x y l1 l2 Hxy Hrest IH]; simpl; intros Hc; [constructor|].
  pose proof (count_le_Forall2 l1 l2 Hrest) as Hle.
  destruct (p x) eqn:Hp.
  - rewrite Hxy in Hc by done. constructor; [congruence|]. apply IH. lia.
  - destruct (q y) eqn:Hq; [lia|]. constructor; [congruence|]. apply IH. lia.
Qed.

Lemma grid_count_le (gr1 : list (list A)) (gr2 : list (list B)) :
  Forall2 (Forall2 (fun x y => p x = true -> q y = true)) gr1 gr2 ->
  (count p (concat gr1) <= count q (concat gr2))%nat.
Proof.
  induction 1 as [|r1 r2 gr1 gr2 Hrow _ IH]; simpl; [done|].
  rewrite !count_app. pose proof (count_le_Forall2 r1 r2 Hrow). lia.
Qed.

Lemma grid_count_eq (gr1 : list (list A)) (gr2 : list (list B)) :
  Forall2 (Forall2 (fun x y => p x = true -> q y = true)) gr1 gr2 ->
  count p (concat gr1) = count q (concat gr2) ->
  Forall2 (Forall2 (fun x y => q y = true -> p x = true)) gr1 gr2.
Proof.
  induction 1 as [|r1 r2 gr1 gr2 Hrow Hrest IH]; simpl; intros Hc;
    [constructor|].
  rewrite !count_app in Hc.
  pose proof (count_le_Forall2 r1 r2 Hrow) as Hle1.
  pose proof (grid_count_le gr1 gr2 Hrest) as Hle2.
  constructor; [apply count_eq_Forall2; [done|lia]|apply IH; lia].
Qed.
End Counting.

Section GridRelation.
Context {A B : Type} (R : A -> B -> Prop).

(** Two grids of the same dimensions are related cell by cell when they
    are related at every pair of in-range coordinates. *)
Lemma grid_Forall2_intro (gr1 : list (list A)) (gr2 : list (list B)) nr nc :
  has_dims gr1 nr nc -> has_dims gr2 nr nc ->
  (forall r c x y, 0 <= r < nr -> 0 <= c < nc ->
     grid_get gr1 r c = Some x -> grid_get gr2 r c = Some y -> R x y) ->
  Forall2 (Forall2 R) gr1 gr2.
Proof.
  intros Hd1 Hd2 Hcells. pose proof Hd1 as [Hl1 Hr1]. pose proof Hd2 as [Hl2 Hr2].
  apply Forall2_same_length_lookup_2; [congruence|].
  intros i r1 r2 Hi1 Hi2.
  assert (Hlr1 : length r1 = Z.to_nat nc) by (eapply Forall_lookup_1 in Hr1; eauto).
  assert (Hlr2 : length r2 = Z.to_nat nc) by (eapply Forall_lookup_1 in Hr2; eauto).
  apply Forall2_same_length_lookup_2; [congruence|].
  intros j x y Hj1 Hj2.
  apply lookup_lt_Some in Hi1 as Hi, Hj1 as Hj.
  apply (Hcells (Z.of_nat i) (Z.of_nat j)); [lia|lia| |].
  - rewrite (grid_get_lookup gr1 nr nc) by (auto; lia).
    rewrite !Nat2Z.id, Hi1. simpl. done.
  - rewrite (grid_get_lookup gr2 nr nc) by (auto; lia).
    rewrite !Nat2Z.id, Hi2. simpl. done.
Qed.

Lemma grid_Forall2_elim (gr1 : list (list A)) (gr2 : list (list B)) nr nc
    r c x y :
  Forall2 (Forall2 R) gr1 gr2 ->
  has_dims gr1 nr nc -> has_dims gr2 nr nc ->
  0 <= r < nr -> 0 <= c < nc ->
  grid_get gr1 r c = Some x -> grid_get gr2 r c = Some y -> R x y.
Proof.
  intros Hall Hd1 Hd2 Hr Hc.
  rewrite (grid_get_lookup gr1 nr nc), (grid_get_lookup gr2 nr nc) by auto.
  destruct (gr1 !! Z.to_nat r) as [r1|] eqn:H1; [simpl|done].
  destruct (gr2 !! Z.to_nat r) as [r2|] eqn:H2; [simpl|done].
  intros Hx Hy.
  pose proof (Forall2_lookup_lr _ _ _ _ _ _ Hall H1 H2) as Hrow.
  exact (Forall2_lookup_lr _ _ _ _ _ _ Hrow Hx Hy).
Qed.
End GridRelation.

(** Boards with their hazards at the same places have as many hazards. *)
Lemma mine_total_same (b1 b2 : list (list cell)) nr nc :
  has_dims b1 nr nc -> has_dims b2 nr nc ->
  (forall r c x y, 0 <= r < nr -> 0 <= c < nc ->
     grid_get b1 r c = Some x -> grid_get b2 r c = Some y ->
     is_mine x = is_mine y) ->
  mine_total b1 = mine_total b2.
Proof.
  intros Hd1 Hd2 Hcells. unfold mine_total. apply Nat.le_antisymm.
  - apply grid_count_le. apply (grid_Forall2_intro _ b1 b2 nr nc); auto.
    intros r c x y Hr Hc Hx Hy. rewrite (Hcells r c x y); auto.
  - apply grid_count_le. apply (grid_Forall2_intro _ b2 b1 nr nc); auto.
    intros r c x y Hr Hc Hx Hy. rewrite (Hcells r c y x); auto.
Qed.

(** When every hazard shows [' '] and the cells showing [' '] are as many
    as the hazards, only hazards show [' ']. *)
Lemma hidden_are_mines g r c :
  well_shaped g ->
  (forall i j, in_range g i j -> is_hazard g i j ->
     grid_get (visible_board g) i j = Some " ") ->
  hidden_total (visible_board g) = mine_total (board g) ->
  in_range g r c -> grid_get (visible_board g) r c = Some " " ->
  is_hazard g r c.
Proof.
  intros [Hb Hv] Hmines Hcount [Hr Hc] Hhid.
  destruct (grid_get_in_range _ _ _ r c Hb Hr Hc) as (? & x & _ & _ & Hx).
  assert (Hall : Forall2 (Forall2 (fun x y => is_mine x = true ->
                                              is_blank y = true))
                   (board g) (visible_board g)).
  { apply (grid_Forall2_intro _ _ _ (rows g) (cols g)); auto.
    intros i j x' y Hi Hj Hx' Hy Hmine.
    assert (x' = Mine) as -> by (now destruct x').
    rewrite (Hmines i j (conj Hi Hj) Hx') in Hy. now injection Hy as <-. }
  apply grid_count_eq in Hall; [|unfold mine_total, hidden_total in *; lia].
  pose proof (grid_Forall2_elim _ _ _ _ _ r c x " " Hall Hb Hv Hr Hc Hx Hhid
                eq_refl) as Hmine.
  unfold is_hazard. rewrite Hx. now destruct x.
Qed.

(** * Reachable states *)

(** What [reveal] does at in-range coordinates of a well-formed state. *)
Lemma reveal_in_range frames g r c :
  well_formed g -> in_range g r c ->
  sat (reveal frames r c g)
    (fun _ g' =>
       (is_hazard g r c /\
        (g' = g \/
         game_over g = false /\
         grid_get (visible_board g) r c = Some " " /\
         exists v', grid_set (visible_board g) r c "M" = Some v' /\
                    g' = set_visible_board v' (set_game_over true g))) \/
       (~ is_hazard g r c /\ uncovers g g'))
    (fun e g' => e = RecursionError /\ uncovers g g' /\
                 (frames <= hidden_total (visible_board g))%nat)
    False.
Proof.
  intros Hwf Hrc. pose proof Hwf as [Hs _].
  destruct (board_in_range g r c Hs Hrc) as [[|n] Hb].
  - destruct frames as [|frames].
    { simpl. split; [done|]. split; [now apply uncovers_refl|lia]. }
    destruct (game_over g) eqn:Hover.
    { rewrite reveal_game_over by done. simpl. left. split; [done|now left]. }
    destruct (visible_in_range g r c Hs Hrc) as [v Hv].
    destruct (String.eqb_spec v " ") as [->|Hnb].
    + destruct (reveal_mine g r c Hs Hrc frames Hover Hv Hb) as (v' & Hset & Hrun).
      rewrite Hrun. simpl. left. split; [done|]. right.
      split; [done|]. split; [done|]. now exists v'.
    + erewrite reveal_not_hidden by eauto. simpl.
      left. split; [done|now left].
  - assert (Hsafe : grid_get (board g) r c <> Some Mine) by congruence.
    eapply sat_mono; [now apply reveal_safe| | |]; cbv beta; try done.
    intros _ g' Hunc. right. split; [|done]. unfold is_hazard. congruence.
Qed.

(** What [flag] does at in-range coordinates. *)
Lemma flag_in_range g r c :
  well_shaped g -> in_range g r c ->
  exists g', flag r c g = Ok tt g' /\
    (g' = g \/
     game_over g = false /\
     exists old new v',
       grid_get (visible_board g) r c = Some old /\
       grid_set (visible_board g) r c new = Some v' /\
       g' = set_visible_board v' g /\
       ((old = " " /\ new = "F") \/ (old = "F" /\ new = " "))).
Proof.
  intros Hs Hrc.
  destruct (game_over g) eqn:Hover.
  { exists g. split; [now apply flag_game_over|now left]. }
  destruct (visible_in_range g r c Hs Hrc) as [v Hv].
  destruct (visibility v) eqn:Hvis.
  - assert (v = " ") as ->.
    { unfold visibility in Hvis. destruct (String.eqb_spec v " "); [done|].
      now destruct (v =? "F")%string. }
    destruct (flag_hidden g r c Hs Hrc Hover Hv) as (v' & Hset & Hrun).
    eexists. split; [exact Hrun|]. right. split; [done|].
    exists " ", "F", v'. tauto.
  - assert (v = "F") as ->.
    { unfold visibility in Hvis. destruct (v =? " ")%string; [done|].
      now destruct (String.eqb_spec v "F"). }
    destruct (flag_flagged g r c Hs Hrc Hover Hv) as (v' & Hset & Hrun).
    eexists. split; [exact Hrun|]. right. split; [done|].
    exists "F", " ", v'. tauto.
  - exists g. split; [eapply flag_revealed; eauto|now left].
Qed.

Lemma construct_mine_total nrows ncols n draws g :
  construct nrows ncols n draws = Ok tt g ->
  Z.of_nat (mine_total (board g)) = Z.max 0 (num_mines g).
Proof.
  intros Hcon.
  destruct (construct_sat _ _ _ _ _ Hcon)
    as ((R & C & N) & _ & _ & [[Hb _] _] & g1 & Htotal & Hd1 & Hcells).
  rewrite N, <- Htotal. f_equal. rewrite R, C in Hb.
  apply (mine_total_same _ _ nrows ncols Hb Hd1).
  intros r c x y Hr Hc Hx Hy.
  rewrite Hcells in Hx by (unfold in_range; now rewrite R, C).
  injection Hx as <-. unfold mine_at. simpl. rewrite Hy.
  now destruct y.
Qed.

Lemma construct_inv nrows ncols n draws g :
  construct nrows ncols n draws = Ok tt g -> game_inv g.
Proof.
  intros Hcon.
  destruct (construct_sat _ _ _ _ _ Hcon)
    as ((R & C & _) & (Hover & Hwin) & Hvis & Hwf & _).
  assert (Hnone : no_hazard_revealed g).
  { intros r c v [Hr Hc] _ Hv. rewrite Hvis in Hv. simpl in Hv.
    rewrite grid_get_init in Hv by lia. now injection Hv as <-. }
  split; [done|]. split; [congruence|]. split; [done|]. split; [done|].
  split; [congruence|]. eapply construct_mine_total; eauto.
Qed.

Lemma exec_game_over frames cmd g :
  game_over g = true -> exec (S frames) cmd g = Ok tt g.
Proof.
  intros Hover. destruct cmd as [r c|r c]; simpl.
  - now apply reveal_game_over.
  - now apply flag_game_over.
Qed.

Lemma exec_no_frame cmd g : exec 0 cmd g = Raise RecursionError g.
Proof. now destruct cmd. Qed.

(** Uncovering cells that are no hazards keeps the invariant. *)
Lemma uncovers_inv g g' :
  game_inv g -> game_over g = false -> uncovers g g' -> game_inv g'.
Proof.
  intros (Hwf & Hwo & Hnone & Hwnone & Hwcount & Hmines) Hover Hunc.
  specialize (Hnone Hover).
  assert (Hwin : win g = false).
  { destruct (win g); [|done]. specialize (Hwo eq_refl). congruence. }
  assert (Hwf' : well_formed g') by (eapply uncovers_well_formed; eauto).
  pose proof (unc_layout _ _ Hunc) as (R & C & N & B).
  pose proof (unc_cells _ _ Hunc) as Cells.
  assert (Hkeep : no_hazard_revealed g').
  { intros r' c' v Hrc' Hhaz Hv.
    assert (Hrc0 : in_range g r' c')
      by (unfold in_range; now rewrite <- R, <- C).
    unfold is_hazard in Hhaz. rewrite B in Hhaz.
    destruct (Cells r' c' Hrc0) as [E|(_ & m & Hb & _)]; [|congruence].
    apply (Hnone r' c' v Hrc0 Hhaz). congruence. }
  split; [done|]. split; [|split; [done|split; [done|split]]].
  - destruct (unc_flags _ _ Hunc) as [[Fo Fw]|[Fo Fw]]; congruence.
  - intros Hwin'. rewrite N.
    destruct (unc_win _ _ Hunc Hwin') as [|]; [congruence|done].
  - now rewrite B, N.
Qed.

Lemma exec_inv frames g cmd :
  game_inv g -> cmd_in_range g cmd ->
  sat (exec frames cmd g) (fun _ g' => game_inv g')
    (fun e g' => e = RecursionError /\ game_inv g') False.
Proof.
  intros Hinv Hrc.
  destruct frames as [|frames]; [now rewrite exec_no_frame|].
  pose proof Hinv as (Hwf & Hwo & Hnone & Hwnone & Hwcount & Hmines).
  destruct (game_over g) eqn:Hover.
  { now rewrite exec_game_over by done. }
  specialize (Hnone eq_refl).
  assert (Hwin : win g = false).
  { destruct (win g); [|done]. now specialize (Hwo eq_refl). }
  destruct cmd as [r c|r c]; simpl in Hrc; unfold exec.
  - eapply sat_mono; [now apply reveal_in_range| | |]; cbv beta; try done.
    + intros _ g' [[Hhaz [->|(_ & Hv & v' & Hset & ->)]]|[Hsafe Hunc]].
      * done.
      * destruct Hwf as [Hs Hn].
        destruct (write_visible_in_range g r c Hs Hrc "M")
          as (v'' & Hset' & _ & [_ Hs'] & _).
        assert (v'' = v') as -> by congruence.
        split; [split; [split; [apply Hs|exact Hs']|exact Hn]|].
        simpl. rewrite Hwin. repeat split; done.
      * now apply (uncovers_inv g).
    + intros e g' (-> & Hunc & _). split; [done|]. now apply (uncovers_inv g).
  - destruct Hwf as [Hs Hn].
    destruct (flag_in_range g r c Hs Hrc) as (g0 & Hrun' & Hcases).
    rewrite call_S, Hrun'. simpl.
    destruct Hcases as [->|(_ & old & new & v' & Hold & Hset & -> & Hon)].
    + done.
    + destruct (write_visible_in_range g r c Hs Hrc new)
        as (v'' & Hset' & _ & Hs' & Hget & Hother).
      assert (v'' = v') as -> by congruence.
      split; [split; [exact Hs'|exact Hn]|].
      simpl. rewrite Hwin. split; [done|].
      assert (Hkeep : no_hazard_revealed (set_visible_board v' g)).
      { intros r' c' v Hrc' Hhaz Hv. simpl in *.
        destruct (decide ((r', c') = (r, c))) as [[= -> ->]|Hne].
        - assert (v = new) as -> by congruence.
          destruct Hon as [[_ ->]|[_ ->]]; done.
        - apply (Hnone r' c' v Hrc' Hhaz).
          rewrite <- Hv. symmetry. now apply Hother. }
      repeat split; done.
Qed.

(** Every state reached by in-range calls is well formed; it shows a
    hazard only once the game is over, and never in a won game. *)
Lemma reachable_in_range_inv g : reachable_in_range g -> game_inv g.
Proof.
  induction 1 as [nrows ncols n draws g Hcon
                 |g frames cmd g' _ IH Hrc Hrun|g frames cmd e g' _ IH Hrc Hrun].
  - eapply construct_inv; eauto.
  - pose proof (exec_inv frames g cmd IH Hrc) as H. now rewrite Hrun in H.
  - pose proof (exec_inv frames g cmd IH Hrc) as H. rewrite Hrun in H. apply H.
Qed.

(** * The layout is never written *)

Lemma same_layout_refl g : same_layout g g.
Proof. now repeat split. Qed.

Lemma same_layout_trans g1 g2 g3 :
  same_layout g1 g2 -> same_layout g2 g3 -> same_layout g1 g3.
Proof.
  intros (R1 & C1 & N1 & B1) (R2 & C2 & N2 & B2). repeat split; congruence.
Qed.

Section KeepsLayout.
Context {A B : Type}.

Lemma keeps_ret (a : A) : keeps_layout (py_ret a).
Proof. intros g. apply same_layout_refl. Qed.

Lemma keeps_raise e : keeps_layout (@raise A e).
Proof. intros g. apply same_layout_refl. Qed.

Lemma keeps_unfinished : keeps_layout (@unfinished A).
Proof. intros g. exact I. Qed.

Lemma keeps_call frames (m : Py A) :
  keeps_layout m -> keeps_layout (call frames m).
Proof. destruct frames; [intros _; apply keeps_raise|done]. Qed.

Lemma keeps_gets (f : Minesweeper -> A) : keeps_layout (gets f).
Proof. intros g. apply same_layout_refl. Qed.

Lemma keeps_index (o : option A) : keeps_layout (index o).
Proof. destruct o; [apply keeps_ret|apply keeps_raise]. Qed.

Lemma keeps_bind (m : Py A) (k : A -> Py B) :
  keeps_layout m -> (forall a, keeps_layout (k a)) ->
  keeps_layout (py_bind m k).
Proof.
  intros Hm Hk g. apply sat_bind. eapply sat_mono; [apply Hm| |done|done].
  simpl. intros a g' Hg'. eapply sat_mono; [apply Hk| | |done]; simpl;
    intros; eapply same_layout_trans; eauto.
Qed.

Lemma keeps_if (b : bool) (m1 m2 : Py A) :
  keeps_layout m1 -> keeps_layout m2 -> keeps_layout (if b then m1 else m2).
Proof. now destruct b. Qed.
End KeepsLayout.

Lemma keeps_modify f :
  (forall g, same_layout g (f g)) -> keeps_layout (modify f).
Proof. intros Hf g. apply Hf. Qed.

Lemma keeps_for_fold {X A} (l : list X) (body : X -> A -> Py A) a :
  (forall x a, keeps_layout (body x a)) -> keeps_layout (for_fold l body a).
Proof.
  intros Hbody. revert a. induction l as [|x l IH]; intros a; simpl.
  - apply keeps_ret.
  - apply keeps_bind; [apply Hbody|]. intros a'. apply IH.
Qed.

Lemma keeps_read_visible r c : keeps_layout (read_visible r c).
Proof.
  apply keeps_bind; [apply keeps_gets|]. intros v. apply keeps_index.
Qed.

Lemma keeps_read_board r c : keeps_layout (read_board r c).
Proof.
  apply keeps_bind; [apply keeps_gets|]. intros v. apply keeps_index.
Qed.

Lemma keeps_write_visible r c x : keeps_layout (write_visible r c x).
Proof.
  apply keeps_bind; [apply keeps_gets|]. intros v.
  apply keeps_bind; [apply keeps_index|]. intros v'.
  apply keeps_modify. intros g. now repeat split.
Qed.

Lemma keeps_get_neighbors r c : keeps_layout (_get_neighbors r c).
Proof.
  apply keeps_bind; [apply keeps_gets|]. intros nr.
  apply keeps_bind; [apply keeps_gets|]. intros nc. apply keeps_ret.
Qed.

Lemma keeps_check_win : keeps_layout check_win.
Proof.
  apply keeps_bind; [apply keeps_gets|]. intros nr.
  apply keeps_bind.
  { apply keeps_for_fold. intros r h.
    apply keeps_bind; [apply keeps_gets|]. intros nc.
    apply keeps_for_fold. intros c h'.
    apply keeps_bind; [apply keeps_read_visible|]. intros v. apply keeps_ret. }
  intros h. apply keeps_bind; [apply keeps_gets|]. intros n.
  apply keeps_if; [|apply keeps_ret].
  apply keeps_bind; [|intros _];
    apply keeps_modify; intros g; now repeat split.
Qed.

(** [reveal] never writes the layout: whatever the coordinates, the
    frames and the state, and whether it returns or raises. *)
Lemma keeps_reveal frames : forall r c, keeps_layout (reveal frames r c).
Proof.
  induction frames as [|frames IH]; intros r c; simpl.
  - apply keeps_raise.
  - apply keeps_bind; [apply keeps_gets|]. intros over.
    apply keeps_if; [apply keeps_ret|].
    apply keeps_bind; [apply keeps_read_visible|]. intros v.
    apply keeps_if; [apply keeps_ret|].
    apply keeps_bind; [apply keeps_read_board|]. intros b.
    apply keeps_if.
    + apply keeps_bind; [|intros _; apply keeps_write_visible].
      apply keeps_modify. intros g. now repeat split.
    + apply keeps_bind; [apply keeps_read_board|]. intros b1.
      apply keeps_bind; [apply keeps_write_visible|]. intros _.
      apply keeps_bind; [apply keeps_read_board|]. intros b2.
      apply keeps_bind; [|intros _; apply keeps_call, keeps_check_win].
      apply keeps_if; [|apply keeps_ret].
      apply keeps_bind; [apply keeps_call, keeps_get_neighbors|]. intros ns.
      apply keeps_for_fold. intros [nr nc] _.
      apply keeps_bind; [apply keeps_read_visible|]. intros v'.
      apply keeps_if; [apply IH|apply keeps_ret].
Qed.

Lemma keeps_flag r c : keeps_layout (flag r c).
Proof.
  apply keeps_bind; [apply keeps_gets|]. intros over.
  apply keeps_if; [apply keeps_ret|].
  apply keeps_bind; [apply keeps_read_visible|]. intros v.
  apply keeps_if; [apply keeps_ret|].
  apply keeps_bind; [apply keeps_read_visible|]. intros v1.
  apply keeps_if; [apply keeps_write_visible|].
  apply keeps_bind; [apply keeps_read_visible|]. intros v2.
  apply keeps_if; [apply keeps_write_visible|apply keeps_ret].
Qed.

Lemma keeps_exec frames cmd : keeps_layout (exec frames cmd).
Proof.
  destruct cmd as [r c|r c]; unfold exec;
    [apply keeps_reveal|apply keeps_call, keeps_flag].
Qed.

Lemma keeps_cascade frames ns : keeps_layout (cascade frames ns).
Proof.
  apply keeps_for_fold. intros [nr nc] _.
  apply keeps_bind; [apply keeps_read_visible|]. intros v.
  apply keeps_if; [apply keeps_reveal|apply keeps_ret].
Qed.

(** Every call of [reveal] that a call at in-range coordinates leads to is
    at in-range coordinates. *)
Lemma visits_in_range frames r c g p :
  visits frames r c g p -> in_range g r c -> in_range g p.1 p.2.
Proof.
  induction 1 as [|frames r c g v' before nr nc after gk p
                   _ _ _ _ _ Hns Hrun _ _ IH]; intros Hrc; [done|].
  pose proof (keeps_cascade frames before (set_visible_board v' g)) as Hk.
  rewrite Hrun in Hk. simpl in Hk. destruct Hk as (R & C & _).
  simpl in R, C.
  assert (Hin : In (nr, nc) (neighbors (rows g) (cols g) r c)).
  { rewrite Hns. apply in_or_app. right. now left. }
  apply in_neighbors in Hin as [Hnrc _].
  unfold in_range in *. rewrite R, C in IH. now apply IH.
Qed.

(** * [reveal] terminates *)

Section Settles.
Context {A B : Type}.

Lemma settles_ret (a : A) : settles (py_ret a).
Proof. intros g. simpl. lia. Qed.

Lemma settles_raise e : e <> RecursionError -> settles (@raise A e).
Proof. intros He g. simpl. split; [done|lia]. Qed.

Lemma settles_gets (f : Minesweeper -> A) : settles (gets f).
Proof. intros g. simpl. lia. Qed.

Lemma settles_index (o : option A) : settles (index o).
Proof. destruct o; [apply settles_ret|now apply settles_raise]. Qed.

Lemma settles_bind (m : Py A) (k : A -> Py B) :
  settles m -> (forall a, settles (k a)) -> settles (py_bind m k).
Proof.
  intros Hm Hk g. apply sat_bind. eapply sat_mono; [apply Hm| |auto|auto].
  simpl. intros a g' Hg'. eapply sat_mono; [apply Hk| | |auto]; simpl.
  - intros; lia.
  - intros e g2 [He Hh]. split; [done|lia].
Qed.

Lemma settles_if (b : bool) (m1 m2 : Py A) :
  settles m1 -> settles m2 -> settles (if b then m1 else m2).
Proof. now destruct b. Qed.
End Settles.

Lemma settles_modify f :
  (forall g, visible_board (f g) = visible_board g) -> settles (modify f).
Proof. intros Hf g. simpl. rewrite Hf. lia. Qed.

Lemma settles_for_fold {X A} (l : list X) (body : X -> A -> Py A) a :
  (forall x a, settles (body x a)) -> settles (for_fold l body a).
Proof.
  intros Hbody. revert a. induction l as [|x l IH]; intros a; simpl.
  - apply settles_ret.
  - apply settles_bind; [apply Hbody|]. intros a'. apply IH.
Qed.

Lemma settles_read_visible r c : settles (read_visible r c).
Proof.
  apply settles_bind; [apply settles_gets|]. intros v. apply settles_index.
Qed.

Lemma settles_check_win : settles check_win.
Proof.
  apply settles_bind; [apply settles_gets|]. intros nr.
  apply settles_bind.
  { apply settles_for_fold. intros r h.
    apply settles_bind; [apply settles_gets|]. intros nc.
    apply settles_for_fold. intros c h'.
    apply settles_bind; [apply settles_read_visible|]. intros v.
    apply settles_ret. }
  intros h. apply settles_bind; [apply settles_gets|]. intros n.
  apply settles_if; [|apply settles_ret].
  apply settles_bind; [|intros _]; apply settles_modify; intros g; done.
Qed.

(** [reveal] returns or raises, at any coordinates and in any state, and
    leaves no more hidden cells than it found: every call that gets past
    the guards uncovers a cell before it recurses.  For the same reason
    it raises [RecursionError] only when it has no more frames than there
    are hidden cells. *)
Lemma reveal_settles frames : forall r c g,
  sat (reveal frames r c g)
    (fun _ g' => (hidden_total (visible_board g')
                  <= hidden_total (visible_board g))%nat)
    (fun e g' => (hidden_total (visible_board g')
                  <= hidden_total (visible_board g))%nat /\
                 (e = RecursionError ->
                  (frames <= hidden_total (visible_board g))%nat))
    False.
Proof.
  induction frames as [|frames IH]; intros r c g; [simpl; lia|].
  destruct (game_over g) eqn:Hover.
  { rewrite reveal_game_over by done. simpl. lia. }
  destruct (grid_get (visible_board g) r c) as [v|] eqn:Hv.
  2:{ simpl. unfold py_bind at 1, gets at 1. rewrite Hover.
      rewrite (bind_Raise _ _ _ _ _ (read_visible_None _ _ _ Hv)). simpl.
      split; [lia|done]. }
  destruct (String.eqb_spec v " ") as [->|Hnb].
  2:{ erewrite reveal_not_hidden by eauto. simpl. lia. }
  destruct (grid_get (board g) r c) as [b|] eqn:Hb.
  2:{ simpl. unfold py_bind at 1, gets at 1. rewrite Hover.
      rewrite (bind_Ok _ _ _ _ _ (read_visible_Some _ _ _ _ Hv)). simpl.
      unfold read_board at 1. unfold py_bind at 1. unfold py_bind at 1, gets at 1.
      rewrite Hb. simpl. split; [lia|done]. }
  destruct b as [|n].
  - (* a hazard *)
    simpl. unfold py_bind at 1, gets at 1. rewrite Hover.
    rewrite (bind_Ok _ _ _ _ _ (read_visible_Some _ _ _ _ Hv)). simpl.
    rewrite (bind_Ok _ _ _ _ _ (read_board_Some _ _ _ _ Hb)). simpl.
    unfold py_bind at 1, modify at 1.
    destruct (grid_set (visible_board g) r c "M") as [v'|] eqn:Hset.
    + rewrite (write_visible_Some r c "M" (set_game_over true g) v') by done.
      simpl. pose proof (hidden_total_set _ _ r c "M" Hv eq_refl Hset). lia.
    + unfold write_visible, py_bind, gets. simpl. rewrite Hset. simpl.
      split; [lia|done].
  - (* a count *)
    destruct (grid_set (visible_board g) r c (str (Count n))) as [v'|] eqn:Hset.
    2:{ simpl. unfold py_bind at 1, gets at 1. rewrite Hover.
        rewrite (bind_Ok _ _ _ _ _ (read_visible_Some _ _ _ _ Hv)). simpl.
        rewrite (bind_Ok _ _ _ _ _ (read_board_Some _ _ _ _ Hb)). simpl.
        rewrite (bind_Ok _ _ _ _ _ (read_board_Some _ _ _ _ Hb)).
        unfold write_visible at 1. unfold py_bind at 1. unfold py_bind at 1.
        unfold py_bind at 1, gets at 1. rewrite Hset. simpl.
        split; [lia|done]. }
    rewrite (reveal_count_eq frames g r c n v') by done.
    pose proof (hidden_total_set _ _ r c _ Hv (str_not_blank n) Hset) as Hh.
    set (g1 := set_visible_board v' g).
    assert (Hh2 : (hidden_total (visible_board g1) + 1
                   = hidden_total (visible_board g))%nat) by (simpl; lia).
    clearbody g1. clear Hh Hset.
    apply sat_bind.
    eapply sat_mono with
      (Q := fun _ g2 => (hidden_total (visible_board g2)
                         <= hidden_total (visible_board g1))%nat)
      (E := fun e g2 => (hidden_total (visible_board g2)
                         <= hidden_total (visible_board g1))%nat /\
                        (e = RecursionError ->
                         (frames <= hidden_total (visible_board g1))%nat))
      (U := False).
    + destruct (n =? 0); [|simpl; lia].
      destruct (Nat.eq_dec frames 0%nat) as [Hf0|Hf0].
      { subst frames. simpl. lia. }
      replace (call frames (cascade frames (neighbors (rows g) (cols g) r c)))
        with (cascade frames (neighbors (rows g) (cols g) r c))
        by now destruct frames.
      unfold cascade, for_each. apply for_fold_inv; [|lia].
      intros [nr nc] [] gk _ Hk. cbv beta in Hk. apply sat_bind.
      eapply sat_mono;
        [apply settles_read_visible| | |auto]; cbv beta.
      2:{ intros e g2 [He Hh]. split; [lia|done]. }
      intros vk gk' Hk'.
      destruct (vk =? " ")%string; [|simpl; lia].
      eapply sat_mono; [apply IH| | |auto]; cbv beta.
      * intros; lia.
      * intros e g3 [Hh He]. split; [lia|]. intros ->.
        specialize (He eq_refl). lia.
    + cbv beta. intros ? g2 H2.
      destruct (Nat.eq_dec frames 0%nat) as [Hf0|Hf0].
      { subst frames. simpl. lia. }
      replace (call frames check_win) with check_win by now destruct frames.
      eapply sat_mono; [apply settles_check_win| | |auto]; cbv beta.
      * intros; lia.
      * intros e g3 [He Hh]. split; [lia|done].
    + cbv beta. intros e g2 [Hh He]. split; [lia|]. intros ->.
      specialize (He eq_refl). lia.
    + auto.
Qed.

(** With more frames than hidden cells, [reveal] does not raise
    [RecursionError]. *)
Lemma reveal_enough_frames frames r c g g' :
  (hidden_total (visible_board g) < frames)%nat ->
  reveal frames r c g <> Raise RecursionError g'.
Proof.
  intros Hframes Hrun. pose proof (reveal_settles frames r c g) as H.
  rewrite Hrun in H. simpl in H. destruct H as [_ H].
  specialize (H eq_refl). lia.
Qed.

(** [reveal] and [flag] always return or raise. *)
Lemma exec_finishes frames cmd g : exec frames cmd g <> Unfinished.
Proof.
  destruct cmd as [r c|r c]; unfold exec.
  - pose proof (reveal_settles frames r c g) as H.
    intros Heq. now rewrite Heq in H.
  - destruct frames as [|frames]; [done|]. rewrite call_S.
    rewrite flag_eq. destruct (game_over g); [done|].
    destruct (grid_get (visible_board g) r c) as [v|]; [|done].
    destruct (v =? " ")%string.
    { now destruct (grid_set (visible_board g) r c "F"). }
    destruct (v =? "F")%string; [|done].
    now destruct (grid_set (visible_board g) r c " ").
Qed.

Lemma run_finishes frames cmds : forall g, run frames cmds g <> Unfinished.
Proof.
  unfold run, for_each. induction cmds as [|cmd cmds IH]; intros g; simpl;
    [done|].
  unfold py_bind. pose proof (exec_finishes frames cmd g) as Hcmd.
  destruct (exec frames cmd g) as [[] g'|e g'|]; [apply IH|done|done].
Qed.

(** * Every reachable state is sound *)

Lemma grid_set_dims {A} (gr gr' : list (list A)) nr nc r c x :
  has_dims gr nr nc -> grid_set gr r c x = Some gr' -> has_dims gr' nr nc.
Proof.
  intros [Hlen Hrows]. unfold grid_set, getitem, setitem.
  destruct (py_index (length gr) r) as [k|]; [simpl|done].
  destruct (gr !! k) as [row|] eqn:Hrow; [simpl|done].
  destruct (py_index (length row) c) as [j|]; [simpl|done].
  intros [= <-]. split; [now rewrite length_insert|].
  apply Forall_insert; [done|]. rewrite length_insert.
  eapply Forall_lookup_1 in Hrows; eauto.
Qed.

Section KeepsShaped.
Context {A B : Type}.

Lemma shaped_ret (a : A) : keeps_shaped (py_ret a).
Proof. now intros g Hg. Qed.

Lemma shaped_raise e : keeps_shaped (@raise A e).
Proof. now intros g Hg. Qed.

Lemma shaped_unfinished : keeps_shaped (@unfinished A).
Proof. now intros g Hg. Qed.

Lemma shaped_call frames (m : Py A) :
  keeps_shaped m -> keeps_shaped (call frames m).
Proof. destruct frames; [intros _; apply shaped_raise|done]. Qed.

Lemma shaped_gets (f : Minesweeper -> A) : keeps_shaped (gets f).
Proof. now intros g Hg. Qed.

Lemma shaped_index (o : option A) : keeps_shaped (index o).
Proof. destruct o; [apply shaped_ret|apply shaped_raise]. Qed.

Lemma shaped_bind (m : Py A) (k : A -> Py B) :
  keeps_shaped m -> (forall a, keeps_shaped (k a)) ->
  keeps_shaped (py_bind m k).
Proof.
  intros Hm Hk g Hg. apply sat_bind.
  eapply sat_mono; [now apply Hm| |auto|auto].
  intros a g' Hg'. now apply Hk.
Qed.

Lemma shaped_if (b : bool) (m1 m2 : Py A) :
  keeps_shaped m1 -> keeps_shaped m2 -> keeps_shaped (if b then m1 else m2).
Proof. now destruct b. Qed.
End KeepsShaped.

Lemma shaped_for_fold {X A} (l : list X) (body : X -> A -> Py A) a :
  (forall x a, keeps_shaped (body x a)) -> keeps_shaped (for_fold l body a).
Proof.
  intros Hbody. revert a. induction l as [|x l IH]; intros a; simpl.
  - apply shaped_ret.
  - apply shaped_bind; [apply Hbody|]. intros a'. apply IH.
Qed.

Lemma shaped_read_visible r c : keeps_shaped (read_visible r c).
Proof.
  apply shaped_bind; [apply shaped_gets|]. intros v. apply shaped_index.
Qed.

Lemma shaped_read_board r c : keeps_shaped (read_board r c).
Proof.
  apply shaped_bind; [apply shaped_gets|]. intros v. apply shaped_index.
Qed.

Lemma shaped_write_visible r c x : keeps_shaped (write_visible r c x).
Proof.
  intros g [Hd Hw]. unfold write_visible, py_bind, gets.
  destruct (grid_set (visible_board g) r c x) as [v'|] eqn:Hset; simpl.
  - split; [|done]. eapply grid_set_dims; eauto.
  - now split.
Qed.

Lemma shaped_get_neighbors r c : keeps_shaped (_get_neighbors r c).
Proof.
  apply shaped_bind; [apply shaped_gets|]. intros nr.
  apply shaped_bind; [apply shaped_gets|]. intros nc. apply shaped_ret.
Qed.

Lemma shaped_game_over : keeps_shaped (modify (set_game_over true)).
Proof. intros g [Hd Hw]. simpl. now split. Qed.

(** [check_win] assigns [win] before [game_over]; only the two assignments
    together keep [win] implying [game_over]. *)
Lemma shaped_check_win : keeps_shaped check_win.
Proof.
  apply shaped_bind; [apply shaped_gets|]. intros nr.
  apply shaped_bind.
  { apply shaped_for_fold. intros r h.
    apply shaped_bind; [apply shaped_gets|]. intros nc.
    apply shaped_for_fold. intros c h'.
    apply shaped_bind; [apply shaped_read_visible|]. intros v.
    apply shaped_ret. }
  intros h. apply shaped_bind; [apply shaped_gets|]. intros n.
  apply shaped_if; [|apply shaped_ret].
  intros g [Hd Hw]. simpl. now split.
Qed.

Lemma shaped_reveal frames : forall r c, keeps_shaped (reveal frames r c).
Proof.
  induction frames as [|frames IH]; intros r c; simpl.
  - apply shaped_raise.
  - apply shaped_bind; [apply shaped_gets|]. intros over.
    apply shaped_if; [apply shaped_ret|].
    apply shaped_bind; [apply shaped_read_visible|]. intros v.
    apply shaped_if; [apply shaped_ret|].
    apply shaped_bind; [apply shaped_read_board|]. intros b.
    apply shaped_if.
    + apply shaped_bind; [apply shaped_game_over|].
      intros _. apply shaped_write_visible.
    + apply shaped_bind; [apply shaped_read_board|]. intros b1.
      apply shaped_bind; [apply shaped_write_visible|]. intros _.
      apply shaped_bind; [apply shaped_read_board|]. intros b2.
      apply shaped_bind; [|intros _; apply shaped_call, shaped_check_win].
      apply shaped_if; [|apply shaped_ret].
      apply shaped_bind; [apply shaped_call, shaped_get_neighbors|]. intros ns.
      apply shaped_for_fold. intros [i j] _.
      apply shaped_bind; [apply shaped_read_visible|]. intros v'.
      apply shaped_if; [apply IH|apply shaped_ret].
Qed.

Lemma shaped_flag r c : keeps_shaped (flag r c).
Proof.
  apply shaped_bind; [apply shaped_gets|]. intros over.
  apply shaped_if; [apply shaped_ret|].
  apply shaped_bind; [apply shaped_read_visible|]. intros v.
  apply shaped_if; [apply shaped_ret|].
  apply shaped_bind; [apply shaped_read_visible|]. intros v1.
  apply shaped_if; [apply shaped_write_visible|].
  apply shaped_bind; [apply shaped_read_visible|]. intros v2.
  apply shaped_if; [apply shaped_write_visible|apply shaped_ret].
Qed.

Lemma shaped_exec frames cmd : keeps_shaped (exec frames cmd).
Proof.
  destruct cmd as [r c|r c]; unfold exec;
    [apply shaped_reveal|apply shaped_call, shaped_flag].
Qed.

(** A state with the layout of a sound state and a well-shaped visibility
    grid is sound. *)
Lemma sound_layout g g' :
  sound g -> same_layout g g' -> shaped g' -> sound g'.
Proof.
  intros ([[Hb _] Hn] & _ & Hm) (R & C & N & B) [Hd Hw].
  split; [split; [split|]|split].
  - now rewrite B, R, C.
  - done.
  - intros r c n Hrc Hget. unfold mines_around. rewrite B, R, C.
    apply Hn; [|now rewrite <- B]. unfold in_range. now rewrite <- R, <- C.
  - done.
  - now rewrite B, N.
Qed.

Lemma exec_sound frames cmd g :
  sound g ->
  sat (exec frames cmd g) (fun _ g' => sound g') (fun _ g' => sound g') False.
Proof.
  intros Hg. pose proof Hg as ([[_ Hd] _] & Hw & _).
  pose proof (keeps_exec frames cmd g) as Hlayout.
  pose proof (shaped_exec frames cmd g (conj Hd Hw)) as Hshaped.
  pose proof (exec_finishes frames cmd g) as Hfin.
  destruct (exec frames cmd g) as [[] g'|e g'|]; simpl in *;
    try done; eapply sound_layout; eauto.
Qed.

Lemma reachable_sound g : reachable g -> sound g.
Proof.
  induction 1 as [nrows ncols n draws g Hcon|g frames cmd g' _ IH Hrun
                 |g frames cmd e g' _ IH Hrun].
  - destruct (construct_inv _ _ _ _ _ Hcon) as (Hwf & Hwo & _ & _ & _ & Hm).
    split; [exact Hwf|]. split; [exact Hwo|exact Hm].
  - pose proof (exec_sound frames cmd g IH) as H. now rewrite Hrun in H.
  - pose proof (exec_sound frames cmd g IH) as H. now rewrite Hrun in H.
Qed.

Lemma reachable_in_range_reachable g : reachable_in_range g -> reachable g.
Proof.
  induction 1 as [nrows ncols n draws g Hcon|g frames cmd g' _ IH _ Hrun
                 |g frames cmd e g' _ IH _ Hrun].
  - eapply reach_construct; eauto.
  - eapply reach_return; eauto.
  - eapply reach_raise; eauto.
Qed.

(** * Calls at coordinates of either sign *)

Lemma grid_get_bounds {A} (gr : list (list A)) nr nc r c x :
  has_dims gr nr nc -> grid_get gr r c = Some x ->
  - nr <= r < nr /\ - nc <= c < nc.
Proof.
  intros Hd Hget.
  destruct (Z_lt_le_dec r (- nr)) as [H1|H1].
  { rewrite (grid_get_outside gr nr nc r c Hd) in Hget; [done|lia]. }
  destruct (Z_lt_le_dec r nr) as [H2|H2].
  2:{ rewrite (grid_get_outside gr nr nc r c Hd) in Hget; [done|lia]. }
  destruct (Z_lt_le_dec c (- nc)) as [H3|H3].
  { rewrite (grid_get_outside gr nr nc r c Hd) in Hget; [done|lia]. }
  destruct (Z_lt_le_dec c nc) as [H4|H4].
  2:{ rewrite (grid_get_outside gr nr nc r c Hd) in Hget; [done|lia]. }
  lia.
Qed.

Lemma grid_get_same_dims {A B} (gr1 : list (list A)) (gr2 : list (list B))
    nr nc r c x :
  has_dims gr1 nr nc -> has_dims gr2 nr nc -> grid_get gr1 r c = Some x ->
  exists y, grid_get gr2 r c = Some y.
Proof.
  intros Hd1 Hd2 Hget.
  destruct (grid_get_bounds _ _ _ r c x Hd1 Hget) as [Hr Hc].
  rewrite (grid_get_wrap _ _ _ r c Hd2 Hr Hc).
  destruct (grid_get_in_range gr2 nr nc (r mod nr) (c mod nc) Hd2)
    as (_ & y & _ & _ & Hy); [apply Z.mod_pos_bound; lia
                             |apply Z.mod_pos_bound; lia|].
  now exists y.
Qed.

Lemma grid_set_readable {A} (gr : list (list A)) nr nc r c x y :
  has_dims gr nr nc -> grid_get gr r c = Some y ->
  exists gr', grid_set gr r c x = Some gr'.
Proof.
  intros Hd Hget.
  destruct (grid_get_bounds _ _ _ r c y Hd Hget) as [Hr Hc].
  rewrite (grid_set_wrap _ _ _ r c x Hd Hr Hc).
  destruct (grid_set_in_range gr nr nc (r mod nr) (c mod nc) x Hd)
    as (gr' & Hset & _); [apply Z.mod_pos_bound; lia
                         |apply Z.mod_pos_bound; lia|].
  now exists gr'.
Qed.

Lemma grid_get_readable {A} (gr : list (list A)) nr nc r c :
  has_dims gr nr nc -> - nr <= r < nr -> - nc <= c < nc ->
  exists x, grid_get gr r c = Some x.
Proof.
  intros Hd Hr Hc. rewrite (grid_get_wrap _ _ _ r c Hd Hr Hc).
  destruct (grid_get_in_range gr nr nc (r mod nr) (c mod nc) Hd)
    as (_ & x & _ & _ & Hx); [apply Z.mod_pos_bound; lia
                             |apply Z.mod_pos_bound; lia|].
  now exists x.
Qed.

Lemma read_board_None r c g :
  grid_get (board g) r c = None -> read_board r c g = Raise IndexError g.
Proof. unfold read_board, py_bind, gets. now intros ->. Qed.

Lemma write_visible_None r c x g :
  grid_set (visible_board g) r c x = None ->
  write_visible r c x g = Raise IndexError g.
Proof. unfold write_visible, py_bind, gets. now intros ->. Qed.

(** [reveal] as a function of the cells it reads and the write it
    performs, at any coordinates. *)
Lemma reveal_eq frames r c g :
  reveal (S frames) r c g
  = if game_over g then Ok tt g else
    match grid_get (visible_board g) r c with
    | None => Raise IndexError g
    | Some v =>
      if negb (v =? " ")%string then Ok tt g else
      match grid_get (board g) r c with
      | None => Raise IndexError g
      | Some Mine =>
        match grid_set (visible_board g) r c "M" with
        | Some v' => Ok tt (set_visible_board v' (set_game_over true g))
        | None => Raise IndexError (set_game_over true g)
        end
      | Some (Count n) =>
        match grid_set (visible_board g) r c (str (Count n)) with
        | Some v' =>
          ((if n =? 0
            then call frames (cascade frames (neighbors (rows g) (cols g) r c))
            else py_ret tt) ;;; call frames check_win) (set_visible_board v' g)
        | None => Raise IndexError g
        end
      end
    end.
Proof.
  destruct (game_over g) eqn:Hover; [now apply reveal_game_over|].
  destruct (grid_get (visible_board g) r c) as [v|] eqn:Hv.
  2:{ simpl. unfold py_bind at 1, gets at 1. rewrite Hover.
      now rewrite (bind_Raise _ _ _ _ _ (read_visible_None _ _ _ Hv)). }
  destruct (String.eqb_spec v " ") as [->|Hnb]; simpl negb; cbv iota.
  2:{ now erewrite reveal_not_hidden by eauto. }
  destruct (grid_get (board g) r c) as [[|n]|] eqn:Hb.
  - simpl. unfold py_bind at 1, gets at 1. rewrite Hover.
    rewrite (bind_Ok _ _ _ _ _ (read_visible_Some _ _ _ _ Hv)). simpl.
    rewrite (bind_Ok _ _ _ _ _ (read_board_Some _ _ _ _ Hb)). simpl.
    unfold py_bind at 1, modify at 1.
    destruct (grid_set (visible_board g) r c "M") as [v'|] eqn:Hset.
    + now rewrite (write_visible_Some r c "M" (set_game_over true g) v').
    + now rewrite (write_visible_None r c "M" (set_game_over true g)).
  - destruct (grid_set (visible_board g) r c (str (Count n))) as [v'|] eqn:Hset.
    { now apply reveal_count_eq. }
    simpl. unfold py_bind at 1, gets at 1. rewrite Hover.
    rewrite (bind_Ok _ _ _ _ _ (read_visible_Some _ _ _ _ Hv)). simpl.
    rewrite (bind_Ok _ _ _ _ _ (read_board_Some _ _ _ _ Hb)). simpl.
    rewrite (bind_Ok _ _ _ _ _ (read_board_Some _ _ _ _ Hb)).
    now rewrite (bind_Raise _ _ _ _ _ (write_visible_None _ _ _ _ Hset)).
  - simpl. unfold py_bind at 1, gets at 1. rewrite Hover.
    rewrite (bind_Ok _ _ _ _ _ (read_visible_Some _ _ _ _ Hv)). simpl.
    now rewrite (bind_Raise _ _ _ _ _ (read_board_None _ _ _ Hb)).
Qed.

(** A call of [reveal] that can read its cell raises no [IndexError]:
    the cells of its cascade are cells of the grid. *)
Lemma reveal_no_raise frames : forall r c g,
  well_shaped g ->
  game_over g = true \/ grid_get (visible_board g) r c <> None ->
  sat (reveal frames r c g) (fun _ g' => well_shaped g')
      (fun e _ => e = RecursionError) False.
Proof.
  induction frames as [|frames IH]; intros r c g Hs Hread; [done|].
  rewrite reveal_eq.
  destruct (game_over g) eqn:Hover; [done|].
  destruct Hread as [|Hread]; [done|].
  destruct (grid_get (visible_board g) r c) as [v|] eqn:Hv; [|done].
  destruct (negb (v =? " ")%string); [done|].
  pose proof Hs as [Hbd Hvd].
  destruct (grid_get_same_dims _ (board g) _ _ r c _ Hvd Hbd Hv) as [b Hb].
  rewrite Hb.
  destruct (grid_set_readable _ _ _ r c (str b) _ Hvd Hv) as [v' Hset].
  assert (Hvd' : has_dims v' (rows g) (cols g))
    by (eapply grid_set_dims; eauto).
  destruct b as [|n].
  - change (str Mine) with "M" in Hset. rewrite Hset. simpl. now split.
  - rewrite Hset.
    set (g1 := set_visible_board v' g).
    assert (H1 : well_shaped g1 /\ rows g1 = rows g /\ cols g1 = cols g)
      by (split; [now split|now split]).
    apply sat_bind.
    eapply sat_mono with
      (Q := fun _ g2 => well_shaped g2 /\ rows g2 = rows g /\ cols g2 = cols g)
      (E := fun e _ => e = RecursionError) (U := False).
    + destruct (n =? 0); [|exact H1].
      apply sat_call; [done|].
      unfold cascade, for_each. apply for_fold_inv; [|exact H1].
      intros [nr nc] [] gk Hin (Hsk & R & C).
      apply list_elem_of_In, in_neighbors in Hin as [Hrc _].
      assert (Hrck : in_range gk nr nc) by (unfold in_range; now rewrite R, C).
      destruct (visible_in_range gk nr nc Hsk Hrck) as [vk Hvk].
      apply sat_bind. rewrite (read_visible_Some _ _ _ _ Hvk). simpl.
      destruct (vk =? " ")%string; [|exact (conj Hsk (conj R C))].
      pose proof (IH nr nc gk Hsk) as Hno.
      pose proof (keeps_reveal frames nr nc gk) as Hl.
      destruct (reveal frames nr nc gk) as [[] g'|e g'|]; simpl in *.
      * destruct Hl as (R' & C' & _).
        split; [apply Hno; right; congruence|]. split; congruence.
      * apply Hno. right. congruence.
      * apply Hno. right. congruence.
    + cbv beta. intros ? g2 (Hs2 & _).
      apply sat_call; [done|].
      rewrite check_win_eq by done. simpl.
      destruct (_ =? _); [|done]. destruct Hs2. now split.
    + done.
    + done.
Qed.

(** Python resolves a negative index from the end of the list, so at
    coordinates within [[-rows, rows)] and [[-cols, cols)] [reveal] reads
    and writes the cell [(r mod rows, c mod cols)].  It is the call at that
    cell, unless the cell is hidden and counts 0: the cascade is over the
    neighbours of the coordinates as they were given. *)
Lemma reveal_wrap frames r c g :
  well_shaped g -> - rows g <= r < rows g -> - cols g <= c < cols g ->
  ~ (game_over g = false /\
     grid_get (visible_board g) (r mod rows g) (c mod cols g) = Some " " /\
     grid_get (board g) (r mod rows g) (c mod cols g) = Some (Count 0)) ->
  reveal frames r c g = reveal frames (r mod rows g) (c mod cols g) g.
Proof.
  intros [Hb Hv] Hr Hc Hnot. destruct frames as [|frames]; [done|].
  rewrite !reveal_eq.
  rewrite <- (grid_get_wrap _ _ _ r c Hv Hr Hc) in *.
  rewrite <- (grid_get_wrap _ _ _ r c Hb Hr Hc) in *.
  rewrite <- (grid_set_wrap _ _ _ r c "M" Hv Hr Hc).
  destruct (game_over g); [done|].
  destruct (grid_get (visible_board g) r c) as [v|]; [|done].
  destruct (String.eqb_spec v " ") as [->|Hnb]; [|done]. simpl negb. cbv iota.
  destruct (grid_get (board g) r c) as [[|n]|]; [done| |done].
  rewrite <- (grid_set_wrap _ _ _ r c (str (Count n)) Hv Hr Hc).
  destruct (grid_set (visible_board g) r c (str (Count n))); [|done].
  destruct (Z.eqb_spec n 0) as [->|Hn0]; [|done].
  exfalso. now apply Hnot.
Qed.

Lemma reveal_wrap_zero r c g :
  well_shaped g -> - rows g <= r < rows g -> - cols g <= c < cols g ->
  game_over g = false ->
  grid_get (visible_board g) (r mod rows g) (c mod cols g) = Some " " ->
  grid_get (board g) (r mod rows g) (c mod cols g) = Some (Count 0) ->
  exists v',
    grid_set (visible_board g) (r mod rows g) (c mod cols g) (str (Count 0))
    = Some v' /\
    forall frames,
      reveal (S frames) r c g
      = (call frames (cascade frames (neighbors (rows g) (cols g) r c)) ;;;
         call frames check_win) (set_visible_board v' g).
Proof.
  intros [Hb Hv] Hr Hc Hover Hhid Hzero.
  rewrite <- (grid_get_wrap _ _ _ r c Hv Hr Hc) in Hhid.
  rewrite <- (grid_get_wrap _ _ _ r c Hb Hr Hc) in Hzero.
  rewrite <- (grid_set_wrap _ _ _ r c _ Hv Hr Hc).
  destruct (grid_set_readable _ _ _ r c (str (Count 0)) _ Hv Hhid) as [v' Hset].
  exists v'. split; [done|]. intros frames.
  now rewrite (reveal_count_eq frames g r c 0 v').
Qed.

(** * The specification *)

Lemma outcome_in_progress g : outcome g = InProgress <-> game_over g = false.
Proof. unfold outcome. destruct (game_over g), (win g); split; done. Qed.

Lemma outcome_terminal g :
  outcome g = Won \/ outcome g = Lost <-> game_over g = true.
Proof.
  unfold outcome. destruct (game_over g), (win g); split; try done; auto.
  all: intros [|]; done.
Qed.

Lemma visibility_hidden v : visibility v = Hidden <-> v = " ".
Proof.
  unfold visibility. destruct (String.eqb_spec v " ") as [->|Hne].
  - done.
  - destruct (v =? "F")%string; split; done.
Qed.

Lemma visibility_flagged v : visibility v = Flagged <-> v = "F".
Proof.
  unfold visibility. destruct (String.eqb_spec v " ") as [->|Hne].
  - split; done.
  - destruct (String.eqb_spec v "F") as [->|Hne']; split; done.
Qed.

Lemma visibility_at_hidden g r c :
  visibility_at g r c = Some Hidden <->
  grid_get (visible_board g) r c = Some " ".
Proof.
  unfold visibility_at. destruct (grid_get (visible_board g) r c) as [v|];
    simpl; [|split; done].
  split.
  - intros [= H]. apply visibility_hidden in H. now subst.
  - now intros [= ->].
Qed.

Lemma visibility_at_flagged g r c :
  visibility_at g r c = Some Flagged <->
  grid_get (visible_board g) r c = Some "F".
Proof.
  unfold visibility_at. destruct (grid_get (visible_board g) r c) as [v|];
    simpl; [|split; done].
  split.
  - intros [= H]. apply visibility_flagged in H. now subst.
  - now intros [= ->].
Qed.

Lemma corner33_constructed : construct 3 3 1 [(0, 0)] = Ok tt corner33.
Proof. reflexivity. Qed.

Lemma strip13_constructed : construct 1 3 1 [(0, 0)] = Ok tt strip13.
Proof. reflexivity. Qed.

Lemma corner33_reachable : reachable corner33.
Proof. eapply reach_construct, corner33_constructed. Qed.

Lemma strip13_reachable : reachable strip13.
Proof. eapply reach_construct, strip13_constructed. Qed.

Lemma run_game_over frames cmds g :
  game_over g = true -> run (S frames) cmds g = Ok tt g.
Proof.
  intros Hover. unfold run, for_each.
  induction cmds as [|cmd cmds IH]; [done|].
  cbn [for_fold].
  now rewrite (bind_Ok _ _ _ _ _ (exec_game_over frames cmd g Hover)).
Qed.

Lemma run_one frames cmd g : run frames [cmd] g = exec frames cmd g.
Proof.
  unfold run, for_each. cbn [for_fold]. unfold py_bind.
  now destruct (exec frames cmd g) as [[] g'|e g'|].
Qed.

(** C6. Once the outcome is [Won] or [Lost], every call of [reveal] and of
    [flag], at any coordinates and wherever the interpreter has a frame
    for the call, returns with the object unchanged: every cell's
    visibility and both flags stay as they are, and so they do after any
    sequence of calls. *)
Theorem terminal_states_absorbing g :
  outcome g = Won \/ outcome g = Lost ->
  (forall frames r c, reveal (S frames) r c g = Ok tt g) /\
  (forall r c, flag r c g = Ok tt g) /\
  (forall frames cmds, run (S frames) cmds g = Ok tt g).
Proof.
  intros Hterm. apply outcome_terminal in Hterm.
  split; [|split]; intros.
  - now apply reveal_game_over.
  - now apply flag_game_over.
  - now apply run_game_over.
Qed.

Lemma terminal_states_absorbing_witness :
  (outcome lost33 = Won \/ outcome lost33 = Lost) /\
  (forall frames r c, reveal (S frames) r c lost33 = Ok tt lost33) /\
  (forall r c, flag r c lost33 = Ok tt lost33) /\
  (forall frames cmds, run (S frames) cmds lost33 = Ok tt lost33).
Proof.
  split; [right; reflexivity|].
  apply (terminal_states_absorbing lost33). right. reflexivity.
Defined.

Lemma reachable_shaped g : reachable g -> well_shaped g.
Proof. intros H. apply reachable_sound in H. apply H. Qed.

Lemma visibility_at_set g r c v' x :
  grid_get v' r c = Some x ->
  visibility_at (set_visible_board v' g) r c = Some (visibility x).
Proof. intros H. unfold visibility_at. simpl. now rewrite H. Qed.

(** C8. In a game in progress [flag] turns a hidden in-range cell into a
    flagged one and a flagged one into a hidden one; on a revealed cell, or
    once the game is over, it changes nothing.  It never changes another
    cell, the layout or the outcome, and applied twice to a cell that is
    not revealed it gives the object back as it was. *)
Theorem flag_two_state_cycle g r c :
  reachable g -> in_range g r c ->
  (exists g', flag r c g = Ok tt g' /\
     same_layout g g' /\ game_over g' = game_over g /\ win g' = win g /\
     same_visible_except g g' r c /\
     (outcome g = InProgress -> visibility_at g r c = Some Hidden ->
      visibility_at g' r c = Some Flagged) /\
     (outcome g = InProgress -> visibility_at g r c = Some Flagged ->
      visibility_at g' r c = Some Hidden) /\
     (visibility_at g r c = Some Revealed \/ outcome g <> InProgress ->
      g' = g)) /\
  (outcome g = InProgress -> visibility_at g r c <> Some Revealed ->
   (flag r c ;;; flag r c) g = Ok tt g).
Proof.
  intros Hreach Hrc. pose proof (reachable_shaped g Hreach) as Hs.
  destruct (flag_in_range g r c Hs Hrc) as (g' & Hrun & Hcases).
  destruct Hcases as [->|(Hover & old & new & v' & Hold & Hset & -> & Hon)].
  - split.
    + exists g. split; [done|]. split; [now repeat split|].
      split; [done|]. split; [done|]. split; [now intros r' c' _ _|].
      destruct (game_over g) eqn:Hover.
      { split; [|split]; try done; intros Hin; apply outcome_in_progress in Hin;
          congruence. }
      destruct (visible_in_range g r c Hs Hrc) as [v Hv].
      split; [|split]; try done.
      * intros _ Hh. apply visibility_at_hidden in Hh.
        destruct (flag_hidden g r c Hs Hrc Hover Hh) as (v' & Hset & Hrun').
        rewrite Hrun in Hrun'. injection Hrun' as Hg.
        destruct (write_visible_in_range g r c Hs Hrc "F")
          as (v'' & Hset' & _ & _ & Hget & _).
        assert (v'' = v') as -> by congruence.
        pose proof (visibility_at_set g r c v' "F" Hget) as Hvis'.
        now rewrite <- Hg in Hvis'.
      * intros _ Hf. apply visibility_at_flagged in Hf.
        destruct (flag_flagged g r c Hs Hrc Hover Hf) as (v' & Hset & Hrun').
        rewrite Hrun in Hrun'. injection Hrun' as Hg.
        destruct (write_visible_in_range g r c Hs Hrc " ")
          as (v'' & Hset' & _ & _ & Hget & _).
        assert (v'' = v') as -> by congruence.
        pose proof (visibility_at_set g r c v' " " Hget) as Hvis'.
        now rewrite <- Hg in Hvis'.
    + intros Hin Hnr. apply outcome_in_progress in Hin.
      destruct (visible_in_range g r c Hs Hrc) as [v Hv].
      destruct (visibility v) eqn:Hvis.
      * apply visibility_hidden in Hvis as ->.
        destruct (flag_hidden g r c Hs Hrc Hin Hv) as (v' & Hset & Hrun').
        assert (Hg : set_visible_board v' g = g) by congruence.
        rewrite (bind_Ok _ _ _ _ _ Hrun'). now rewrite Hg.
      * apply visibility_flagged in Hvis as ->.
        destruct (flag_flagged g r c Hs Hrc Hin Hv) as (v' & Hset & Hrun').
        assert (Hg : set_visible_board v' g = g) by congruence.
        rewrite (bind_Ok _ _ _ _ _ Hrun'). now rewrite Hg.
      * exfalso. apply Hnr. unfold visibility_at. now rewrite Hv, <- Hvis.
  - destruct (write_visible_in_range g r c Hs Hrc new)
      as (v'' & Hset' & _ & Hs' & Hget & Hother).
    assert (v'' = v') as -> by congruence.
    assert (Hold' : visibility_at g r c = Some (visibility old)).
    { unfold visibility_at. now rewrite Hold. }
    assert (Hnew' : visibility_at (set_visible_board v' g) r c
                    = Some (visibility new)) by now apply visibility_at_set.
    split.
    + eexists. split; [exact Hrun|]. split; [now repeat split|].
      split; [done|]. split; [done|]. split; [done|].
      rewrite Hold', Hnew'.
      destruct Hon as [[-> ->]|[-> ->]]; (split; [|split]); try done;
        (intros [|Hno]; [done|]; exfalso; now apply Hno, outcome_in_progress).
    + intros _ _. rewrite (bind_Ok _ _ _ _ _ Hrun).
      assert (Hback : grid_set v' r c old = Some (visible_board g)).
      { destruct Hs as [_ Hv], Hrc as [Hr Hc].
        eapply grid_set_back; eauto. }
      assert (Hrc' : in_range (set_visible_board v' g) r c) by exact Hrc.
      destruct Hon as [[-> ->]|[-> ->]].
      * destruct (flag_flagged _ r c Hs' Hrc' Hover Hget) as (w & Hw & ->).
        simpl in Hw. assert (w = visible_board g) as -> by congruence.
        now destruct g.
      * destruct (flag_hidden _ r c Hs' Hrc' Hover Hget) as (w & Hw & ->).
        simpl in Hw. assert (w = visible_board g) as -> by congruence.
        now destruct g.
Qed.

Lemma flag_two_state_cycle_witness :
  reachable corner33 /\ in_range corner33 1 2 /\
  (flag 1 2 ;;; flag 1 2) corner33 = Ok tt corner33.
Proof.
  split; [exact corner33_reachable|]. split; [unfold in_range; simpl; lia|].
  apply (flag_two_state_cycle corner33 1 2).
  - exact corner33_reachable.
  - unfold in_range; simpl; lia.
  - reflexivity.
  - vm_compute. discriminate.
Defined.

(** C4. In a game in progress, revealing a hidden in-range hazard cell,
    wherever the interpreter has a frame for the call, makes that one cell
    show the mine, sets the outcome to [Lost] and does nothing else: no
    other cell's visibility changes, the layout is kept and [win] stays
    false. *)
Theorem reveal_hazard_loses g r c :
  reachable g -> in_range g r c -> outcome g = InProgress ->
  is_hazard g r c -> visibility_at g r c = Some Hidden ->
  exists g',
    (forall frames, reveal (S frames) r c g = Ok tt g') /\
    (forall frames, run (S frames) [Reveal r c] g = Ok tt g') /\
    grid_get (visible_board g') r c = Some (str Mine) /\
    visibility_at g' r c = Some Revealed /\
    outcome g' = Lost /\ win g' = false /\
    same_layout g g' /\ same_visible_except g g' r c.
Proof.
  intros Hreach Hrc Hin Hhaz Hhid.
  pose proof (reachable_sound g Hreach) as ([Hs _] & Hwo & _).
  apply outcome_in_progress in Hin. apply visibility_at_hidden in Hhid.
  assert (Hwin : win g = false).
  { destruct (win g); [|done]. now rewrite Hwo in Hin. }
  destruct (write_visible_in_range g r c Hs Hrc "M")
    as (v' & Hset & _ & _ & Hget & Hother).
  exists (set_visible_board v' (set_game_over true g)).
  assert (Hrun : forall frames, reveal (S frames) r c g
                 = Ok tt (set_visible_board v' (set_game_over true g))).
  { intros frames.
    destruct (reveal_mine g r c Hs Hrc frames Hin Hhid Hhaz) as (w & Hw & ->).
    congruence. }
  split; [exact Hrun|].
  split; [intros frames; rewrite run_one; exact (Hrun frames)|].
  split; [exact Hget|].
  split; [unfold visibility_at; simpl; now rewrite Hget|].
  split; [unfold outcome; simpl; now rewrite Hwin|].
  split; [exact Hwin|]. split; [now repeat split|]. exact Hother.
Qed.

Lemma reveal_hazard_loses_witness :
  reachable corner33 /\ in_range corner33 0 0 /\
  outcome corner33 = InProgress /\ is_hazard corner33 0 0 /\
  visibility_at corner33 0 0 = Some Hidden /\
  exists g', (forall frames, reveal (S frames) 0 0 corner33 = Ok tt g') /\
    (forall frames, run (S frames) [Reveal 0 0] corner33 = Ok tt g') /\
    grid_get (visible_board g') 0 0 = Some (str Mine) /\
    visibility_at g' 0 0 = Some Revealed /\
    outcome g' = Lost /\ win g' = false /\
    same_layout corner33 g' /\ same_visible_except corner33 g' 0 0.
Proof.
  assert (Hrc : in_range corner33 0 0) by (unfold in_range; simpl; lia).
  split; [exact corner33_reachable|]. split; [exact Hrc|].
  split; [reflexivity|]. split; [reflexivity|]. split; [reflexivity|].
  apply (reveal_hazard_loses corner33 0 0 corner33_reachable Hrc);
    reflexivity.
Defined.

(** C2, the claim as stated fails: Python resolves a negative index from
    the end of the list.  On the fresh 3x3 game the coordinates [(-1, -1)]
    are outside the board, yet [flag] returns normally and has flagged the
    cell [(2, 2)], and [reveal], with the two frames it needs or more,
    returns normally having uncovered [(2, 2)] and, through the neighbours
    of [(-1, -1)], the hazard at [(0, 0)]. *)
Lemma negative_index_counterexample :
  reachable corner33 /\ ~ in_range corner33 (-1) (-1) /\
  flag (-1) (-1) corner33
  = Ok tt (set_visible_board
             [[" "; " "; " "]; [" "; " "; " "]; [" "; " "; "F"]] corner33) /\
  forall limit,
    reveal (2 + limit) (-1) (-1) corner33
    = Ok tt (set_game_over true (set_visible_board
               [["M"; " "; " "]; [" "; " "; " "]; [" "; " "; "0"]] corner33)).
Proof.
  split; [exact corner33_reachable|]. split.
  - unfold in_range. simpl. lia.
  - split; [reflexivity|]. intros limit. vm_compute. reflexivity.
Qed.

(** C2, amended. In a reachable game in progress, [reveal] and [flag] at
    coordinates with [r] outside [[-rows, rows)] or [c] outside
    [[-cols, cols)] raise [IndexError] and leave the object as it was; once
    the game is over they return without an error and without a change.
    Coordinates inside those bounds are never rejected, they denote the
    cell [(r mod rows, c mod cols)]: [flag] is [flag] at that cell and
    returns; [reveal] raises no [IndexError] (it returns, or it raises
    [RecursionError], which it can only with no more frames than there are
    hidden cells), and it is [reveal] at that cell unless the cell is
    hidden and counts 0 in a game in progress: it then uncovers the cell
    and cascades over the in-range neighbours of [(r, c)] as given. *)
Theorem out_of_bounds_raises g r c :
  reachable g ->
  ((r < - rows g \/ rows g <= r) \/ (c < - cols g \/ cols g <= c) ->
   (outcome g = InProgress ->
    (forall frames, reveal (S frames) r c g = Raise IndexError g) /\
    flag r c g = Raise IndexError g) /\
   (outcome g <> InProgress ->
    (forall frames, reveal (S frames) r c g = Ok tt g) /\
    flag r c g = Ok tt g)) /\
  (- rows g <= r < rows g -> - cols g <= c < cols g ->
   in_range g (r mod rows g) (c mod cols g) /\
   flag r c g = flag (r mod rows g) (c mod cols g) g /\
   (exists g', flag r c g = Ok tt g') /\
   (forall frames,
      (exists g', reveal frames r c g = Ok tt g') \/
      (exists g', reveal frames r c g = Raise RecursionError g' /\
                  (frames <= hidden_total (visible_board g))%nat)) /\
   (~ (outcome g = InProgress /\
       visibility_at g (r mod rows g) (c mod cols g) = Some Hidden /\
       grid_get (board g) (r mod rows g) (c mod cols g) = Some (Count 0)) ->
    forall frames,
      reveal frames r c g = reveal frames (r mod rows g) (c mod cols g) g) /\
   (outcome g = InProgress ->
    visibility_at g (r mod rows g) (c mod cols g) = Some Hidden ->
    grid_get (board g) (r mod rows g) (c mod cols g) = Some (Count 0) ->
    exists v',
      grid_set (visible_board g) (r mod rows g) (c mod cols g)
        (str (Count 0)) = Some v' /\
      forall frames,
        reveal (S frames) r c g
        = (call frames (cascade frames (neighbors (rows g) (cols g) r c)) ;;;
           call frames check_win) (set_visible_board v' g))).
Proof.
  intros Hreach. pose proof (reachable_shaped g Hreach) as Hs.
  pose proof Hs as [Hb Hv]. split.
  - intros Hout. split.
    + intros Hin. apply outcome_in_progress in Hin.
      pose proof (grid_get_outside _ _ _ r c Hv Hout) as Hnone.
      split.
      * intros frames. now rewrite reveal_eq, Hin, Hnone.
      * now rewrite flag_eq, Hin, Hnone.
    + intros Hterm.
      assert (Hover : game_over g = true).
      { destruct (game_over g) eqn:E; [done|].
        exfalso. now apply Hterm, outcome_in_progress. }
      split; [intros frames; now apply reveal_game_over
             |now apply flag_game_over].
  - intros Hr Hc.
    destruct (grid_get_readable _ _ _ r c Hv Hr Hc) as [v Hget].
    split; [|split; [|split; [|split; [|split]]]].
    + unfold in_range. split; apply Z.mod_pos_bound; lia.
    + rewrite !flag_eq.
      rewrite <- (grid_get_wrap _ _ _ r c Hv Hr Hc).
      now rewrite <- !(grid_set_wrap _ _ _ r c _ Hv Hr Hc).
    + rewrite flag_eq, Hget. destruct (game_over g); [now exists g|].
      destruct (grid_set_readable _ _ _ r c "F" _ Hv Hget) as [v1 ->].
      destruct (grid_set_readable _ _ _ r c " " _ Hv Hget) as [v2 ->].
      destruct (v =? " ")%string; [eauto|]. destruct (v =? "F")%string; eauto.
    + intros frames.
      assert (Hread : game_over g = true \/
                      grid_get (visible_board g) r c <> None)
        by (right; congruence).
      pose proof (reveal_no_raise frames r c g Hs Hread) as Hno.
      pose proof (reveal_settles frames r c g) as Hset.
      destruct (reveal frames r c g) as [[] g'|e g'|]; simpl in Hno, Hset.
      * left. now exists g'.
      * right. exists g'. subst e. split; [done|]. now apply Hset.
      * done.
    + intros Hnot frames. apply reveal_wrap; try done.
      intros (Hover & Hhid & Hzero). apply Hnot.
      split; [now apply outcome_in_progress|].
      split; [now apply visibility_at_hidden|done].
    + intros Hin Hhid Hzero.
      apply outcome_in_progress in Hin. apply visibility_at_hidden in Hhid.
      now apply reveal_wrap_zero.
Qed.

Lemma out_of_bounds_raises_witness :
  reachable corner33 /\
  (forall frames,
     reveal (S frames) 3 0 corner33 = Raise IndexError corner33) /\
  flag 3 0 corner33 = Raise IndexError corner33.
Proof.
  split; [exact corner33_reachable|].
  apply (out_of_bounds_raises corner33 3 0 corner33_reachable).
  - simpl. lia.
  - reflexivity.
Defined.

(** ** Construction without a guard *)

Lemma construct_after_place nrows ncols n draws g1 :
  place_loop draws 0 (init_fields nrows ncols n) = Ok tt g1 ->
  exists g, construct nrows ncols n draws = Ok tt g.
Proof.
  intros Hplace. unfold construct, _place_mines.
  rewrite (bind_Ok _ _ _ _ _ Hplace).
  pose proof (place_loop_sat draws 0 _ (init_fields_shaped nrows ncols n)
                (mine_total_init nrows ncols n)) as Hsat.
  rewrite Hplace in Hsat. destruct Hsat as [Hre _].
  assert (Hs1 : well_shaped g1).
  { eapply reboarded_shaped; [apply init_fields_shaped|exact Hre]. }
  pose proof (calculate_numbers_sat g1 Hs1) as Hcalc.
  apply returns_Ok in Hcalc as ([] & g & Hrun & _). eauto.
Qed.

Lemma construct_hazards nrows ncols n draws g r c :
  construct nrows ncols n draws = Ok tt g -> in_range g r c ->
  (Z.max 0 n = 0 -> ~ is_hazard g r c) /\
  (0 <= nrows -> 0 <= ncols -> Z.max 0 n = nrows * ncols -> is_hazard g r c).
Proof.
  intros Hcon Hrc.
  destruct (construct_sat _ _ _ _ _ Hcon)
    as ((R & C & _) & _ & _ & _ & g1 & Htotal & Hd1 & Hcells).
  specialize (Hcells r c Hrc).
  assert (Hrc1 : 0 <= r < nrows /\ 0 <= c < ncols)
    by (unfold in_range in Hrc; now rewrite R, C in Hrc).
  destruct Hrc1 as [Hr Hc].
  destruct (grid_get_in_range _ _ _ r c Hd1 Hr Hc) as (? & x & _ & _ & Hx).
  pose proof (grid_get_in_concat _ _ _ _ Hx) as Hin.
  unfold is_hazard. rewrite Hcells. unfold mine_at. simpl. rewrite Hx.
  unfold mine_total in Htotal. split.
  - intros H0. assert (Hz : count is_mine (concat (board g1)) = 0%nat) by lia.
    pose proof (count_zero is_mine _ x Hz Hin) as Hfree.
    destruct x; [done|]. done.
  - intros Hnr Hnc Hfull.
    assert (Hlen : count is_mine (concat (board g1)) = length (concat (board g1))).
    { rewrite (length_concat_dims _ _ _ Hd1).
      assert (Z.of_nat (Z.to_nat nrows * Z.to_nat ncols) = nrows * ncols)
        by (rewrite Nat2Z.inj_mul; lia).
      lia. }
    pose proof (count_full is_mine _ x Hlen Hin) as Hmine.
    now destruct x.
Qed.

(** C3, the claim as stated fails: construction with
    [num_mines = rows * cols] neither fails nor hangs.  On a 1x1 board with
    one mine the first draw fills the board and the constructor returns an
    engine whose only cell is a hazard. *)
Lemma saturated_board_counterexample :
  1 >= 1 * 1 /\
  construct 1 1 1 [(0, 0)]
  = Ok tt {| rows := 1; cols := 1; num_mines := 1;
             board := [[Mine]]; visible_board := [[" "]];
             game_over := false; win := false |}.
Proof. split; [lia|reflexivity]. Qed.

(** C3, amended. The constructor has no guard and never reports an invalid
    configuration.  With [num_mines <= 0] it returns an engine without
    hazards, whatever the dimensions.  With [num_mines > 0] and a
    non-positive dimension the constructor raises [ValueError] in the
    first turn of the sampling loop, before any cell is written: with
    [rows <= 0] it is the first call of [random.randint], for the row,
    that raises; with [rows > 0] and [cols <= 0] that call returns a row
    and the second call, for the column, raises.  With positive dimensions
    and [num_mines > rows * cols] the sampling loop never ends.  With
    [num_mines = rows * cols] it never fails: it returns, with every cell
    a hazard, as soon as the draws have hit every cell. *)
Theorem construction_is_unguarded nrows ncols n :
  (n <= 0 -> forall draws, exists g,
     construct nrows ncols n draws = Ok tt g /\
     forall r c, in_range g r c -> ~ is_hazard g r c) /\
  (0 < n -> nrows <= 0 -> forall d draws,
     randint 0 (nrows - 1) d.1 (init_fields nrows ncols n)
     = Raise ValueError (init_fields nrows ncols n) /\
     construct nrows ncols n (d :: draws)
     = Raise ValueError (init_fields nrows ncols n)) /\
  (0 < n -> 0 < nrows -> ncols <= 0 -> forall d draws,
     (exists row, 0 <= row < nrows /\
        randint 0 (nrows - 1) d.1 (init_fields nrows ncols n)
        = Ok row (init_fields nrows ncols n)) /\
     randint 0 (ncols - 1) d.2 (init_fields nrows ncols n)
     = Raise ValueError (init_fields nrows ncols n) /\
     construct nrows ncols n (d :: draws)
     = Raise ValueError (init_fields nrows ncols n)) /\
  (0 < nrows -> 0 < ncols -> nrows * ncols < n -> forall draws,
     construct nrows ncols n draws = Unfinished) /\
  (0 < nrows -> 0 < ncols -> n = nrows * ncols ->
     (forall draws,
        construct nrows ncols n draws = Unfinished \/
        exists g, construct nrows ncols n draws = Ok tt g /\
                  forall r c, in_range g r c -> is_hazard g r c) /\
     (forall draws,
        (forall r c, 0 <= r < nrows -> 0 <= c < ncols ->
           exists d, In d draws /\ (d.1 mod nrows, d.2 mod ncols) = (r, c)) ->
        exists g, construct nrows ncols n draws = Ok tt g)).
Proof.
  set (g0 := init_fields nrows ncols n).
  assert (Hs0 : well_shaped g0) by apply init_fields_shaped.
  assert (Hk0 : Z.of_nat (mine_total (board g0)) = 0) by apply mine_total_init.
  split; [|split; [|split; [|split]]].
  - intros Hn draws.
    assert (Hplace : place_loop draws 0 g0 = Ok tt g0).
    { destruct draws as [|[v1 v2] draws]; simpl; unfold py_bind, gets; simpl;
        destruct (Z.ltb_spec 0 n); try lia; done. }
    destruct (construct_after_place _ _ _ _ _ Hplace) as [g Hg].
    exists g. split; [done|]. intros r c Hrc.
    apply (construct_hazards _ _ _ _ _ r c Hg Hrc). lia.
  - intros Hn Hdim [v1 v2] draws.
    assert (Hr : nrows - 1 < 0) by lia.
    split; [now apply randint_empty|].
    unfold construct, _place_mines.
    apply bind_Raise. fold g0. simpl. unfold py_bind at 1, gets at 1. simpl.
    destruct (Z.ltb_spec 0 n); [|lia].
    unfold py_bind at 1, gets at 1. simpl.
    now rewrite (bind_Raise _ _ _ _ _ (randint_empty _ _ _ _ Hr)).
  - intros Hn Hnr Hnc [v1 v2] draws.
    assert (Hr : 0 <= nrows - 1) by lia.
    assert (Hc : ncols - 1 < 0) by lia.
    destruct (randint_in 0 (nrows - 1) v1 g0 Hr) as (r & Hrow & Hrand).
    split; [exists r; split; [lia|exact Hrand]|].
    split; [now apply randint_empty|].
    unfold construct, _place_mines.
    apply bind_Raise. fold g0. simpl. unfold py_bind at 1, gets at 1. simpl.
    destruct (Z.ltb_spec 0 n); [|lia].
    unfold py_bind at 1, gets at 1. simpl.
    rewrite (bind_Ok _ _ _ _ _ Hrand). unfold py_bind at 1, gets at 1. simpl.
    now rewrite (bind_Raise _ _ _ _ _ (randint_empty _ _ _ _ Hc)).
  - intros Hnr Hnc Hn draws. unfold construct, _place_mines.
    apply bind_Unfinished. fold g0.
    pose proof (place_loop_sat draws 0 g0 Hs0 Hk0) as Hsat.
    destruct (place_loop draws 0 g0) as [[] g1|e g1|]; simpl in Hsat.
    + exfalso. destruct Hsat as [Hre Hcount].
      pose proof Hre as (_ & _ & _ & _ & _ & _ & Hd).
      pose proof (mine_total_le _ _ _ Hd) as Hle. simpl in *. lia.
    + exfalso. simpl in Hsat. lia.
    + done.
  - intros Hnr Hnc Hn. split.
    + intros draws.
      pose proof (place_loop_sat draws 0 g0 Hs0 Hk0) as Hsat.
      destruct (place_loop draws 0 g0) as [[] g1|e g1|] eqn:Hplace;
        simpl in Hsat.
      * right. destruct (construct_after_place _ _ _ _ _ Hplace) as [g Hg].
        exists g. split; [done|]. intros r c Hrc.
        apply (construct_hazards _ _ _ _ _ r c Hg Hrc); lia.
      * exfalso. lia.
      * left. unfold construct, _place_mines. now apply bind_Unfinished.
    + intros draws Hcover.
      pose proof (place_loop_sat draws 0 g0 Hs0 Hk0) as Hsat.
      destruct (place_loop draws 0 g0) as [[] g1|e g1|] eqn:Hplace;
        simpl in Hsat.
      * eapply construct_after_place; eauto.
      * exfalso. lia.
      * exfalso.
        destruct (place_loop_starved draws 0 g0 Hs0) as (r & c & Hrc & _ & Hmiss);
          simpl; try lia; try done.
        destruct Hrc as [Hr Hc].
        destruct (Hcover r c Hr Hc) as (d & Hin & Hd).
        now apply (Hmiss d Hin).
Qed.

Lemma construction_is_unguarded_witness :
  (exists g, construct 2 2 (-1) [] = Ok tt g /\
             forall r c, in_range g r c -> ~ is_hazard g r c) /\
  construct 0 3 1 [(0, 0)] = Raise ValueError (init_fields 0 3 1) /\
  construct 3 0 1 [(0, 0)] = Raise ValueError (init_fields 3 0 1) /\
  construct 1 1 2 [(0, 0); (0, 0)] = Unfinished /\
  (exists g, construct 1 1 1 [(0, 0)] = Ok tt g).
Proof.
  split; [|split; [|split; [|split]]].
  - apply (construction_is_unguarded 2 2 (-1)). lia.
  - apply (proj1 (proj2 (construction_is_unguarded 0 3 1))); lia.
  - apply (proj1 (proj2 (proj2 (construction_is_unguarded 3 0 1)))); lia.
  - apply (construction_is_unguarded 1 1 2); lia.
  - apply (construction_is_unguarded 1 1 1); try lia.
    intros r c Hr Hc. exists (0, 0). split; [now left|].
    replace r with 0 by lia. replace c with 0 by lia. reflexivity.
Defined.

(** C7. In the constructed engine the integer stored for a non-hazard cell
    is the number of hazards among its up to eight neighbours inside the
    board, a number between 0 and 8; and no sequence of calls of [reveal]
    and [flag], whatever the coordinates and the frames, and whether the
    calls return or raise, writes [board] (or [rows], [cols],
    [num_mines]): the layout and the counts stay as constructed. *)
Theorem adjacency_counts nrows ncols n draws g :
  construct nrows ncols n draws = Ok tt g ->
  (forall r c, in_range g r c -> ~ is_hazard g r c ->
     grid_get (board g) r c = Some (Count (adjacent_hazards g r c)) /\
     0 <= adjacent_hazards g r c <= 8) /\
  (forall frames cmds,
     sat (run frames cmds g) (fun _ g' => same_layout g g')
         (fun _ g' => same_layout g g') False).
Proof.
  intros Hcon.
  destruct (construct_sat _ _ _ _ _ Hcon) as (_ & _ & _ & [Hs Hn] & _). split.
  - intros r c Hrc Hsafe. split; [|apply adjacent_hazards_bounds].
    destruct (board_in_range g r c Hs Hrc) as [[|m] Hb]; [done|].
    rewrite Hb, <- mines_around_adjacent. do 2 f_equal. now apply Hn.
  - intros frames cmds.
    assert (Hkeep : keeps_layout (run frames cmds)).
    { apply keeps_for_fold. intros cmd _. apply keeps_exec. }
    specialize (Hkeep g). pose proof (run_finishes frames cmds g) as Hfin.
    now destruct (run frames cmds g).
Qed.

Lemma adjacency_counts_witness :
  construct 3 3 1 [(0, 0)] = Ok tt corner33 /\
  (forall r c, in_range corner33 r c -> ~ is_hazard corner33 r c ->
     grid_get (board corner33) r c
     = Some (Count (adjacent_hazards corner33 r c)) /\
     0 <= adjacent_hazards corner33 r c <= 8) /\
  (forall frames cmds,
     sat (run frames cmds corner33) (fun _ g' => same_layout corner33 g')
         (fun _ g' => same_layout corner33 g') False).
Proof.
  split; [reflexivity|].
  apply (adjacency_counts 3 3 1 [(0, 0)] corner33). reflexivity.
Defined.

Lemma hazard_revealed_not_none g :
  hazard_revealed g -> ~ no_hazard_revealed g.
Proof.
  intros (r & c & Hrc & Hhaz & Hvis) Hnone. unfold visibility_at in Hvis.
  destruct (grid_get (visible_board g) r c) as [v|] eqn:Hv; [|done].
  injection Hvis as Hvis. now apply (Hnone r c v Hrc Hhaz Hv).
Qed.

(** C9, the claim as stated fails for calls that the code does not reject.
    On the 1x3 game with its hazard at [(0, 0)], [reveal(-1, -1)] uncovers
    the cell [(0, 2)], which counts 0, and cascades over the neighbours of
    [(-1, -1)], that is to [(0, 0)]: the nested call reveals the hazard and
    returns, and the win check of the outer call then finds one cell
    showing [' '] and sets [win].  The state shows a hazard and is won.
    The call needs two frames. *)
Lemma wrapped_reveal_counterexample :
  reachable strip13 /\
  (forall limit,
     run (2 + limit) [Reveal (-1) (-1)] strip13 = Ok tt strip13_wrapped) /\
  hazard_revealed strip13_wrapped /\
  win strip13_wrapped = true /\ outcome strip13_wrapped = Won.
Proof.
  split; [exact strip13_reachable|].
  split; [intros limit; vm_compute; reflexivity|]. split.
  - exists 0, 0. split; [unfold in_range; simpl; lia|]. split; reflexivity.
  - split; reflexivity.
Qed.

(** C9, amended. In every state reached from a constructed engine by calls
    at in-range coordinates, whether they return or run out of frames,
    [win] implies [game_over], a won game shows no hazard, and a state
    that shows a hazard is [Lost] with [win] false and stays exactly so
    under every further sequence of calls, whatever their coordinates: no
    such state is both won and lost. *)
Theorem won_and_lost_exclusive g :
  reachable_in_range g ->
  (win g = true -> game_over g = true) /\
  (outcome g = Won -> ~ hazard_revealed g) /\
  (hazard_revealed g ->
     outcome g = Lost /\ win g = false /\
     forall frames cmds, run (S frames) cmds g = Ok tt g).
Proof.
  intros Hreach.
  pose proof (reachable_in_range_inv g Hreach) as (_ & Hwo & Hnone & Hwnone & _).
  split; [exact Hwo|]. split.
  - intros Hwon Hrev. apply (hazard_revealed_not_none g Hrev).
    apply Hwnone. unfold outcome in Hwon.
    destruct (game_over g), (win g); done.
  - intros Hrev. pose proof (hazard_revealed_not_none g Hrev) as Hnot.
    assert (Hover : game_over g = true).
    { destruct (game_over g); [done|]. exfalso. now apply Hnot, Hnone. }
    assert (Hwin : win g = false).
    { destruct (win g); [|done]. exfalso. now apply Hnot, Hwnone. }
    split; [unfold outcome; now rewrite Hover, Hwin|].
    split; [done|]. intros frames cmds. now apply run_game_over.
Qed.

Lemma lost33_reachable : reachable_in_range lost33.
Proof.
  apply (in_range_exec corner33 1 (Reveal 0 0)).
  - eapply in_range_construct, corner33_constructed.
  - unfold cmd_in_range, in_range. simpl. lia.
  - reflexivity.
Qed.

Lemma won_and_lost_exclusive_witness :
  reachable_in_range lost33 /\ hazard_revealed lost33 /\
  outcome lost33 = Lost /\ win lost33 = false /\
  forall frames cmds, run (S frames) cmds lost33 = Ok tt lost33.
Proof.
  assert (Hrev : hazard_revealed lost33).
  { exists 0, 0. split; [unfold in_range; simpl; lia|]. split; reflexivity. }
  split; [exact lost33_reachable|]. split; [exact Hrev|].
  apply (won_and_lost_exclusive lost33 lost33_reachable). exact Hrev.
Defined.

(** C10. In a reachable state, a call of [reveal] at in-range coordinates
    only ever calls [reveal], through its cascade, at in-range coordinates.
    On a non-hazard cell, and whatever the number of frames the
    interpreter allows, the call returns, or it is cut short by
    [RecursionError], which it can be only with no more frames than there
    are hidden cells; it raises nothing else (no index is out of the
    grid), and in the state it leaves, returning or raising, it has
    uncovered no hazard cell and has not set the outcome to [Lost]. *)
Theorem cascade_is_safe g r c :
  reachable g -> in_range g r c ->
  (forall frames p, visits frames r c g p -> in_range g p.1 p.2) /\
  (forall i j, In (i, j) (neighbors (rows g) (cols g) r c) ->
               in_range g i j) /\
  (~ is_hazard g r c -> forall frames,
     exists g',
       (reveal frames r c g = Ok tt g' \/
        reveal frames r c g = Raise RecursionError g' /\
        (frames <= hidden_total (visible_board g))%nat) /\
       uncovers g g' /\
       (forall i j, in_range g i j -> is_hazard g i j ->
          grid_get (visible_board g') i j = grid_get (visible_board g) i j) /\
       (outcome g' = Lost -> outcome g = Lost)).
Proof.
  intros Hreach Hrc. pose proof (reachable_sound g Hreach) as (Hwf & _).
  split; [|split].
  - intros frames p Hvis. now apply (visits_in_range frames r c g p).
  - intros i j Hin. apply in_neighbors in Hin. apply Hin.
  - intros Hsafe frames.
    pose proof (reveal_safe frames g r c Hwf Hrc Hsafe) as Hsat.
    assert (Hharmless : forall g', uncovers g g' ->
              (forall i j, in_range g i j -> is_hazard g i j ->
                 grid_get (visible_board g') i j
                 = grid_get (visible_board g) i j) /\
              (outcome g' = Lost -> outcome g = Lost)).
    { intros g' Hunc.
      pose proof (unc_cells _ _ Hunc) as Cells.
      pose proof (unc_flags _ _ Hunc) as Flags. split.
      - intros i j Hij Hhaz.
        destruct (Cells i j Hij) as [E|(_ & n & Hb & _)]; [done|].
        unfold is_hazard in Hhaz. congruence.
      - unfold outcome. destruct Flags as [[-> ->]|[-> ->]]; done. }
    destruct (reveal frames r c g) as [[] g'|e g'|]; simpl in Hsat.
    + exists g'. split; [now left|]. split; [done|]. now apply Hharmless.
    + destruct Hsat as (-> & Hunc & Hf).
      exists g'. split; [now right|]. split; [done|]. now apply Hharmless.
    + done.
Qed.

(** The recursion limit does cut a cascade short: with four frames,
    [reveal(2, 2)] on the fresh 3x3 game raises [RecursionError] and leaves
    the game in progress with two non-hazard cells still hidden. *)
Lemma cascade_cut_short_33 :
  reveal 4 2 2 corner33
  = Raise RecursionError
      (set_visible_board
         [[" "; "1"; "0"]; ["1"; "1"; "0"]; [" "; "0"; "0"]] corner33).
Proof. reflexivity. Qed.

Lemma cascade_is_safe_witness :
  reachable corner33 /\ in_range corner33 2 2 /\ ~ is_hazard corner33 2 2 /\
  forall frames,
    exists g',
      (reveal frames 2 2 corner33 = Ok tt g' \/
       reveal frames 2 2 corner33 = Raise RecursionError g' /\
       (frames <= hidden_total (visible_board corner33))%nat) /\
      uncovers corner33 g' /\
      (forall i j, in_range corner33 i j -> is_hazard corner33 i j ->
         grid_get (visible_board g') i j
         = grid_get (visible_board corner33) i j) /\
      (outcome g' = Lost -> outcome corner33 = Lost).
Proof.
  assert (Hrc : in_range corner33 2 2) by (unfold in_range; simpl; lia).
  assert (Hsafe : ~ is_hazard corner33 2 2) by (vm_compute; discriminate).
  split; [exact corner33_reachable|]. split; [exact Hrc|].
  split; [exact Hsafe|].
  exact (proj2 (proj2 (cascade_is_safe corner33 2 2 corner33_reachable Hrc))
           Hsafe).
Defined.

(** C1, the code differs from the claim: [check_win] counts the cells
    showing [' '] only, so a flag changes the count.  On the 1x3 game with
    its hazard at [(0, 0)]: after [flag(0, 1)] and [reveal(0, 2)] the game
    is declared [Won] although the non-hazard cell [(0, 1)] is flagged, not
    revealed; and after [flag(0, 0)] and [reveal(0, 2)] every non-hazard
    cell is revealed and the game is still in progress.  The calls need
    three frames. *)
Theorem flags_break_the_win_check :
  (reachable strip13 /\
   (forall limit,
      run (3 + limit) [Flag 0 1; Reveal 0 2] strip13 = Ok tt strip13_won) /\
   outcome strip13_won = Won /\
   ~ is_hazard strip13_won 0 1 /\
   visibility_at strip13_won 0 1 = Some Flagged) /\
  ((forall limit,
      run (3 + limit) [Flag 0 0; Reveal 0 2] strip13
      = Ok tt strip13_cleared) /\
   outcome strip13_cleared = InProgress /\
   forall r c, in_range strip13_cleared r c ->
     ~ is_hazard strip13_cleared r c ->
     visibility_at strip13_cleared r c = Some Revealed).
Proof.
  split.
  - split; [exact strip13_reachable|].
    split; [intros limit; vm_compute; reflexivity|].
    split; [reflexivity|]. split; [vm_compute; discriminate|reflexivity].
  - split; [intros limit; vm_compute; reflexivity|]. split; [reflexivity|].
    intros r c [Hr Hc] Hsafe. simpl in Hr, Hc.
    assert (r = 0) as -> by lia.
    assert (c = 0 \/ c = 1 \/ c = 2) as [->|[->| ->]] by lia.
    + exfalso. apply Hsafe. reflexivity.
    + reflexivity.
    + reflexivity.
Qed.

(** C5, the code differs from the claim: the win check at the end of each
    nested [reveal] can end the game in the middle of a cascade, and the
    rest of the region stays hidden.  On the 3x3 game with its hazard at
    [(0, 0)] flagged, [reveal(2, 2)] stops with [(2, 0)] hidden, although
    [(2, 0)] counts 0 and is a neighbour of the revealed cell [(2, 1)],
    which counts 0 too.  The calls need five frames. *)
Theorem win_cuts_the_cascade :
  (forall limit,
     run (5 + limit) [Flag 0 0; Reveal 2 2] corner33 = Ok tt corner33_cut) /\
  outcome corner33_cut = Won /\
  grid_get (board corner33_cut) 2 1 = Some (Count 0) /\
  visibility_at corner33_cut 2 1 = Some Revealed /\
  In (2, 0) (neighbors 3 3 2 1) /\
  grid_get (board corner33_cut) 2 0 = Some (Count 0) /\
  visibility_at corner33_cut 2 0 = Some Hidden.
Proof.
  split; [intros limit; vm_compute; reflexivity|].
  repeat split; try reflexivity. vm_compute. tauto.
Qed.

(** ** What the code guarantees where the claims C1 and C5 fail *)

(** The win check is a check on the cells showing [' ']: a game played at in-range
    coordinates
    is [Won] only with as many such cells as [num_mines]. *)
Lemma won_counts_hidden g :
  reachable_in_range g -> outcome g = Won ->
  Z.of_nat (hidden_total (visible_board g)) = num_mines g.
Proof.
  intros Hreach Hwon.
  pose proof (reachable_in_range_inv g Hreach) as (_ & _ & _ & _ & Hcount & _).
  apply Hcount. unfold outcome in Hwon. destruct (game_over g), (win g); done.
Qed.

(** The cells of the region of a non-hazard hidden cell are in range,
    hidden and not hazards. *)
Lemma region_cells g r c p :
  well_formed g -> in_range g r c ->
  grid_get (visible_board g) r c = Some " " -> ~ is_hazard g r c ->
  in_region g r c p ->
  in_range g p.1 p.2 /\ grid_get (visible_board g) p.1 p.2 = Some " " /\
  exists n, grid_get (board g) p.1 p.2 = Some (Count n).
Proof.
  intros [Hs Hn] Hrc Hhid Hsafe Hreg.
  induction Hreg as [|p q _ IH Hzero Hin Hq].
  - split; [done|]. split; [done|].
    destruct (board_in_range g r c Hs Hrc) as [[|n] Hb]; [done|eauto].
  - destruct IH as (Hp & _ & _). destruct q as [i j].
    pose proof Hin as Hin'. apply in_neighbors in Hin' as [Hij _].
    split; [done|]. split; [done|].
    pose proof (Hn p.1 p.2 0 Hp Hzero) as Hcount. unfold mines_around in Hcount.
    assert (Hfree : mine_at (board g) (i, j) = false).
    { eapply count_zero; [|exact Hin]. lia. }
    unfold mine_at in Hfree. simpl in *.
    destruct (board_in_range g i j Hs Hij) as [[|n] Hb]; [|eauto].
    now rewrite Hb in Hfree.
Qed.

(** X11. The cascade in general.  Revealing a hidden non-hazard cell of a
    game in progress, with more frames than there are hidden cells,
    returns normally and changes no cell outside the region of that cell.
    If the game is still in progress afterwards, or if no hazard was
    flagged, every cell of the region is uncovered and shows its count. *)
Lemma cascade_uncovers_region g r c frames :
  reachable_in_range g -> in_range g r c -> outcome g = InProgress ->
  ~ is_hazard g r c -> visibility_at g r c = Some Hidden ->
  (hidden_total (visible_board g) < frames)%nat ->
  exists g', reveal frames r c g = Ok tt g' /\
    (forall p, in_range g p.1 p.2 -> ~ in_region g r c p ->
       grid_get (visible_board g') p.1 p.2
       = grid_get (visible_board g) p.1 p.2) /\
    (outcome g' = InProgress \/
     (forall i j, in_range g i j -> is_hazard g i j ->
        visibility_at g i j = Some Hidden) ->
     forall p, in_region g r c p ->
       exists n, grid_get (board g) p.1 p.2 = Some (Count n) /\
         grid_get (visible_board g') p.1 p.2 = Some (str (Count n))).
Proof.
  intros Hreach Hrc Hin Hsafe Hhid Hframes.
  pose proof (reachable_in_range_inv g Hreach) as (Hwf & Hwo & _ & _ & _ & Hmines).
  apply outcome_in_progress in Hin. apply visibility_at_hidden in Hhid.
  assert (Hwin : win g = false).
  { destruct (win g); [|done]. now rewrite Hwo in Hin. }
  pose proof (reveal_region_returns frames g r c Hwf Hrc Hsafe Hframes)
    as Hret.
  apply returns_Ok in Hret as ([] & g' & Hrun & Hunc & Hsound & Hclosed).
  exists g'. split; [exact Hrun|].
  pose proof (unc_layout _ _ Hunc) as (R & C & N & B).
  pose proof (unc_cells _ _ Hunc) as Cells.
  split.
  - intros p Hp Hout. destruct (Cells p.1 p.2 Hp) as [E|(Hv & n & _ & E)]; [done|].
    exfalso. apply Hout, Hsound; [done|]. unfold changed. rewrite E, Hv.
    intros [= Hs]. exact (str_neq_blank n Hs).
  - intros Hcond p Hreg.
    assert (Hshown : grid_get (visible_board g') p.1 p.2 <> Some " ").
    { destruct (game_over g') eqn:Hover'.
      - (* the game ended: it is won, on as many hidden cells as hazards *)
        destruct Hcond as [Hprog|Hflags];
          [apply outcome_in_progress in Hprog; congruence|].
        assert (Hwin' : win g' = true).
        { destruct (unc_flags _ _ Hunc) as [[Fo _]|[_ Fw]]; congruence. }
        destruct (unc_win _ _ Hunc Hwin') as [|Hcount]; [congruence|].
        destruct (region_cells g r c p Hwf Hrc Hhid Hsafe Hreg)
          as (Hp & _ & n & Hb).
        intros Hhid'.
        assert (Hwf' : well_formed g') by (eapply uncovers_well_formed; eauto).
        assert (Hhaz : is_hazard g' p.1 p.2).
        { apply hidden_are_mines; [apply Hwf'| | |
            unfold in_range; now rewrite R, C|done].
          - intros i j Hij Hhaz.
            assert (Hij0 : in_range g i j)
              by (unfold in_range; now rewrite <- R, <- C).
            unfold is_hazard in Hhaz. rewrite B in Hhaz.
            destruct (Cells i j Hij0) as [->|(_ & m & Hb' & _)]; [|congruence].
            now apply visibility_at_hidden, Hflags.
          - rewrite B. lia. }
        unfold is_hazard in Hhaz. congruence.
      - (* the game goes on: the region is closed *)
        destruct (Hclosed eq_refl) as [Hcl Hstart].
        induction Hreg as [|p q Hreg IH Hzero Hq Hqhid]; [done|].
        destruct (region_cells g r c p Hwf Hrc Hhid Hsafe Hreg)
          as (Hp & Hphid & _).
        apply (Hcl p q Hp); [|done|done].
        unfold changed. rewrite Hphid. exact IH. }
    destruct (region_cells g r c p Hwf Hrc Hhid Hsafe Hreg) as (Hp & Hv & _).
    destruct (Cells p.1 p.2 Hp) as [E|(_ & n & Hb & E)]; [congruence|eauto].
Qed.

(** * The helper methods on their own *)

(** ** [_get_neighbors] *)

Lemma NoDup_flat_map_if {A B} (t : A -> bool) (f : A -> B) l :
  (forall x y, In x l -> In y l -> f x = f y -> x = y) -> List.NoDup l ->
  List.NoDup (flat_map (fun d => if t d then [f d] else []) l).
Proof.
  intros Hinj Hnd. induction Hnd as [|d l Hd _ IH]; simpl; [constructor|].
  assert (IH' : List.NoDup (flat_map (fun d => if t d then [f d] else []) l)).
  { apply IH. intros x y Hx Hy. apply Hinj; now right. }
  destruct (t d); [simpl|exact IH']. constructor; [|exact IH'].
  intros Hin. apply in_flat_map in Hin as (d' & Hd' & Hin).
  destruct (t d'); [|done]. destruct Hin as [Heq|[]].
  apply Hd. rewrite (Hinj d d'); [done|now left|now right|done].
Qed.

Lemma length_flat_map_if {A B} (t : A -> bool) (f : A -> B) l :
  (length (flat_map (fun d => if t d then [f d] else []) l) <= length l)%nat.
Proof.
  induction l as [|d l IH]; simpl; [done|].
  rewrite length_app. destruct (t d); simpl; lia.
Qed.

Lemma offsets8_NoDup : List.NoDup offsets8.
Proof.
  unfold offsets8.
  repeat (constructor; [simpl; intros H; repeat destruct H as [H|H]; done|]).
  constructor.
Qed.

Lemma neighbors_NoDup nrows ncols r c :
  List.NoDup (neighbors nrows ncols r c).
Proof.
  rewrite neighbors_offsets.
  apply (NoDup_flat_map_if
           (fun d => (0 <=? r + d.1) && (r + d.1 <? nrows) &&
                     ((0 <=? c + d.2) && (c + d.2 <? ncols)))
           (fun d => (r + d.1, c + d.2))); [|apply offsets8_NoDup].
  intros [x1 x2] [y1 y2] _ _ [= H1 H2]. simpl in *. f_equal; lia.
Qed.

Lemma neighbors_length nrows ncols r c :
  (length (neighbors nrows ncols r c) <= 8)%nat.
Proof.
  rewrite neighbors_offsets.
  apply (length_flat_map_if
           (fun d => (0 <=? r + d.1) && (r + d.1 <? nrows) &&
                     ((0 <=? c + d.2) && (c + d.2 <? ncols)))
           (fun d => (r + d.1, c + d.2))).
Qed.

Lemma neighbors_inner nrows ncols r c :
  1 <= r < nrows - 1 -> 1 <= c < ncols - 1 ->
  length (neighbors nrows ncols r c) = 8%nat.
Proof.
  intros Hr Hc. rewrite neighbors_offsets. unfold offsets8. simpl.
  repeat match goal with
  | |- context [?a <=? ?b] => destruct (Z.leb_spec a b); [|lia]
  | |- context [?a <? ?b] => destruct (Z.ltb_spec a b); [|lia]
  end.
  reflexivity.
Qed.

(** X1. [_get_neighbors(r, c)] only reads the object and returns, in a list
    without repetition, exactly the cells of the grid at distance one of
    [(r, c)] (the larger of the row and column distances is 1): at most 8
    of them, all 8 for a cell off the border, and never [(r, c)] itself.
    The relation is symmetric between cells of the grid. *)
Theorem get_neighbors_exact g r c :
  _get_neighbors r c g = Ok (neighbors (rows g) (cols g) r c) g /\
  (forall i j, In (i, j) (neighbors (rows g) (cols g) r c) <->
     in_range g i j /\ Z.max (Z.abs (i - r)) (Z.abs (j - c)) = 1) /\
  List.NoDup (neighbors (rows g) (cols g) r c) /\
  (length (neighbors (rows g) (cols g) r c) <= 8)%nat /\
  (1 <= r < rows g - 1 -> 1 <= c < cols g - 1 ->
   length (neighbors (rows g) (cols g) r c) = 8%nat) /\
  (forall i j, in_range g r c ->
     In (i, j) (neighbors (rows g) (cols g) r c) ->
     In (r, c) (neighbors (rows g) (cols g) i j)).
Proof.
  split; [reflexivity|]. split; [|split; [|split; [|split]]].
  - intros i j. rewrite in_neighbors. unfold in_range. split.
    + intros (Hij & Hd & Hne). split; [done|].
      assert (i <> r \/ j <> c) by (destruct (decide (i = r)); [right|left];
                                    congruence).
      lia.
    + intros (Hij & Hd). split; [done|]. split; [lia|].
      intros [= -> ->]. lia.
  - apply neighbors_NoDup.
  - apply neighbors_length.
  - apply neighbors_inner.
  - intros i j Hrc Hin. apply in_neighbors in Hin as (Hij & Hd & Hne).
    apply in_neighbors. split; [exact Hrc|]. split; [lia|congruence].
Qed.

(** ** [__init__] *)

(** X2. When the constructor returns, the object has the dimensions and
    the number of hazards it was given, both grids have these dimensions,
    the game is in progress with [win] false, every cell is hidden, and the
    board holds exactly [max(0, num_mines)] hazards, which therefore fit
    on the grid. *)
Theorem constructed_engine nrows ncols n draws g :
  construct nrows ncols n draws = Ok tt g ->
  (rows g = nrows /\ cols g = ncols /\ num_mines g = n) /\
  (outcome g = InProgress /\ win g = false) /\
  (has_dims (board g) nrows ncols /\ has_dims (visible_board g) nrows ncols) /\
  (forall r c, in_range g r c -> visibility_at g r c = Some Hidden) /\
  Z.of_nat (mine_total (board g)) = Z.max 0 n /\
  Z.max 0 n <= Z.max 0 nrows * Z.max 0 ncols.
Proof.
  intros Hcon.
  pose proof (construct_mine_total _ _ _ _ _ Hcon) as Hmines.
  destruct (construct_sat _ _ _ _ _ Hcon)
    as ((R & C & N) & (Hover & Hwin) & Hvis & [[Hb Hv] _] & _).
  rewrite R, C in Hb, Hv. rewrite N in Hmines.
  split; [done|]. split; [|split; [done|split; [|split; [done|]]]].
  - unfold outcome. now rewrite Hover.
  - intros r c [Hr Hc]. unfold visibility_at. rewrite Hvis. simpl.
    rewrite grid_get_init by lia. reflexivity.
  - rewrite <- Hmines. unfold mine_total.
    pose proof (count_le_length is_mine (concat (board g))) as Hle.
    rewrite (length_concat_dims _ _ _ Hb) in Hle. nia.
Qed.

Lemma constructed_engine_witness :
  construct 3 3 1 [(0, 0)] = Ok tt corner33 /\
  Z.of_nat (mine_total (board corner33)) = Z.max 0 1 /\
  Z.max 0 1 <= Z.max 0 3 * Z.max 0 3.
Proof.
  split; [reflexivity|].
  apply (constructed_engine 3 3 1 [(0, 0)] corner33). reflexivity.
Defined.

(** ** [_calculate_numbers] *)

(** Two grids of the same dimensions with the same cells are the same. *)
Lemma grid_ext {A} (gr1 gr2 : list (list A)) nr nc :
  has_dims gr1 nr nc -> has_dims gr2 nr nc ->
  (forall r c, 0 <= r < nr -> 0 <= c < nc ->
     grid_get gr1 r c = grid_get gr2 r c) ->
  gr1 = gr2.
Proof.
  intros Hd1 Hd2 Hcells. apply list_eq_Forall2.
  assert (Hall : Forall2 (Forall2 eq) gr1 gr2).
  { apply (grid_Forall2_intro eq gr1 gr2 nr nc Hd1 Hd2).
    intros r c x y Hr Hc Hx Hy. specialize (Hcells r c Hr Hc). congruence. }
  eapply Forall2_impl; [|exact Hall].
  intros row1 row2 Hrow. now apply list_eq_Forall2.
Qed.

Lemma mine_at_numbered g g' r c :
  grid_get (board g') r c = Some (numbered_cell g r c) ->
  mine_at (board g') (r, c) = mine_at (board g) (r, c).
Proof.
  intros Hget. unfold mine_at at 1. simpl. rewrite Hget.
  pose proof (numbered_cell_mine g r c) as H.
  destruct (numbered_cell g r c); simpl in H; now rewrite <- H.
Qed.

(** X3. On any object whose grids have the recorded dimensions,
    [_calculate_numbers] returns; it leaves the hazards, the visibility
    grid and the flags as they are and stores in every other cell the
    number of hazards among its neighbours, whatever was stored there.
    Calling it again changes nothing. *)
Theorem calculate_numbers_idempotent g :
  well_shaped g ->
  exists g', _calculate_numbers g = Ok tt g' /\
    reboarded g g' /\
    (forall r c, in_range g r c ->
       (is_hazard g' r c <-> is_hazard g r c) /\
       (~ is_hazard g r c ->
        grid_get (board g') r c = Some (Count (adjacent_hazards g' r c)))) /\
    numbered g' /\
    _calculate_numbers g' = Ok tt g'.
Proof.
  intros Hs.
  pose proof (calculate_numbers_sat g Hs) as Hret.
  apply returns_Ok in Hret as ([] & g' & Hrun & Hre & Hcells).
  pose proof Hre as (R & C & N & V & O & W & Hd').
  assert (Hs' : well_shaped g') by (eapply reboarded_shaped; eauto).
  assert (Hmine : forall p, in_range g p.1 p.2 ->
            mine_at (board g') p = mine_at (board g) p).
  { intros [i j] Hp. apply mine_at_numbered. now apply Hcells. }
  assert (Haround : forall r c, mines_around g' r c = mines_around g r c).
  { intros r c. unfold mines_around. rewrite R, C. f_equal.
    apply count_ext_in. intros [i j] Hin. apply Hmine.
    apply in_neighbors in Hin. apply Hin. }
  assert (Hsame : forall r c, in_range g r c ->
            numbered_cell g' r c = numbered_cell g r c).
  { intros r c Hrc. unfold numbered_cell.
    rewrite (Hmine (r, c) Hrc), Haround. done. }
  exists g'. split; [exact Hrun|]. split; [exact Hre|].
  split; [|split].
  - intros r c Hrc. specialize (Hcells r c Hrc).
    destruct (board_in_range g r c Hs Hrc) as [b Hb].
    unfold is_hazard. rewrite Hcells, Hb. unfold numbered_cell, mine_at.
    simpl. rewrite Hb. split.
    + destruct b; split; try done.
    + intros Hsafe. destruct b; [done|].
      rewrite <- mines_around_adjacent, Haround. done.
  - intros r c n Hrc Hget.
    assert (Hrc0 : in_range g r c) by (unfold in_range; now rewrite <- R, <- C).
    rewrite (Hcells r c Hrc0) in Hget. unfold numbered_cell in Hget.
    rewrite Haround. destruct (mine_at (board g) (r, c)); congruence.
  - pose proof (calculate_numbers_sat g' Hs') as Hret'.
    apply returns_Ok in Hret' as ([] & g'' & Hrun' & Hre' & Hcells').
    rewrite Hrun'. f_equal.
    pose proof Hre' as (R' & C' & N' & V' & O' & W' & Hd'').
    assert (Hboard : board g'' = board g').
    { apply (grid_ext _ _ (rows g') (cols g') Hd'' (proj1 Hs')).
      intros r c Hr Hc.
      assert (Hrc0 : in_range g r c) by (unfold in_range; now rewrite <- R, <- C).
      rewrite (Hcells' r c (conj Hr Hc)), (Hsame r c Hrc0).
      symmetry. now apply Hcells. }
    destruct g' as [r1 c1 n1 b1 v1 o1 w1], g'' as [r2 c2 n2 b2 v2 o2 w2].
    simpl in *. congruence.
Qed.

(** A 1x3 board holding numbers that are not the counts. *)
Lemma calculate_numbers_idempotent_witness :
  well_shaped (set_board [[Mine; Count 7; Count (-2)]] strip13) /\
  exists g', _calculate_numbers (set_board [[Mine; Count 7; Count (-2)]] strip13)
             = Ok tt g' /\
    _calculate_numbers g' = Ok tt g'.
Proof.
  assert (Hs : well_shaped (set_board [[Mine; Count 7; Count (-2)]] strip13)).
  { split; (split; [reflexivity|]); repeat constructor. }
  split; [exact Hs|].
  destruct (calculate_numbers_idempotent _ Hs) as (g' & H1 & _ & _ & _ & H2).
  exists g'. now split.
Defined.

(** ** [check_win] *)

(** X4. [check_win] returns on every object whose visibility grid has the
    recorded dimensions.  It compares the number of cells showing [' ']
    with [num_mines]: when they are equal it sets [win] and [game_over],
    otherwise it changes nothing.  It looks at no flag placed by the player
    and not at [game_over]; it never writes a grid; and a second call
    changes nothing more. *)
Theorem check_win_counts_blank g :
  well_shaped g ->
  exists g', check_win g = Ok tt g' /\
    same_layout g g' /\ visible_board g' = visible_board g /\
    (Z.of_nat (hidden_total (visible_board g)) = num_mines g ->
     game_over g' = true /\ win g' = true) /\
    (Z.of_nat (hidden_total (visible_board g)) <> num_mines g -> g' = g) /\
    check_win g' = Ok tt g'.
Proof.
  intros Hs. rewrite check_win_eq by done.
  destruct (Z.eqb_spec (Z.of_nat (hidden_total (visible_board g)))
                       (num_mines g)) as [Heq|Hne].
  - eexists. split; [reflexivity|]. split; [now repeat split|].
    split; [done|]. split; [done|]. split; [done|].
    rewrite check_win_eq by (destruct Hs; now split). simpl.
    apply Z.eqb_eq in Heq. now rewrite Heq.
  - exists g. split; [done|]. split; [now repeat split|].
    split; [done|]. split; [done|]. split; [done|].
    rewrite check_win_eq by done. apply Z.eqb_neq in Hne. now rewrite Hne.
Qed.

Lemma check_win_counts_blank_witness :
  well_shaped strip13_cleared /\
  exists g', check_win strip13_cleared = Ok tt g' /\ g' = strip13_cleared.
Proof.
  assert (Hs : well_shaped strip13_cleared).
  { split; (split; [reflexivity|]); repeat constructor. }
  split; [exact Hs|].
  destruct (check_win_counts_blank _ Hs) as (g' & H1 & _ & _ & _ & H2 & _).
  exists g'. split; [exact H1|]. apply H2. vm_compute. discriminate.
Defined.

(** * [reveal] on its own *)

(** ** More frames than needed *)

Section Approx.
Context {A B : Type}.

Lemma approx_refl (m : Py A) : approx m m.
Proof. intros g. now right. Qed.

Lemma approx_bind (m m' : Py A) (k k' : A -> Py B) :
  approx m m' -> (forall a, approx (k a) (k' a)) ->
  approx (py_bind m k) (py_bind m' k').
Proof.
  intros Hm Hk g. unfold py_bind.
  destruct (Hm g) as [[g' ->]| ->]; [left; now exists g'|].
  destruct (m g) as [a g'|e g'|]; [apply Hk|now right|now right].
Qed.

Lemma approx_if (b : bool) (m1 m1' m2 m2' : Py A) :
  approx m1 m1' -> approx m2 m2' ->
  approx (if b then m1 else m2) (if b then m1' else m2').
Proof. now destruct b. Qed.

Lemma approx_call frames (m : Py A) :
  approx (call frames m) (call (S frames) m).
Proof. destruct frames; intros g; [left; now exists g|now right]. Qed.
End Approx.

Lemma approx_for_fold {X A} (l : list X) (body body' : X -> A -> Py A) a :
  (forall x a, approx (body x a) (body' x a)) ->
  approx (for_fold l body a) (for_fold l body' a).
Proof.
  intros Hbody. revert a. induction l as [|x l IH]; intros a; simpl.
  - apply approx_refl.
  - apply approx_bind; [apply Hbody|]. intros a'. apply IH.
Qed.

Lemma reveal_S frames r c :
  reveal (S frames) r c
  = (let* over := gets game_over in
     if over then py_ret tt else
     let* v := read_visible r c in
     if negb (v =? " ")%string then py_ret tt else
     let* b := read_board r c in
     if cell_eqb b Mine then
       modify (set_game_over true) ;;; write_visible r c "M"
     else
       let* b := read_board r c in
       write_visible r c (str b) ;;;
       let* b := read_board r c in
       (if cell_eqb b (Count 0) then
          let* ns := call frames (_get_neighbors r c) in cascade frames ns
        else py_ret tt) ;;;
       call frames check_win).
Proof. reflexivity. Qed.

(** One more frame changes nothing for a call that had enough. *)
Lemma reveal_approx frames : forall r c,
  approx (reveal frames r c) (reveal (S frames) r c).
Proof.
  induction frames as [|frames IH]; intros r c; [intros g; left; now exists g|].
  rewrite (reveal_S (S frames)), (reveal_S frames).
  apply approx_bind; [apply approx_refl|]. intros over.
  apply approx_if; [apply approx_refl|].
  apply approx_bind; [apply approx_refl|]. intros v.
  apply approx_if; [apply approx_refl|].
  apply approx_bind; [apply approx_refl|]. intros b.
  apply approx_if; [apply approx_refl|].
  apply approx_bind; [apply approx_refl|]. intros b1.
  apply approx_bind; [apply approx_refl|]. intros _.
  apply approx_bind; [apply approx_refl|]. intros b2.
  apply approx_bind; [|intros _; apply approx_call].
  apply approx_if; [|apply approx_refl].
  apply approx_bind; [apply approx_call|]. intros ns.
  apply approx_for_fold. intros [nr nc] _.
  apply approx_bind; [apply approx_refl|]. intros v'.
  apply approx_if; [apply IH|apply approx_refl].
Qed.

Lemma reveal_more_frames frames k r c g :
  (forall g', reveal frames r c g <> Raise RecursionError g') ->
  reveal (frames + k) r c g = reveal frames r c g.
Proof.
  intros Hframes. induction k as [|k IH].
  - now rewrite Nat.add_0_r.
  - replace (frames + S k)%nat with (S (frames + k)) by lia.
    destruct (reveal_approx (frames + k) r c g) as [[g' Hun]|Heq].
    + exfalso. apply (Hframes g'). congruence.
    + now rewrite Heq.
Qed.

(** X5. The recursion limit matters only to a call that runs into it.  A
    call of [reveal], at any coordinates and in any state, that does not
    raise [RecursionError] does the same with any number of frames more.
    A call with more frames than there are cells showing [' '] does not
    raise [RecursionError], each call that gets past the guards uncovering
    a cell before it recurses: it returns or raises another exception, and
    leaves no more cells showing [' '] than it found. *)
Theorem reveal_frames_irrelevant g r c frames :
  ((forall g', reveal frames r c g <> Raise RecursionError g') ->
   forall k, reveal (frames + k) r c g = reveal frames r c g) /\
  ((hidden_total (visible_board g) < frames)%nat ->
   (forall k, reveal (frames + k) r c g = reveal frames r c g) /\
   sat (reveal frames r c g)
     (fun _ g' => (hidden_total (visible_board g')
                   <= hidden_total (visible_board g))%nat)
     (fun e g' => e <> RecursionError /\
                  (hidden_total (visible_board g')
                   <= hidden_total (visible_board g))%nat)
     False).
Proof.
  split.
  - intros Hno k. now apply reveal_more_frames.
  - intros Hframes. split.
    + intros k. apply reveal_more_frames. intros g'.
      now apply reveal_enough_frames.
    + eapply sat_mono; [apply reveal_settles| | |]; cbv beta; try done.
      intros e g' [Hh He]. split; [|done]. intros ->.
      specialize (He eq_refl). lia.
Qed.

Lemma reveal_frames_irrelevant_witness :
  (hidden_total (visible_board corner33) < 12)%nat /\
  forall k, reveal (12 + k) 2 2 corner33 = reveal 12 2 2 corner33.
Proof.
  assert (H : (hidden_total (visible_board corner33) < 12)%nat)
    by (vm_compute; lia).
  split; [exact H|].
  exact (proj1 (proj2 (reveal_frames_irrelevant corner33 2 2 12) H)).
Defined.

(** ** The win check at the end of [reveal] *)

Lemma shaped_cascade frames ns : keeps_shaped (cascade frames ns).
Proof.
  apply shaped_for_fold. intros [nr nc] _.
  apply shaped_bind; [apply shaped_read_visible|]. intros v.
  apply shaped_if; [apply shaped_reveal|apply shaped_ret].
Qed.

(** A call of [reveal] that gets to its last line has just compared the
    cells showing [' '] with [num_mines]. *)
Lemma reveal_count_checked frames g r c n g' :
  well_shaped g -> (win g = true -> game_over g = true) ->
  game_over g = false ->
  grid_get (visible_board g) r c = Some " " ->
  grid_get (board g) r c = Some (Count n) ->
  reveal frames r c g = Ok tt g' ->
  Z.of_nat (hidden_total (visible_board g')) = num_mines g ->
  game_over g' = true /\ win g' = true.
Proof.
  intros [Hb Hv] Hwo Hover Hvis Hboard Hrun Hcount.
  destruct frames as [|frames]; [done|].
  rewrite reveal_eq, Hover, Hvis, Hboard in Hrun. simpl negb in Hrun.
  cbv iota in Hrun.
  destruct (grid_set (visible_board g) r c (str (Count n))) as [v'|] eqn:Hset;
    [|done].
  destruct frames as [|frames].
  { exfalso. revert Hrun. unfold py_bind. now destruct (n =? 0). }
  rewrite !call_S in Hrun.
  set (g1 := set_visible_board v' g) in *.
  assert (Hs1 : shaped g1).
  { split; [|exact Hwo]. simpl. eapply grid_set_dims; eauto. }
  set (m := if n =? 0
            then cascade (S frames) (neighbors (rows g) (cols g) r c)
            else py_ret tt) in *.
  assert (Hkl : keeps_layout m).
  { unfold m. destruct (n =? 0); [apply keeps_cascade|apply keeps_ret]. }
  assert (Hks : keeps_shaped m).
  { unfold m. destruct (n =? 0); [apply shaped_cascade|apply shaped_ret]. }
  specialize (Hkl g1). specialize (Hks g1 Hs1).
  unfold py_bind in Hrun.
  destruct (m g1) as [[] g2|e g2|]; [|done|done]. simpl in Hkl, Hks.
  destruct Hkl as (R & C & N & B), Hks as [Hv2 _]. simpl in R, C, N, B.
  assert (Hs2 : well_shaped g2) by (split; [now rewrite B, R, C|done]).
  rewrite check_win_eq in Hrun by done. injection Hrun as <-.
  destruct (Z.eqb_spec (Z.of_nat (hidden_total (visible_board g2)))
                       (num_mines g2)) as [Heq|Hne]; [done|].
  exfalso. apply Hne. now rewrite N.
Qed.

(** X7. In a game in progress, revealing a hidden in-range cell that is not
    a hazard never loses: when the call returns, the game is [Won] exactly
    when the cells then showing [' '] (flagged cells not counted) are as
    many as [num_mines], and otherwise it is still in progress; and the
    call does return when it has more frames than there are hidden
    cells. *)
Theorem reveal_wins_iff g r c frames :
  reachable g -> in_range g r c -> outcome g = InProgress ->
  ~ is_hazard g r c -> visibility_at g r c = Some Hidden ->
  (forall g', reveal frames r c g = Ok tt g' ->
     outcome g'
     = if Z.of_nat (hidden_total (visible_board g')) =? num_mines g
       then Won else InProgress) /\
  ((hidden_total (visible_board g) < frames)%nat ->
   exists g', reveal frames r c g = Ok tt g').
Proof.
  intros Hreach Hrc Hin Hsafe Hhid.
  pose proof (reachable_sound g Hreach) as (Hwf & Hwo & _).
  pose proof Hwf as [Hs _].
  apply outcome_in_progress in Hin. apply visibility_at_hidden in Hhid.
  assert (Hwin : win g = false).
  { destruct (win g); [|done]. now rewrite Hwo in Hin. }
  split.
  - intros g' Hrun.
    pose proof (reveal_safe frames g r c Hwf Hrc Hsafe) as Hunc.
    rewrite Hrun in Hunc. simpl in Hunc.
    destruct (board_in_range g r c Hs Hrc) as [[|n] Hb]; [done|].
    destruct (Z.eqb_spec (Z.of_nat (hidden_total (visible_board g')))
                         (num_mines g)) as [Heq|Hne].
    + destruct (reveal_count_checked _ g r c n g' Hs Hwo Hin Hhid Hb Hrun Heq)
        as [Hover' Hwin'].
      unfold outcome. now rewrite Hover', Hwin'.
    + assert (Hwin' : win g' = false).
      { destruct (win g') eqn:E; [|done].
        destruct (unc_win _ _ Hunc E) as [|]; [congruence|done]. }
      unfold outcome.
      destruct (unc_flags _ _ Hunc) as [[-> _]|[_ Fw]]; [|congruence].
      now rewrite Hin.
  - intros Hframes.
    pose proof (reveal_safe_returns frames g r c Hwf Hrc Hsafe Hframes)
      as Hret.
    apply returns_Ok in Hret as ([] & g' & Hrun & _). now exists g'.
Qed.

Lemma reveal_wins_iff_witness :
  reachable strip13 /\ in_range strip13 0 2 /\
  exists g', reveal 3 0 2 strip13 = Ok tt g' /\ outcome g' = Won.
Proof.
  assert (Hreach : reachable strip13).
  { eapply reach_construct, strip13_constructed. }
  assert (Hrc : in_range strip13 0 2) by (unfold in_range; simpl; lia).
  split; [exact Hreach|]. split; [exact Hrc|].
  assert (Hrun : reveal 3 0 2 strip13
                 = Ok tt (set_game_over true (set_win true
                     (set_visible_board [[" "; "1"; "0"]] strip13))))
    by reflexivity.
  eexists. split; [exact Hrun|].
  rewrite (proj1 (reveal_wins_iff strip13 0 2 3 Hreach Hrc eq_refl
                    ltac:(vm_compute; discriminate) eq_refl) _ Hrun).
  reflexivity.
Defined.

(** X6. In a game in progress, revealing a hidden in-range cell whose
    count is not 0 uncovers that cell and no other: with the two frames
    the call and its win check take, or more, the call returns; the cell
    then shows its count, every other cell shows what it showed, one cell
    less shows [' '], and the layout is as it was. *)
Theorem reveal_number g r c n :
  reachable g -> in_range g r c -> outcome g = InProgress ->
  visibility_at g r c = Some Hidden ->
  grid_get (board g) r c = Some (Count n) -> n <> 0 ->
  exists g', (forall limit, reveal (2 + limit) r c g = Ok tt g') /\
    same_layout g g' /\ same_visible_except g g' r c /\
    grid_get (visible_board g') r c = Some (str (Count n)) /\
    visibility_at g' r c = Some Revealed /\
    (hidden_total (visible_board g') + 1
     = hidden_total (visible_board g))%nat.
Proof.
  intros Hreach Hrc Hin Hhid Hb Hn.
  pose proof (reachable_sound g Hreach) as ([Hs _] & _).
  apply outcome_in_progress in Hin. apply visibility_at_hidden in Hhid.
  destruct (write_visible_in_range g r c Hs Hrc (str (Count n)))
    as (v' & Hset & _ & Hs' & Hget & Hother).
  pose proof (hidden_total_set _ _ r c _ Hhid (str_not_blank n) Hset) as Hh.
  assert (Hvis : visibility_at (set_visible_board v' g) r c = Some Revealed).
  { rewrite (visibility_at_set g r c v' _ Hget). now rewrite str_revealed. }
  assert (Hrun : forall limit,
            reveal (2 + limit) r c g = check_win (set_visible_board v' g)).
  { intros limit. change (2 + limit)%nat with (S (S limit)).
    rewrite (reveal_count_eq _ g r c n v') by done.
    destruct (Z.eqb_spec n 0) as [|_]; [done|]. reflexivity. }
  rewrite check_win_eq in Hrun by done.
  eexists. split; [exact Hrun|].
  destruct (Z.of_nat (hidden_total (visible_board (set_visible_board v' g)))
            =? num_mines (set_visible_board v' g)); simpl;
    (split; [now repeat split|]); (split; [exact Hother|]);
    (split; [done|]); (split; [exact Hvis|done]).
Qed.

Lemma reveal_number_witness :
  reachable corner33 /\ in_range corner33 1 1 /\
  exists g', (forall limit, reveal (2 + limit) 1 1 corner33 = Ok tt g') /\
    grid_get (visible_board g') 1 1 = Some (str (Count 1)) /\
    same_visible_except corner33 g' 1 1.
Proof.
  assert (Hreach : reachable corner33).
  { eapply reach_construct, corner33_constructed. }
  assert (Hrc : in_range corner33 1 1) by (unfold in_range; simpl; lia).
  split; [exact Hreach|]. split; [exact Hrc|].
  destruct (reveal_number corner33 1 1 1 Hreach Hrc)
    as (g' & Hrun & _ & Hother & Hget & _); try reflexivity; [lia|].
  exists g'. split; [exact Hrun|]. now split.
Defined.

(** * What any call does to the visibility grid *)

(** ** Writes at coordinates of either sign *)

(** A write at coordinates that can be read is the write at the in-range
    coordinates of the same cell. *)
Lemma grid_set_cells {A} (gr gr' : list (list A)) nr nc r c x y :
  has_dims gr nr nc -> grid_get gr r c = Some y ->
  grid_set gr r c x = Some gr' ->
  (- nr <= r < nr /\ - nc <= c < nc) /\
  (0 <= r mod nr < nr /\ 0 <= c mod nc < nc) /\
  grid_get gr (r mod nr) (c mod nc) = Some y /\
  has_dims gr' nr nc /\
  grid_get gr' (r mod nr) (c mod nc) = Some x /\
  forall r' c', 0 <= r' < nr -> 0 <= c' < nc ->
    (r', c') <> (r mod nr, c mod nc) ->
    grid_get gr' r' c' = grid_get gr r' c'.
Proof.
  intros Hd Hget Hset.
  destruct (grid_get_bounds gr nr nc r c y Hd Hget) as [Hr Hc].
  assert (Hr0 : 0 <= r mod nr < nr) by (apply Z.mod_pos_bound; lia).
  assert (Hc0 : 0 <= c mod nc < nc) by (apply Z.mod_pos_bound; lia).
  rewrite (grid_get_wrap gr nr nc r c Hd Hr Hc) in Hget.
  rewrite (grid_set_wrap gr nr nc r c x Hd Hr Hc) in Hset.
  destruct (grid_set_in_range gr nr nc _ _ x Hd Hr0 Hc0)
    as (gr'' & Hset' & Hd' & Hget' & Hother).
  assert (gr'' = gr') as -> by congruence.
  split; [done|]. split; [done|]. split; [done|]. split; [done|].
  split; [done|]. intros r' c' Hr' Hc' Hne. now apply Hother.
Qed.

(** ** [shows] is a preorder *)

Lemma shows_refl g : has_dims (visible_board g) (rows g) (cols g) -> shows g g.
Proof.
  intros Hv. split; [now repeat split|done|]. intros r c _. now left.
Qed.

Lemma str_is_shown b : str b <> " " /\ visibility (str b) = Revealed.
Proof.
  destruct b as [|n]; [split; done|].
  split; [apply str_neq_blank|apply str_revealed].
Qed.

Lemma shows_trans g1 g2 g3 : shows g1 g2 -> shows g2 g3 -> shows g1 g3.
Proof.
  intros [L1 S1 C1] [L2 S2 C2].
  destruct L1 as (Lr1 & Lc1 & Ln1 & Lb1), L2 as (Lr2 & Lc2 & Ln2 & Lb2).
  split.
  - repeat split; congruence.
  - now rewrite Lr1, Lc1 in S2.
  - intros r c Hrc.
    assert (Hrc2 : in_range g2 r c) by (unfold in_range; now rewrite Lr1, Lc1).
    destruct (C1 r c Hrc) as [E1|(V1 & b1 & B1 & E1)],
             (C2 r c Hrc2) as [E2|(V2 & b2 & B2 & E2)].
    + left. congruence.
    + right. split; [congruence|]. exists b2. split; congruence.
    + right. split; [done|]. exists b1. split; congruence.
    + exfalso. apply (proj1 (str_is_shown b1)). congruence.
Qed.

Lemma shows_shaped g g' : well_shaped g -> shows g g' -> well_shaped g'.
Proof.
  intros [Hb _] [(R & C & _ & B) Hv _]. split; rewrite ?B, R, C; done.
Qed.

(** Writing what [board] holds over a [' '], at any coordinates. *)
Lemma write_shows g r c b v' :
  well_shaped g ->
  grid_get (visible_board g) r c = Some " " ->
  grid_get (board g) r c = Some b ->
  grid_set (visible_board g) r c (str b) = Some v' ->
  forall g', same_layout g g' -> visible_board g' = v' -> shows g g'.
Proof.
  intros [Hb Hv] Hvis Hboard Hset g' Hl Hv'.
  destruct (grid_set_cells _ _ _ _ r c (str b) " " Hv Hvis Hset)
    as ((Hr & Hc) & (Hr0 & Hc0) & Hvis0 & Hd' & Hget & Hother).
  rewrite (grid_get_wrap _ _ _ r c Hb Hr Hc) in Hboard.
  split; [exact Hl|now rewrite Hv'|].
  intros r' c' [Hr' Hc']. unfold cell_shown. rewrite Hv'.
  destruct (decide ((r', c') = (r mod rows g, c mod cols g)))
    as [[= -> ->]|Hne].
  - right. split; [done|]. now exists b.
  - left. now apply Hother.
Qed.

(** ** [reveal] at any coordinates *)

Lemma check_win_shows g :
  well_shaped g -> returns (check_win g) (fun _ g' => shows g g').
Proof.
  intros Hs. rewrite check_win_eq by done. simpl.
  destruct (_ =? _); [|apply shows_refl, Hs].
  split; simpl; [now repeat split|apply Hs|]. intros r c _. now left.
Qed.

(** Whatever the coordinates and the frames, and whether it returns or
    raises, [reveal] changes a cell only by uncovering it. *)
Lemma reveal_shows frames : forall r c g,
  well_shaped g ->
  sat (reveal frames r c g) (fun _ g' => shows g g') (fun _ g' => shows g g')
      False.
Proof.
  induction frames as [|frames IH]; intros r c g Hs.
  { apply shows_refl, Hs. }
  assert (Hrefl : shows g g) by apply shows_refl, Hs.
  rewrite reveal_eq.
  destruct (game_over g) eqn:Hover; [done|].
  destruct (grid_get (visible_board g) r c) as [v|] eqn:Hv; [|done].
  destruct (String.eqb_spec v " ") as [->|Hnb]; [|done].
  simpl negb. cbv iota.
  destruct (grid_get (board g) r c) as [b|] eqn:Hb; [|done].
  destruct (grid_set_readable _ _ _ r c (str b) _ (proj2 Hs) Hv) as [v' Hset].
  destruct b as [|n].
  - (* a hazard *)
    change (str Mine) with "M" in Hset. rewrite Hset. simpl.
    apply (write_shows g r c Mine v' Hs Hv Hb Hset); [|done].
    now repeat split.
  - (* a count *)
    rewrite Hset.
    assert (H1 : shows g (set_visible_board v' g)).
    { apply (write_shows g r c (Count n) v' Hs Hv Hb Hset); [|done].
      now repeat split. }
    set (g1 := set_visible_board v' g) in *. clearbody g1.
    apply sat_bind.
    eapply sat_mono with (Q := fun _ g2 => shows g g2)
                         (E := fun _ g2 => shows g g2) (U := False).
    + destruct (n =? 0); [|exact H1].
      apply sat_call; [exact H1|].
      unfold cascade, for_each. apply for_fold_inv; [|exact H1].
      intros [nr nc] [] gk _ Hk. cbv beta in Hk.
      assert (Hsk : well_shaped gk) by (eapply shows_shaped; eauto).
      apply sat_bind.
      destruct (grid_get (visible_board gk) nr nc) as [vk|] eqn:Hvk.
      2:{ now rewrite (read_visible_None _ _ _ Hvk). }
      rewrite (read_visible_Some _ _ _ _ Hvk). simpl.
      destruct (vk =? " ")%string; [|exact Hk].
      eapply sat_mono; [apply (IH nr nc gk Hsk)| | |auto]; cbv beta;
        intros; eapply shows_trans; eauto.
    + cbv beta. intros ? g2 H2.
      assert (Hs2 : well_shaped g2) by (eapply shows_shaped; eauto).
      apply sat_call; [exact H2|].
      eapply sat_mono; [apply (check_win_shows g2 Hs2)| |done|done].
      cbv beta. intros ? g3 H3. eapply shows_trans; eauto.
    + auto.
    + auto.
Qed.

(** ** [flag] at any coordinates *)

Lemma flag_cells g r c :
  well_shaped g ->
  sat (flag r c g)
    (fun _ g' =>
       same_layout g g' /\ has_dims (visible_board g') (rows g) (cols g) /\
       game_over g' = game_over g /\ win g' = win g /\
       forall r' c', in_range g r' c' ->
         grid_get (visible_board g') r' c' = grid_get (visible_board g) r' c' \/
         (grid_get (visible_board g) r' c' = Some " " /\
          grid_get (visible_board g') r' c' = Some "F") \/
         (grid_get (visible_board g) r' c' = Some "F" /\
          grid_get (visible_board g') r' c' = Some " "))
    (fun e g' => e = IndexError /\ g' = g)
    False.
Proof.
  intros Hs. pose proof Hs as [_ Hv]. rewrite flag_eq.
  assert (Hsame : sat (Ok tt g : res unit)
    (fun _ g' =>
       same_layout g g' /\ has_dims (visible_board g') (rows g) (cols g) /\
       game_over g' = game_over g /\ win g' = win g /\
       forall r' c', in_range g r' c' ->
         grid_get (visible_board g') r' c' = grid_get (visible_board g) r' c' \/
         (grid_get (visible_board g) r' c' = Some " " /\
          grid_get (visible_board g') r' c' = Some "F") \/
         (grid_get (visible_board g) r' c' = Some "F" /\
          grid_get (visible_board g') r' c' = Some " "))
    (fun e g' => e = IndexError /\ g' = g) False).
  { simpl. split; [now repeat split|]. split; [done|]. split; [done|].
    split; [done|]. intros. now left. }
  destruct (game_over g) eqn:Hover; [exact Hsame|].
  destruct (grid_get (visible_board g) r c) as [v|] eqn:Hget; [|now simpl].
  destruct (String.eqb_spec v " ") as [->|Hnb].
  { destruct (grid_set (visible_board g) r c "F") as [v'|] eqn:Hset;
      [|now simpl].
    destruct (grid_set_cells _ _ _ _ r c "F" " " Hv Hget Hset)
      as (_ & _ & Hget0 & Hd' & Hget' & Hother).
    simpl. split; [now repeat split|]. split; [done|]. split; [done|].
    split; [done|]. intros r' c' [Hr' Hc'].
    destruct (decide ((r', c') = (r mod rows g, c mod cols g)))
      as [[= -> ->]|Hne].
    - right. left. now split.
    - left. now apply Hother. }
  destruct (String.eqb_spec v "F") as [->|Hnf]; [|exact Hsame].
  destruct (grid_set (visible_board g) r c " ") as [v'|] eqn:Hset;
    [|now simpl].
  destruct (grid_set_cells _ _ _ _ r c " " "F" Hv Hget Hset)
    as (_ & _ & Hget0 & Hd' & Hget' & Hother).
  simpl. split; [now repeat split|]. split; [done|]. split; [done|].
  split; [done|]. intros r' c' [Hr' Hc'].
  destruct (decide ((r', c') = (r mod rows g, c mod cols g)))
    as [[= -> ->]|Hne].
  - right. right. now split.
  - left. now apply Hother.
Qed.

(** ** One call *)

(** Whatever the coordinates and the frames, and whether it returns or
    raises, a call keeps what the revealed cells show, and leaves every
    cell showing [' '], ['F'] or what [board] holds. *)
Lemma exec_truthful frames cmd g :
  well_shaped g ->
  sat (exec frames cmd g)
    (fun _ g' => same_layout g g' /\ keeps_revealed g g' /\
                 (truthful g -> truthful g'))
    (fun _ g' => same_layout g g' /\ keeps_revealed g g' /\
                 (truthful g -> truthful g'))
    False.
Proof.
  intros Hs. destruct cmd as [r c|r c]; unfold exec.
  - eapply sat_mono; [apply (reveal_shows _ r c g Hs)| | |auto].
    + intros ? g' [L S C]. split; [exact L|]. split.
      * intros r' c' v Hrc Hv Hvis.
        destruct (C r' c' Hrc) as [->|(Hblank & _)]; [done|].
        rewrite Hv in Hblank. injection Hblank as ->. done.
      * intros Ht r' c' v b Hrc Hv Hb.
        destruct L as (R & C' & _ & B).
        assert (Hrc0 : in_range g r' c')
          by (unfold in_range; now rewrite <- R, <- C').
        rewrite B in Hb.
        destruct (C r' c' Hrc0) as [E|(_ & b' & Hb' & E)].
        -- rewrite E in Hv. eapply Ht; eauto.
        -- right. right. congruence.
    + intros ? g' [L S C]. split; [exact L|]. split.
      * intros r' c' v Hrc Hv Hvis.
        destruct (C r' c' Hrc) as [->|(Hblank & _)]; [done|].
        rewrite Hv in Hblank. injection Hblank as ->. done.
      * intros Ht r' c' v b Hrc Hv Hb.
        destruct L as (R & C' & _ & B).
        assert (Hrc0 : in_range g r' c')
          by (unfold in_range; now rewrite <- R, <- C').
        rewrite B in Hb.
        destruct (C r' c' Hrc0) as [E|(_ & b' & Hb' & E)].
        -- rewrite E in Hv. eapply Ht; eauto.
        -- right. right. congruence.
  - apply sat_call.
    { split; [apply same_layout_refl|]. split; [|done].
      intros r' c' v _ Hv _. exact Hv. }
    eapply sat_mono; [apply (flag_cells g r c Hs)| | |done].
    + intros ? g' (L & _ & _ & _ & C). split; [exact L|]. split.
      * intros r' c' v Hrc Hv Hvis.
        destruct (C r' c' Hrc) as [->|[(Hb & _)|(Hf & _)]]; [done| |].
        -- rewrite Hv in Hb. injection Hb as ->. done.
        -- rewrite Hv in Hf. injection Hf as ->. done.
      * intros Ht r' c' v b Hrc Hv Hb.
        destruct L as (R & C' & _ & B).
        assert (Hrc0 : in_range g r' c')
          by (unfold in_range; now rewrite <- R, <- C').
        rewrite B in Hb.
        destruct (C r' c' Hrc0) as [E|[(_ & E)|(_ & E)]].
        -- rewrite E in Hv. eapply Ht; eauto.
        -- right. left. congruence.
        -- left. congruence.
    + intros e g' [_ ->]. split; [now repeat split|]. split; [|done].
      intros r' c' v _ Hv _. exact Hv.
Qed.

Lemma keeps_revealed_trans g1 g2 g3 :
  same_layout g1 g2 -> keeps_revealed g1 g2 -> keeps_revealed g2 g3 ->
  keeps_revealed g1 g3.
Proof.
  intros (R & C & _) H12 H23 r c v Hrc Hv Hvis.
  apply H23; [unfold in_range; now rewrite R, C| |done]. now apply H12.
Qed.



Lemma construct_truthful nrows ncols n draws g :
  construct nrows ncols n draws = Ok tt g -> truthful g.
Proof.
  intros Hcon.
  destruct (construct_sat _ _ _ _ _ Hcon) as ((R & C & _) & _ & Hvis & _).
  intros r c v b [Hr Hc] Hv _. rewrite Hvis in Hv. simpl in Hv.
  rewrite grid_get_init in Hv by lia. left. congruence.
Qed.

Lemma reachable_truthful g : reachable g -> truthful g.
Proof.
  induction 1 as [nrows ncols n draws g Hcon|g frames cmd g' Hreach IH Hrun
                 |g frames cmd e g' Hreach IH Hrun].
  - eapply construct_truthful; eauto.
  - pose proof (exec_truthful frames cmd g
                  (proj1 (proj1 (reachable_sound g Hreach)))) as H.
    rewrite Hrun in H. now apply H.
  - pose proof (exec_truthful frames cmd g
                  (proj1 (proj1 (reachable_sound g Hreach)))) as H.
    rewrite Hrun in H. now apply H.
Qed.

(** X9. What the player sees is what the board holds: in every state
    reached from a constructed engine by calls of [reveal] and [flag] at
    any coordinates, returning or raising (also cut short by the
    recursion limit), every in-range cell shows [' '],
    ['F'] or the string of the value [board] holds there, that is ['M'] on
    a hazard and otherwise the number of hazards around the cell, a single
    digit from 0 to 8. *)
Theorem display_truthful g r c :
  reachable g -> in_range g r c ->
  exists v b,
    grid_get (visible_board g) r c = Some v /\
    grid_get (board g) r c = Some b /\
    (v = " " \/ v = "F" \/ v = str b) /\
    (b = Mine \/ b = Count (adjacent_hazards g r c)) /\
    0 <= adjacent_hazards g r c <= 8.
Proof.
  intros Hreach Hrc.
  pose proof (reachable_sound g Hreach) as ([Hs Hn] & _).
  destruct (visible_in_range g r c Hs Hrc) as [v Hv].
  destruct (board_in_range g r c Hs Hrc) as [b Hb].
  exists v, b. split; [done|]. split; [done|]. split; [|split].
  - eapply reachable_truthful; eauto.
  - destruct b as [|n]; [now left|right].
    rewrite <- mines_around_adjacent. f_equal. now apply Hn.
  - apply adjacent_hazards_bounds.
Qed.

Lemma display_truthful_witness :
  reachable corner33_cut /\ in_range corner33_cut 1 1 /\
  exists v b,
    grid_get (visible_board corner33_cut) 1 1 = Some v /\
    grid_get (board corner33_cut) 1 1 = Some b /\
    (v = " " \/ v = "F" \/ v = str b) /\
    (b = Mine \/ b = Count (adjacent_hazards corner33_cut 1 1)) /\
    0 <= adjacent_hazards corner33_cut 1 1 <= 8.
Proof.
  assert (Hreach : reachable corner33_cut).
  { apply (reach_return (set_visible_board
             [["F"; " "; " "]; [" "; " "; " "]; [" "; " "; " "]] corner33)
             5 (Reveal 2 2)).
    - apply (reach_return corner33 1 (Flag 0 0)).
      + eapply reach_construct, corner33_constructed.
      + reflexivity.
    - reflexivity. }
  assert (Hrc : in_range corner33_cut 1 1) by (unfold in_range; simpl; lia).
  split; [exact Hreach|]. split; [exact Hrc|].
  exact (display_truthful corner33_cut 1 1 Hreach Hrc).
Defined.

(** * Games played at in-range coordinates *)

Lemma cascade_uncovers_region_witness :
  reachable_in_range corner33 /\ in_range corner33 2 2 /\
  exists g', reveal 10 2 2 corner33 = Ok tt g' /\
    (forall p, in_range corner33 p.1 p.2 -> ~ in_region corner33 2 2 p ->
       grid_get (visible_board g') p.1 p.2
       = grid_get (visible_board corner33) p.1 p.2) /\
    (outcome g' = InProgress \/
     (forall i j, in_range corner33 i j -> is_hazard corner33 i j ->
        visibility_at corner33 i j = Some Hidden) ->
     forall p, in_region corner33 2 2 p ->
       exists n, grid_get (board corner33) p.1 p.2 = Some (Count n) /\
         grid_get (visible_board g') p.1 p.2 = Some (str (Count n))).
Proof.
  assert (Hreach : reachable_in_range corner33).
  { eapply in_range_construct, corner33_constructed. }
  assert (Hrc : in_range corner33 2 2) by (unfold in_range; simpl; lia).
  split; [exact Hreach|]. split; [exact Hrc|].
  apply (cascade_uncovers_region corner33 2 2 10 Hreach Hrc).
  - reflexivity.
  - unfold is_hazard. simpl. discriminate.
  - reflexivity.
  - vm_compute. lia.
Defined.

(** ** Losing *)

Lemma exec_lost frames g cmd :
  game_inv g -> cmd_in_range g cmd ->
  (game_over g = true -> win g = false -> hazard_revealed g) ->
  sat (exec frames cmd g)
    (fun _ g' => game_over g' = true -> win g' = false -> hazard_revealed g')
    (fun _ g' => game_over g' = true -> win g' = false -> hazard_revealed g')
    False.
Proof.
  intros (Hwf & _) Hrc IH. pose proof Hwf as [Hs _].
  destruct frames as [|frames]; [now rewrite exec_no_frame|].
  destruct (game_over g) eqn:Hover.
  { rewrite exec_game_over by done. simpl. intros _. now apply IH. }
  destruct cmd as [r c|r c]; simpl in Hrc; unfold exec.
  - eapply sat_mono; [now apply reveal_in_range| | |]; cbv beta; try done.
    + intros _ g' [[Hhaz [->|(_ & Hv & v' & Hset & ->)]]|[Hsafe Hunc]].
      * congruence.
      * intros _ _.
        destruct (write_visible_in_range g r c Hs Hrc "M")
          as (v'' & Hset' & _ & _ & Hget & _).
        assert (v'' = v') as -> by congruence.
        exists r, c. split; [exact Hrc|]. split; [exact Hhaz|].
        unfold visibility_at. simpl. now rewrite Hget.
      * destruct (unc_flags _ _ Hunc) as [[Fo _]|[_ Fw]]; congruence.
    + intros e g' (_ & Hunc & _).
      destruct (unc_flags _ _ Hunc) as [[Fo _]|[_ Fw]]; congruence.
  - rewrite call_S.
    destruct (flag_in_range g r c Hs Hrc) as (g0 & -> & Hcases). simpl.
    destruct Hcases as [->|(_ & old & new & v' & _ & _ & -> & _)];
      simpl; congruence.
Qed.

Lemma lost_shows_hazard g :
  reachable_in_range g -> game_over g = true -> win g = false ->
  hazard_revealed g.
Proof.
  induction 1 as [nrows ncols n draws g Hcon
                 |g frames cmd g' Hreach IH Hrc Hrun
                 |g frames cmd e g' Hreach IH Hrc Hrun].
  - destruct (construct_sat _ _ _ _ _ Hcon) as (_ & (Hover & _) & _).
    congruence.
  - pose proof (exec_lost frames g cmd (reachable_in_range_inv g Hreach)
                  Hrc IH) as H.
    now rewrite Hrun in H.
  - pose proof (exec_lost frames g cmd (reachable_in_range_inv g Hreach)
                  Hrc IH) as H.
    now rewrite Hrun in H.
Qed.

(** X10. In a game played at in-range coordinates, with calls that return
    or run out of frames, the outcome is [Lost] exactly when some hazard
    cell is revealed: [reveal] ends a game without a win only by
    uncovering a hazard, and a game that shows a hazard is never in
    progress or won. *)
Theorem lost_iff_hazard_revealed g :
  reachable_in_range g -> (outcome g = Lost <-> hazard_revealed g).
Proof.
  intros Hreach. split.
  - intros Hlost. unfold outcome in Hlost.
    destruct (game_over g) eqn:Hover; [|done].
    destruct (win g) eqn:Hwin; [done|]. now apply lost_shows_hazard.
  - intros Hrev.
    pose proof (reachable_in_range_inv g Hreach)
      as (_ & _ & Hnone & Hwnone & _).
    pose proof (hazard_revealed_not_none g Hrev) as Hnot.
    unfold outcome.
    destruct (game_over g); [|exfalso; now apply Hnot, Hnone].
    destruct (win g); [exfalso; now apply Hnot, Hwnone|done].
Qed.

Lemma lost_iff_hazard_revealed_witness :
  reachable_in_range lost33 /\ (outcome lost33 = Lost <-> hazard_revealed lost33).
Proof.
  split; [exact lost33_reachable|].
  exact (lost_iff_hazard_revealed lost33 lost33_reachable).
Defined.

(** ** Winning *)

Lemma not_revealed_not_flagged g r c v :
  grid_get (visible_board g) r c = Some v ->
  visibility v <> Revealed -> visibility_at g r c <> Some Flagged -> v = " ".
Proof.
  intros Hv Hrev Hflag. unfold visibility_at in Hflag. rewrite Hv in Hflag.
  simpl in Hflag. unfold visibility in *.
  destruct (String.eqb_spec v " "); [done|].
  destruct (v =? "F")%string; [now exfalso; apply Hflag|now exfalso].
Qed.

(** X12. A game played at in-range coordinates is [Won] only with as many
    cells showing [' '] as [num_mines]; and when no hazard is flagged, the
    cells of a won game that show [' '] are exactly the hazards, so every
    other cell is revealed or flagged. *)
Theorem win_without_flags g :
  reachable_in_range g -> outcome g = Won ->
  Z.of_nat (hidden_total (visible_board g)) = num_mines g /\
  ((forall r c, in_range g r c -> is_hazard g r c ->
      visibility_at g r c <> Some Flagged) ->
   forall r c, in_range g r c ->
     (visibility_at g r c = Some Hidden <-> is_hazard g r c)).
Proof.
  intros Hreach Hwon.
  pose proof (won_counts_hidden g Hreach Hwon) as Hcount.
  split; [exact Hcount|]. intros Hflags.
  pose proof (reachable_in_range_inv g Hreach)
    as ([Hs _] & _ & _ & Hwnone & _ & Hmines).
  assert (Hwin : win g = true).
  { unfold outcome in Hwon. destruct (game_over g), (win g); done. }
  specialize (Hwnone Hwin).
  assert (Hhid : forall i j, in_range g i j -> is_hazard g i j ->
            grid_get (visible_board g) i j = Some " ").
  { intros i j Hij Hhaz. destruct (visible_in_range g i j Hs Hij) as [v Hv].
    rewrite Hv. f_equal.
    apply (not_revealed_not_flagged g i j v Hv); [|now apply Hflags].
    now apply (Hwnone i j). }
  intros r c Hrc. rewrite visibility_at_hidden. split.
  - intros Hblank. apply hidden_are_mines; try done. lia.
  - now apply Hhid.
Qed.

Lemma win_without_flags_witness :
  reachable_in_range
    (set_game_over true (set_win true
       (set_visible_board [[" "; "1"; "0"]] strip13))) /\
  Z.of_nat (hidden_total [[" "; "1"; "0"]]) = 1.
Proof.
  assert (Hreach : reachable_in_range
            (set_game_over true (set_win true
               (set_visible_board [[" "; "1"; "0"]] strip13)))).
  { apply (in_range_exec strip13 3 (Reveal 0 2)).
    - eapply in_range_construct, strip13_constructed.
    - unfold cmd_in_range, in_range. simpl. lia.
    - reflexivity. }
  split; [exact Hreach|].
  exact (proj1 (win_without_flags _ Hreach eq_refl)).
Defined.

(** ** Flags and reveals together *)

(** X13. A flag protects its cell: in a game in progress, after [flag] on
    a hidden in-range cell, [reveal] on that cell returns with nothing
    changed, hazard or not; and a second [flag] then gives the object back
    as it was before the first. *)
Theorem flag_protects g r c :
  reachable g -> in_range g r c -> outcome g = InProgress ->
  visibility_at g r c = Some Hidden ->
  exists g1, flag r c g = Ok tt g1 /\
    visibility_at g1 r c = Some Flagged /\
    (forall frames, reveal (S frames) r c g1 = Ok tt g1) /\
    (forall frames,
       (flag r c ;;; reveal (S frames) r c ;;; flag r c) g = Ok tt g).
Proof.
  intros Hreach Hrc Hin Hhid.
  pose proof (reachable_sound g Hreach) as ([Hs _] & _).
  apply outcome_in_progress in Hin. apply visibility_at_hidden in Hhid.
  destruct (flag_hidden g r c Hs Hrc Hin Hhid) as (v' & Hset & Hflag).
  destruct (write_visible_in_range g r c Hs Hrc "F")
    as (v'' & Hset' & _ & Hs1 & Hget & _).
  assert (v'' = v') as -> by congruence. clear Hset'.
  set (g1 := set_visible_board v' g) in *.
  assert (Hrev : forall frames, reveal (S frames) r c g1 = Ok tt g1).
  { intros frames. apply (reveal_not_hidden _ r c g1 "F"); done. }
  exists g1. split; [exact Hflag|]. split; [|split; [exact Hrev|]].
  - unfold g1. rewrite (visibility_at_set g r c v' "F" Hget). reflexivity.
  - intros frames.
    rewrite (bind_Ok _ _ _ _ _ Hflag).
    rewrite (bind_Ok _ _ _ _ _ (Hrev frames)).
    destruct (flag_flagged g1 r c Hs1 Hrc Hin Hget) as (v2 & Hset2 & ->).
    destruct Hs as [_ Hv].
    pose proof (grid_set_back _ _ _ _ r c " " "F" Hv (proj1 Hrc) (proj2 Hrc)
                  Hhid Hset) as Hback.
    simpl in Hset2. assert (v2 = visible_board g) as -> by congruence.
    unfold g1. now destruct g.
Qed.

Lemma flag_protects_witness :
  reachable corner33 /\ in_range corner33 0 0 /\
  exists g1, flag 0 0 corner33 = Ok tt g1 /\
    visibility_at g1 0 0 = Some Flagged /\
    (forall frames, reveal (S frames) 0 0 g1 = Ok tt g1) /\
    (forall frames,
       (flag 0 0 ;;; reveal (S frames) 0 0 ;;; flag 0 0) corner33
       = Ok tt corner33).
Proof.
  assert (Hreach : reachable corner33).
  { eapply reach_construct, corner33_constructed. }
  assert (Hrc : in_range corner33 0 0) by (unfold in_range; simpl; lia).
  split; [exact Hreach|]. split; [exact Hrc|].
  apply (flag_protects corner33 0 0 Hreach Hrc); reflexivity.
Defined.

(** ** No call at in-range coordinates indexes out of the grid *)

Lemma hidden_total_cells g :
  well_shaped g ->
  (hidden_total (visible_board g)
   <= Z.to_nat (rows g) * Z.to_nat (cols g))%nat.
Proof.
  intros [_ Hv]. unfold hidden_total.
  rewrite <- (length_concat_dims _ _ _ Hv). apply count_le_length.
Qed.

Lemma exec_in_range_returns g frames cmd :
  game_inv g -> cmd_in_range g cmd ->
  (exists g', exec frames cmd g = Ok tt g') \/
  (exists g', exec frames cmd g = Raise RecursionError g' /\
     (frames <= Z.to_nat (rows g) * Z.to_nat (cols g))%nat).
Proof.
  intros (Hwf & _) Hrc.
  pose proof (hidden_total_cells g (proj1 Hwf)) as Hcells.
  destruct frames as [|frames].
  { right. exists g. split; [apply exec_no_frame|lia]. }
  destruct cmd as [r c|r c]; simpl in Hrc; unfold exec.
  - pose proof (reveal_in_range (S frames) g r c Hwf Hrc) as H.
    destruct (reveal (S frames) r c g) as [[] g'|e g'|]; simpl in H.
    + left. now exists g'.
    + right. destruct H as (-> & _ & Hf). exists g'. split; [done|lia].
    + done.
  - rewrite call_S.
    destruct (flag_in_range g r c (proj1 Hwf) Hrc) as (g' & Hrun & _).
    left. now exists g'.
Qed.

Lemma cmd_in_range_layout g g' cmd :
  same_layout g g' -> cmd_in_range g cmd -> cmd_in_range g' cmd.
Proof.
  intros (R & C & _). destruct cmd as [r c|r c]; simpl; unfold in_range;
    now rewrite R, C.
Qed.

(** X14. A game played at in-range coordinates indexes no list out of its
    range: from a constructed engine, every sequence of calls of [reveal]
    and [flag] at coordinates of the grid returns normally, with the
    layout as constructed, unless a call runs out of frames; that, the
    only exception, needs a limit of no more frames than the grid has
    cells. *)
Theorem in_range_play_returns g frames cmds :
  reachable_in_range g -> Forall (cmd_in_range g) cmds ->
  (exists g', run frames cmds g = Ok tt g' /\ reachable_in_range g' /\
              same_layout g g') \/
  (exists g', run frames cmds g = Raise RecursionError g' /\
              reachable_in_range g' /\ same_layout g g' /\
              (frames <= Z.to_nat (rows g) * Z.to_nat (cols g))%nat).
Proof.
  intros Hreach Hall. revert g Hreach Hall.
  induction cmds as [|cmd cmds IH]; intros g Hreach Hall.
  - left. exists g. split; [reflexivity|].
    split; [done|apply same_layout_refl].
  - inversion_clear Hall as [|? ? Hcmd Hall'].
    unfold run, for_each in *. cbn [for_fold].
    pose proof (keeps_exec frames cmd g) as Hl.
    destruct (exec_in_range_returns g frames cmd
                (reachable_in_range_inv g Hreach) Hcmd)
      as [[g1 Hrun]|(g1 & Hrun & Hf)].
    + rewrite Hrun in Hl. simpl in Hl.
      assert (Hreach1 : reachable_in_range g1)
        by (eapply in_range_exec; eauto).
      rewrite (bind_Ok _ _ _ _ _ Hrun).
      destruct (IH g1 Hreach1)
        as [(g' & Hrun' & Hreach' & Hl')|(g' & Hrun' & Hreach' & Hl' & Hf)].
      { eapply Forall_impl; [|exact Hall']. intros cmd'.
        now apply cmd_in_range_layout. }
      * left. exists g'. split; [done|].
        split; [done|eapply same_layout_trans; eauto].
      * right. exists g'. split; [done|]. split; [done|].
        split; [eapply same_layout_trans; eauto|].
        destruct Hl as (R & C & _). now rewrite <- R, <- C.
    + rewrite Hrun in Hl. simpl in Hl.
      rewrite (bind_Raise _ _ _ _ _ Hrun).
      right. exists g1. split; [done|].
      split; [eapply in_range_raise; eauto|]. now split.
Qed.

Lemma in_range_play_returns_witness :
  reachable_in_range corner33 /\
  Forall (cmd_in_range corner33) [Flag 0 0; Reveal 1 1; Reveal 0 0] /\
  exists g', run 2 [Flag 0 0; Reveal 1 1; Reveal 0 0] corner33 = Ok tt g' /\
             reachable_in_range g' /\ same_layout corner33 g'.
Proof.
  assert (Hreach : reachable_in_range corner33).
  { eapply in_range_construct, corner33_constructed. }
  assert (Hall : Forall (cmd_in_range corner33)
                   [Flag 0 0; Reveal 1 1; Reveal 0 0]).
  { repeat constructor; simpl; lia. }
  split; [exact Hreach|]. split; [exact Hall|].
  destruct (in_range_play_returns corner33 2 _ Hreach Hall)
    as [H|(g' & Hrun & _)]; [exact H|].
  exfalso. vm_compute in Hrun. discriminate.
Defined.

(** * [__str__] *)

Lemma string_length_app (s1 s2 : string) :
  String.length (s1 ++ s2)%string = (String.length s1 + String.length s2)%nat.
Proof. induction s1 as [|ch s1 IH]; simpl; [done|]. now rewrite IH. Qed.

Lemma join_cons sep x y l :
  join sep (x :: y :: l) = (x ++ sep ++ join sep (y :: l))%string.
Proof. reflexivity. Qed.

(** ** One row: cells of one character, a blank between two *)

Lemma join_row_length (row : list string) :
  Forall (fun v => String.length v = 1%nat) row ->
  (String.length (join " " row) + 1 = 2 * length row)%nat \/ row = [].
Proof.
  induction 1 as [|x row Hx Hrow IH]; [now right|left].
  destruct row as [|y row]; [simpl; lia|].
  rewrite join_cons, !string_length_app.
  destruct IH as [IH|]; [|done]. simpl in *. lia.
Qed.

Lemma join_row_get (row : list string) j ch :
  Forall (fun v => String.length v = 1%nat) row ->
  row !! j = Some (String ch "") ->
  String.get (2 * j) (join " " row) = Some ch /\
  ((j + 1 < length row)%nat ->
   String.get (2 * j + 1) (join " " row) = String.get 0 " ").
Proof.
  intros Hrow. revert j.
  induction Hrow as [|x row Hx Hrow IH]; intros j Hj; [done|].
  destruct x as [|a [|b x]]; try done. clear Hx.
  destruct row as [|y row].
  - destruct j as [|j]; [|done]. injection Hj as ->. simpl.
    split; [done|lia].
  - rewrite join_cons. destruct j as [|j].
    + injection Hj as ->. split; [done|]. intros _. reflexivity.
    + simpl in Hj. destruct (IH j Hj) as [IH1 IH2].
      replace (2 * S j)%nat with (S (S (2 * j))) by lia.
      replace (S (S (2 * j)) + 1)%nat with (S (S (2 * j + 1))) by lia.
      split; [exact IH1|].
      intros Hlt. apply IH2. simpl in Hlt |- *. lia.
Qed.

(** ** The rows: lines of one length, a newline between two *)

Lemma join_lines_length L (lines : list string) :
  Forall (fun s => String.length s = L) lines ->
  (String.length (join newline lines) + 1 = length lines * (L + 1))%nat \/
  lines = [].
Proof.
  induction 1 as [|x lines Hx Hlines IH]; [now right|left].
  destruct lines as [|y lines]; [simpl; lia|].
  rewrite join_cons, !string_length_app.
  destruct IH as [IH|]; [|done].
  change (String.length newline) with 1%nat. simpl length in *. lia.
Qed.

Lemma join_lines_get L (lines : list string) i line :
  Forall (fun s => String.length s = L) lines ->
  lines !! i = Some line ->
  (forall k, (k < L)%nat ->
     String.get (i * (L + 1) + k) (join newline lines) = String.get k line) /\
  ((i + 1 < length lines)%nat ->
   String.get (i * (L + 1) + L) (join newline lines) = String.get 0 newline).
Proof.
  intros Hlines. revert i.
  induction Hlines as [|x lines Hx Hlines IH]; intros i Hi; [done|].
  destruct lines as [|y lines].
  - destruct i as [|i]; [|done]. injection Hi as <-. simpl.
    split; [done|lia].
  - rewrite join_cons. destruct i as [|i].
    + injection Hi as <-. split.
      * intros k Hk. change (0 * (L + 1) + k)%nat with k.
        symmetry. apply append_correct1. lia.
      * intros _. change (0 * (L + 1) + L)%nat with (0 + L)%nat.
        rewrite <- Hx, <- append_correct2. reflexivity.
    + simpl in Hi. destruct (IH i Hi) as [IH1 IH2]. split.
      * intros k Hk.
        replace (S i * (L + 1) + k)%nat
          with ((i * (L + 1) + k + 1) + String.length x)%nat by lia.
        rewrite <- append_correct2.
        replace (i * (L + 1) + k + 1)%nat
          with ((i * (L + 1) + k) + String.length newline)%nat
          by (change (String.length newline) with 1%nat; lia).
        rewrite <- append_correct2. now apply IH1.
      * intros Hlt.
        replace (S i * (L + 1) + L)%nat
          with ((i * (L + 1) + L + 1) + String.length x)%nat by lia.
        rewrite <- append_correct2.
        replace (i * (L + 1) + L + 1)%nat
          with ((i * (L + 1) + L) + String.length newline)%nat
          by (change (String.length newline) with 1%nat; lia).
        rewrite <- append_correct2. apply IH2. simpl in Hlt |- *. lia.
Qed.

(** ** The cells of a reachable state are one character each *)

Lemma str_count_digit n :
  0 <= n <= 8 -> exists ch, str (Count n) = String ch "".
Proof.
  intros Hn.
  assert (n = 0 \/ n = 1 \/ n = 2 \/ n = 3 \/ n = 4 \/ n = 5 \/ n = 6 \/
          n = 7 \/ n = 8) as [->|[->|[->|[->|[->|[->|[->|[->| ->]]]]]]]]
    by lia; eexists; reflexivity.
Qed.

Lemma reachable_one_char g r c v :
  reachable g -> in_range g r c ->
  grid_get (visible_board g) r c = Some v -> exists ch, v = String ch "".
Proof.
  intros Hreach Hrc Hv.
  pose proof (reachable_sound g Hreach) as ([Hs Hn] & _).
  destruct (board_in_range g r c Hs Hrc) as [b Hb].
  destruct (reachable_truthful g Hreach r c v b Hrc Hv Hb) as [->|[->| ->]];
    [eexists; reflexivity|eexists; reflexivity|].
  destruct b as [|n]; [eexists; reflexivity|].
  apply str_count_digit. rewrite (Hn r c n Hrc Hb), mines_around_adjacent.
  apply adjacent_hazards_bounds.
Qed.

Lemma reachable_rows_one_char g :
  reachable g ->
  Forall (Forall (fun v => String.length v = 1%nat)) (visible_board g).
Proof.
  intros Hreach.
  pose proof (reachable_sound g Hreach) as ([[_ Hv] _] & _).
  pose proof Hv as [Hlen Hrows].
  apply Forall_lookup_2. intros i row Hrow.
  assert (Hl : length row = Z.to_nat (cols g)).
  { eapply Forall_lookup_1 in Hrows; eauto. }
  apply Forall_lookup_2. intros j v Hj.
  apply lookup_lt_Some in Hrow as Hi, Hj as Hj'.
  assert (Hrc : in_range g (Z.of_nat i) (Z.of_nat j))
    by (unfold in_range; lia).
  destruct (reachable_one_char g _ _ v Hreach Hrc) as [ch ->]; [|done].
  rewrite (grid_get_lookup _ _ _ _ _ Hv (proj1 Hrc) (proj2 Hrc)).
  rewrite !Nat2Z.id, Hrow. simpl. exact Hj.
Qed.

(** X15. [__str__] only reads the object.  In a state reached by calls of
    [reveal] and [flag] every cell is one character, so the string is a
    picture of the grid: [rows] lines of [2 * cols - 1] characters, the
    character of the cell [(r, c)] at offset [r * 2 * cols + 2 * c], a
    blank between two cells of a row and a newline between two rows. *)
Theorem str_is_a_picture g r c :
  reachable g -> in_range g r c ->
  exists s ch,
    __str__ g = Ok s g /\
    String.length s = Z.to_nat (rows g * (2 * cols g) - 1) /\
    grid_get (visible_board g) r c = Some (String ch "") /\
    String.get (Z.to_nat (r * (2 * cols g) + 2 * c)) s = Some ch /\
    (c + 1 < cols g ->
     String.get (Z.to_nat (r * (2 * cols g) + 2 * c + 1)) s
     = String.get 0 " ") /\
    (r + 1 < rows g ->
     String.get (Z.to_nat (r * (2 * cols g) + 2 * cols g - 1)) s
     = String.get 0 newline).
Proof.
  intros Hreach Hrc.
  pose proof (reachable_sound g Hreach) as ([[_ Hv] _] & _).
  pose proof (reachable_rows_one_char g Hreach) as Hone.
  pose proof Hv as [Hlen Hrows]. pose proof Hrc as [Hr Hc].
  destruct (grid_get_in_range _ _ _ r c Hv Hr Hc) as (row & v & Hrow & Hj & Hget).
  destruct (reachable_one_char g r c v Hreach Hrc Hget) as [ch ->].
  set (nc := Z.to_nat (cols g)) in *. set (nr := Z.to_nat (rows g)) in *.
  set (L := (2 * nc - 1)%nat).
  assert (HL : (L + 1 = 2 * nc)%nat) by (unfold L, nc; lia).
  set (lines := map (join " ") (visible_board g)).
  assert (Hlines : Forall (fun s => String.length s = L) lines).
  { unfold lines. apply Forall_map. apply Forall_lookup_2. intros i row' Hi.
    assert (Hl : length row' = nc) by (eapply Forall_lookup_1 in Hrows; eauto).
    assert (H1 : Forall (fun v => String.length v = 1%nat) row')
      by (eapply Forall_lookup_1 in Hone; eauto).
    destruct (join_row_length row' H1) as [Hlen'| ->]; [|unfold nc in Hl; simpl in Hl; lia].
    simpl. lia. }
  assert (Hline : lines !! Z.to_nat r = Some (join " " row)).
  { unfold lines. now rewrite list_lookup_fmap, Hrow. }
  assert (H1 : Forall (fun v => String.length v = 1%nat) row)
    by (eapply Forall_lookup_1 in Hone; eauto).
  assert (Hl : length row = nc) by (eapply Forall_lookup_1 in Hrows; eauto).
  destruct (join_row_get row (Z.to_nat c) ch H1 Hj) as [Hcell Hsep].
  destruct (join_lines_get L lines (Z.to_nat r) _ Hlines Hline) as [Hin Hnl].
  assert (Hll : length lines = nr) by (unfold lines; now rewrite length_map).
  exists (join newline lines), ch. split; [reflexivity|].
  split; [|split; [exact Hget|split; [|split]]].
  - destruct (join_lines_length L lines Hlines) as [Hlen'|Hnil].
    + replace (Z.to_nat (rows g * (2 * cols g) - 1))
        with (nr * (2 * nc) - 1)%nat by (unfold nr, nc; nia).
      rewrite Hll, HL in Hlen'. lia.
    + rewrite Hnil in Hll. unfold nr in Hll. simpl in Hll. lia.
  - replace (Z.to_nat (r * (2 * cols g) + 2 * c))
      with (Z.to_nat r * (L + 1) + 2 * Z.to_nat c)%nat
      by (rewrite HL; unfold nc; nia).
    rewrite Hin; [exact Hcell|]. unfold L, nc. lia.
  - intros Hc1.
    replace (Z.to_nat (r * (2 * cols g) + 2 * c + 1))
      with (Z.to_nat r * (L + 1) + (2 * Z.to_nat c + 1))%nat
      by (rewrite HL; unfold nc; nia).
    rewrite Hin; [apply Hsep|]; unfold L, nc in *; lia.
  - intros Hr1.
    replace (Z.to_nat (r * (2 * cols g) + 2 * cols g - 1))
      with (Z.to_nat r * (L + 1) + L)%nat
      by (rewrite HL; unfold L, nc; nia).
    apply Hnl. rewrite Hll. unfold nr. lia.
Qed.

Lemma str_is_a_picture_witness :
  reachable corner33 /\ in_range corner33 1 2 /\
  exists s ch,
    __str__ corner33 = Ok s corner33 /\
    String.length s = Z.to_nat (3 * (2 * 3) - 1) /\
    grid_get (visible_board corner33) 1 2 = Some (String ch "") /\
    String.get (Z.to_nat (1 * (2 * 3) + 2 * 2)) s = Some ch.
Proof.
  assert (Hreach : reachable corner33).
  { eapply reach_construct, corner33_constructed. }
  assert (Hrc : in_range corner33 1 2) by (unfold in_range; simpl; lia).
  split; [exact Hreach|]. split; [exact Hrc|].
  destruct (str_is_a_picture corner33 1 2 Hreach Hrc)
    as (s & ch & H1 & H2 & H3 & H4 & _).
  exists s, ch. split; [exact H1|]. split; [exact H2|]. now split.
Defined.

(** * The interface: [MinesweeperGUI] *)

Lemma gseq_GOk (m k : GPy) s s' : m s = GOk s' -> gseq m k s = k s'.
Proof. unfold gseq. now intros ->. Qed.

(** A loop over [range(n)] whose body returns and keeps an invariant on the
    index reached. *)
Lemma gfor_range_inv (I : Z -> MinesweeperGUI -> Prop) n (body : Z -> GPy) s :
  (forall i s, 0 <= i < n -> I i s ->
     exists s', body i s = GOk s' /\ I (i + 1) s') ->
  I 0 s ->
  exists s', gfor (range n) body s = GOk s' /\ I (Z.max 0 n) s'.
Proof.
  unfold range, range2. rewrite Z.sub_0_r.
  assert (Hgen : forall k st s, Z.of_nat (st + k) = Z.max 0 n ->
    I (Z.of_nat st) s ->
    (forall i s, 0 <= i < n -> I i s ->
       exists s', body i s = GOk s' /\ I (i + 1) s') ->
    exists s', gfor (map (fun k => 0 + Z.of_nat k) (seq st k)) body s = GOk s' /\
               I (Z.max 0 n) s').
  { induction k as [|k IH]; intros st s0 Hst HI Hbody; simpl.
    - exists s0. split; [done|]. rewrite <- Hst.
      now replace (st + 0)%nat with st by lia.
    - destruct (Hbody (Z.of_nat st) s0) as (s1 & Hrun & HI1); [lia|done|].
      rewrite (gseq_GOk _ _ _ _ Hrun). apply IH; [lia| |done].
      now replace (Z.of_nat (S st)) with (Z.of_nat st + 1) by lia. }
  intros Hbody HI. apply (Hgen _ 0%nat); [lia|done|done].
Qed.

(** ** Loops over the buttons *)

Lemma buttons_upto_start f s :
  has_dims (buttons s) (rows (game s)) (cols (game s)) ->
  buttons_upto f s s 0 0.
Proof.
  intros Hd. repeat (split; [done|]). intros r c b [Hr Hc] Hb.
  unfold visited_before.
  destruct (Z.ltb_spec r 0), (Z.eqb_spec r 0), (Z.ltb_spec c 0); simpl;
    try done; lia.
Qed.

(** Configuring the button of the cell the loop has reached. *)
Lemma buttons_upto_config f s0 s i j h :
  buttons_upto f s0 s i j -> in_range (game s0) i j ->
  has_dims (buttons s0) (rows (game s0)) (cols (game s0)) ->
  (forall b, grid_get (buttons s0) i j = Some b -> h b = f i j b) ->
  exists s', config_at i j h s = GOk s' /\ buttons_upto f s0 s' i (j + 1).
Proof.
  intros (G & S & Q & Hd & Hcells) Hij Hd0 Hh. pose proof Hij as [Hi Hj].
  destruct (grid_get_in_range _ _ _ i j Hd0 Hi Hj) as (_ & b0 & _ & _ & Hb0).
  assert (Hb : grid_get (buttons s) i j = Some b0).
  { rewrite (Hcells i j b0 Hij Hb0). unfold visited_before.
    rewrite Z.ltb_irrefl, Z.eqb_refl, Z.ltb_irrefl. done. }
  destruct (grid_set_in_range _ _ _ i j (h b0) Hd Hi Hj)
    as (bs & Hset & Hd' & Hget & Hother).
  exists (set_buttons bs s). split.
  { unfold config_at. now rewrite Hb, Hset. }
  repeat (split; [done|]). simpl. intros r c b Hrc Hbrc.
  destruct (decide ((r, c) = (i, j))) as [[= -> ->]|Hne].
  - assert (b = b0) as -> by congruence. rewrite Hget, (Hh b0 Hb0).
    unfold visited_before. rewrite Z.eqb_refl.
    destruct (Z.ltb_spec j (j + 1)); [|lia]. now rewrite orb_true_r.
  - rewrite (Hother r c (proj1 Hrc) (proj2 Hrc) Hne), (Hcells r c b Hrc Hbrc).
    do 2 f_equal. unfold visited_before.
    destruct (Z.eqb_spec r i) as [->|]; [|done].
    destruct (Z.ltb_spec c (j + 1)), (Z.ltb_spec c j); try done; try lia.
    exfalso. apply Hne. f_equal. lia.
Qed.

(** Leaving the button of the cell the loop has reached as it is. *)
Lemma buttons_upto_skip f s0 s i j :
  buttons_upto f s0 s i j -> in_range (game s0) i j ->
  (forall b, grid_get (buttons s0) i j = Some b -> f i j b = b) ->
  buttons_upto f s0 s i (j + 1).
Proof.
  intros (G & S & Q & Hd & Hcells) Hij Hf.
  repeat (split; [done|]). intros r c b Hrc Hbrc.
  rewrite (Hcells r c b Hrc Hbrc). f_equal.
  destruct (decide ((r, c) = (i, j))) as [[= -> ->]|Hne].
  - rewrite (Hf b Hbrc). now destruct (visited_before i j i j),
      (visited_before i (j + 1) i j).
  - replace (visited_before i (j + 1) r c) with (visited_before i j r c);
      [done|].
    unfold visited_before.
    destruct (Z.eqb_spec r i) as [->|]; [|done].
    destruct (Z.ltb_spec c (j + 1)), (Z.ltb_spec c j); try done; try lia.
    exfalso. apply Hne. f_equal. lia.
Qed.

(** The two loops over the cells. *)
Lemma buttons_loop f (body : Z -> Z -> GPy) s0 :
  has_dims (buttons s0) (rows (game s0)) (cols (game s0)) ->
  (forall i j s, in_range (game s0) i j -> buttons_upto f s0 s i j ->
     exists s', body i j s = GOk s' /\ buttons_upto f s0 s' i (j + 1)) ->
  exists s',
    gfor (range (rows (game s0))) (fun r s =>
      gfor (range (cols (game s))) (fun c s => body r c s) s) s0 = GOk s' /\
    game s' = game s0 /\ shown s' = shown s0 /\
    quit_called s' = quit_called s0 /\
    has_dims (buttons s') (rows (game s0)) (cols (game s0)) /\
    forall r c b, in_range (game s0) r c ->
      grid_get (buttons s0) r c = Some b ->
      grid_get (buttons s') r c = Some (f r c b).
Proof.
  intros Hd0 Hbody.
  destruct (gfor_range_inv (fun i s => buttons_upto f s0 s i 0)
              (rows (game s0))
              (fun r s => gfor (range (cols (game s))) (fun c s => body r c s) s)
              s0) as (s' & Hrun & Hinv).
  - intros i s Hi Hup. pose proof Hup as (G & _). rewrite G.
    destruct (gfor_range_inv (fun j s => buttons_upto f s0 s i j)
                (cols (game s0)) (fun c s => body i c s) s)
      as (s1 & Hrun1 & (G1 & S1 & Q1 & Hd1 & Hcells1)).
    + intros j s2 Hj Hup2. apply Hbody; [|done]. unfold in_range. lia.
    + exact Hup.
    + exists s1. split; [exact Hrun1|]. repeat (split; [done|]).
      intros r c b Hrc Hb. rewrite (Hcells1 r c b Hrc Hb). do 2 f_equal.
      unfold visited_before. destruct Hrc as [Hr Hc].
      destruct (Z.ltb_spec r i), (Z.ltb_spec r (i + 1)), (Z.eqb_spec r i),
        (Z.eqb_spec r (i + 1)),
        (Z.ltb_spec c (Z.max 0 (cols (game s0)))), (Z.ltb_spec c 0);
        simpl; try done; lia.
  - now apply buttons_upto_start.
  - destruct Hinv as (G & S & Q & Hd & Hcells).
    exists s'. split; [exact Hrun|]. repeat (split; [done|]).
    intros r c b Hrc Hb. rewrite (Hcells r c b Hrc Hb). do 2 f_equal.
    unfold visited_before. destruct Hrc as [Hr Hc].
    destruct (Z.ltb_spec r (Z.max 0 (rows (game s0)))); [done|lia].
Qed.

(** ** [_update_board] *)

Lemma update_board_eq s :
  well_shaped (game s) ->
  has_dims (buttons s) (rows (game s)) (cols (game s)) ->
  exists s', _update_board s = GOk s' /\
    game s' = game s /\ shown s' = shown s /\
    quit_called s' = quit_called s /\
    has_dims (buttons s') (rows (game s)) (cols (game s)) /\
    forall r c b, in_range (game s) r c ->
      grid_get (buttons s) r c = Some b ->
      grid_get (buttons s') r c = Some (rendered (game s) r c b).
Proof.
  intros Hs Hd. unfold _update_board.
  apply (buttons_loop (rendered (game s))
           (fun r c s1 =>
              match grid_get (visible_board (game s1)) r c with
              | None => GRaise IndexError s1
              | Some cell_value => config_at r c (update_button cell_value) s1
              end) s Hd).
  intros i j s1 Hij Hup. pose proof Hup as (G & _). rewrite G.
  destruct (visible_in_range (game s) i j Hs Hij) as [v Hv]. rewrite Hv.
  apply (buttons_upto_config _ s s1 i j _ Hup Hij Hd).
  intros b _. unfold rendered. now rewrite Hv.
Qed.

Lemma update_button_idem v b :
  update_button v (update_button v b) = update_button v b.
Proof.
  unfold update_button.
  destruct (v =? " ")%string; [done|]. destruct (v =? "F")%string; [done|].
  destruct (v =? "0")%string; [done|]. now destruct (v =? "M")%string.
Qed.

(** What [update_button] makes of a button, by what the cell shows. *)
Lemma update_button_shown v b :
  (state (update_button v b) = DISABLED <-> visibility v = Revealed) /\
  (relief (update_button v b) = SUNKEN <-> visibility v = Revealed).
Proof.
  unfold update_button, visibility.
  destruct (v =? " ")%string; [split; split; done|].
  destruct (v =? "F")%string; [split; split; done|].
  destruct (v =? "0")%string; [split; split; done|].
  destruct (v =? "M")%string; split; split; done.
Qed.

Lemma str_count_text n :
  1 <= n <= 8 ->
  (str (Count n) =? " ")%string = false /\
  (str (Count n) =? "F")%string = false /\
  (str (Count n) =? "0")%string = false /\
  (str (Count n) =? "M")%string = false.
Proof.
  intros Hn.
  assert (n = 1 \/ n = 2 \/ n = 3 \/ n = 4 \/ n = 5 \/ n = 6 \/
          n = 7 \/ n = 8) as [->|[->|[->|[->|[->|[->|[->| ->]]]]]]]
    by lia; repeat split.
Qed.



(** ** [_check_game_status] *)

Lemma expose_loop_eq s :
  well_shaped (game s) ->
  has_dims (buttons s) (rows (game s)) (cols (game s)) ->
  exists s',
    gfor (range (rows (game s))) (fun r s =>
      gfor (range (cols (game s))) (fun c s =>
        match grid_get (board (game s)) r c with
        | None => GRaise IndexError s
        | Some x =>
          if cell_eqb x Mine then
            config_at r c (config (Some bomb_text) (Some SUNKEN) None None) s
          else GOk s
        end) s) s = GOk s' /\
    game s' = game s /\ shown s' = shown s /\
    quit_called s' = quit_called s /\
    has_dims (buttons s') (rows (game s)) (cols (game s)) /\
    forall r c b, in_range (game s) r c ->
      grid_get (buttons s) r c = Some b ->
      grid_get (buttons s') r c = Some (exposed (game s) r c b).
Proof.
  intros Hs Hd.
  apply (buttons_loop (exposed (game s))
           (fun r c s1 =>
              match grid_get (board (game s1)) r c with
              | None => GRaise IndexError s1
              | Some x =>
                if cell_eqb x Mine then
                  config_at r c
                    (config (Some bomb_text) (Some SUNKEN) None None) s1
                else GOk s1
              end) s Hd).
  intros i j s1 Hij Hup. pose proof Hup as (G & _). rewrite G.
  destruct (board_in_range (game s) i j Hs Hij) as [x Hx]. rewrite Hx.
  destruct x as [|n]; simpl.
  - apply (buttons_upto_config _ s s1 i j _ Hup Hij Hd).
    intros b _. unfold exposed. now rewrite Hx.
  - exists s1. split; [done|]. apply buttons_upto_skip; [done|done|].
    intros b _. unfold exposed. now rewrite Hx.
Qed.

(** [_check_game_status] by the outcome. *)
Lemma check_game_status_eq s :
  well_shaped (game s) ->
  has_dims (buttons s) (rows (game s)) (cols (game s)) ->
  exists s', _check_game_status s = GOk s' /\ game s' = game s /\
    has_dims (buttons s') (rows (game s)) (cols (game s)) /\
    match outcome (game s) with
    | InProgress => s' = s
    | Won =>
      buttons s' = buttons s /\
      shown s' = ("Minesweeper", won_message) :: shown s /\
      quit_called s' = true
    | Lost =>
      shown s' = ("Minesweeper", lost_message) :: shown s /\
      quit_called s' = true /\
      forall r c b, in_range (game s) r c ->
        grid_get (buttons s) r c = Some b ->
        grid_get (buttons s') r c = Some (exposed (game s) r c b)
    end.
Proof.
  intros Hs Hd. unfold _check_game_status, outcome.
  destruct (game_over (game s)); [|now exists s].
  destruct (win (game s)).
  - eexists. split; [reflexivity|]. simpl. done.
  - destruct (expose_loop_eq s Hs Hd) as (s1 & Hrun & G & S & Q & Hd1 & Hcells).
    unfold gseq at 1. unfold gseq at 1. rewrite Hrun. simpl.
    eexists. split; [reflexivity|]. simpl. rewrite S. done.
Qed.

(** ** The two handlers *)





(** * Where [_place_mines] puts the hazards *)

Lemma cell_in_spec p l : cell_in p l = true <-> In p l.
Proof.
  unfold cell_in. rewrite existsb_exists. split.
  - intros ([q1 q2] & Hin & Heq). destruct p as [p1 p2]. simpl in Heq.
    apply andb_true_iff in Heq as [H1 H2].
    apply Z.eqb_eq in H1, H2. now subst.
  - intros Hin. exists p. split; [done|].
    now rewrite !Z.eqb_refl.
Qed.

(** One turn of the sampling loop, by whether the cell drawn holds a
    hazard already. *)
Lemma place_loop_turn d draws k g :
  well_shaped g -> 0 < rows g -> 0 < cols g ->
  Z.of_nat (mine_total (board g)) = k -> k < num_mines g ->
  in_range g (drawn_cell (rows g) (cols g) d).1
             (drawn_cell (rows g) (cols g) d).2 /\
  (mine_at (board g) (drawn_cell (rows g) (cols g) d) = true ->
   place_loop (d :: draws) k g = place_loop draws k g) /\
  (mine_at (board g) (drawn_cell (rows g) (cols g) d) = false ->
   exists g', place_loop (d :: draws) k g = place_loop draws (k + 1) g' /\
     reboarded g g' /\ Z.of_nat (mine_total (board g')) = k + 1 /\
     forall q, in_range g q.1 q.2 ->
       (mine_at (board g') q = true <->
        q = drawn_cell (rows g) (cols g) d \/ mine_at (board g) q = true)).
Proof.
  intros Hs Hrows Hcols Hk Hlt. destruct d as [v1 v2].
  unfold drawn_cell. cbn [fst snd].
  set (r := v1 mod rows g). set (c := v2 mod cols g).
  assert (Hrc : in_range g r c).
  { unfold in_range, r, c. split; apply Z.mod_pos_bound; lia. }
  assert (Hr : randint 0 (rows g - 1) v1 g = Ok r g).
  { unfold randint. destruct (Z.ltb_spec (rows g - 1) 0); [lia|].
    unfold py_ret, r.
    now replace (rows g - 1 - 0 + 1) with (rows g) by lia. }
  assert (Hc : randint 0 (cols g - 1) v2 g = Ok c g).
  { unfold randint. destruct (Z.ltb_spec (cols g - 1) 0); [lia|].
    unfold py_ret, c.
    now replace (cols g - 1 - 0 + 1) with (cols g) by lia. }
  destruct (board_in_range g r c Hs Hrc) as [b Hb].
  assert (Hunfold : place_loop ((v1, v2) :: draws) k g
    = (if negb (cell_eqb b Mine)
       then write_board r c Mine ;;; place_loop draws (k + 1)
       else place_loop draws k) g).
  { simpl. unfold py_bind at 1, gets at 1.
    destruct (Z.ltb_spec k (num_mines g)); [|lia].
    unfold py_bind at 1, gets at 1. rewrite (bind_Ok _ _ _ _ _ Hr).
    unfold py_bind at 1, gets at 1. rewrite (bind_Ok _ _ _ _ _ Hc).
    now rewrite (bind_Ok _ _ _ _ _ (read_board_Some _ _ _ _ Hb)). }
  split; [exact Hrc|]. rewrite Hunfold. unfold mine_at at 1 2. simpl.
  rewrite Hb. destruct b as [|m]; simpl; (split; [done|]); [done|].
  intros _.
  destruct (write_board_in_range g r c Mine Hs Hrc)
    as (b' & Hset & Hw & Hre & Hget & Hother).
  exists (set_board b' g).
  split; [now rewrite (bind_Ok _ _ _ _ _ Hw)|]. split; [done|]. split.
  { simpl. destruct Hs as [Hbd _], Hrc as [Hr' Hc'].
    pose proof (mine_total_set _ _ _ _ r c Mine (Count m) Hbd Hr' Hc' Hb Hset)
      as H. simpl in H. lia. }
  intros [i j] Hq. simpl in Hq. unfold mine_at. simpl.
  destruct (decide ((i, j) = (r, c))) as [[= -> ->]|Hne].
  - rewrite Hget. split; [now left|done].
  - rewrite (Hother i j Hq Hne). split; [now right|].
    intros [Heq|H]; [done|exact H].
Qed.

(** The sampling loop in full: it returns exactly when the draws fall on
    enough cells without a hazard, and has then put a hazard on the first
    of them. *)
Lemma place_loop_exact draws : forall k g seen,
  well_shaped g -> 0 < rows g -> 0 < cols g ->
  (forall q, in_range g q.1 q.2 ->
     (mine_at (board g) q = true <-> In q seen)) ->
  Z.of_nat (mine_total (board g)) = k ->
  ((Z.to_nat (num_mines g - k)
    <= length (fresh_cells seen (map (drawn_cell (rows g) (cols g)) draws)))%nat ->
   exists g', place_loop draws k g = Ok tt g' /\ reboarded g g' /\
     forall q, in_range g q.1 q.2 ->
       (mine_at (board g') q = true <->
        In q seen \/
        In q (take (Z.to_nat (num_mines g - k))
                (fresh_cells seen
                   (map (drawn_cell (rows g) (cols g)) draws))))) /\
  ((length (fresh_cells seen (map (drawn_cell (rows g) (cols g)) draws))
    < Z.to_nat (num_mines g - k))%nat ->
   place_loop draws k g = Unfinished).
Proof.
  induction draws as [|d draws IH]; intros k g seen Hs Hrows Hcols Hseen Hk.
  - simpl. unfold py_bind, gets. split.
    + intros Hle. destruct (Z.ltb_spec k (num_mines g)); [lia|].
      exists g. split; [done|]. split; [now apply reboarded_refl|].
      intros q Hq. rewrite (Hseen q Hq), take_nil. simpl. tauto.
    + intros Hlt. destruct (Z.ltb_spec k (num_mines g)); [done|lia].
  - destruct (Z_lt_le_dec k (num_mines g)) as [Hlt|Hge].
    2:{ replace (Z.to_nat (num_mines g - k)) with 0%nat by lia. split.
        - intros _. exists g. split.
          + simpl. unfold py_bind at 1, gets at 1.
            destruct (Z.ltb_spec k (num_mines g)); [lia|done].
          + split; [now apply reboarded_refl|]. intros q Hq.
            rewrite (Hseen q Hq). simpl. tauto.
        - lia. }
    destruct (place_loop_turn d draws k g Hs Hrows Hcols Hk Hlt)
      as (Hp & Hold & Hnew).
    set (p := drawn_cell (rows g) (cols g) d) in *.
    cbn [map fresh_cells]. fold p.
    destruct (cell_in p seen) eqn:Hin.
    + (* the cell holds a hazard already *)
      apply cell_in_spec in Hin. apply (Hseen p Hp) in Hin.
      rewrite (Hold Hin). now apply IH.
    + (* a new cell *)
      assert (Hfree : mine_at (board g) p = false).
      { destruct (mine_at (board g) p) eqn:E; [|done].
        apply (Hseen p Hp), cell_in_spec in E. congruence. }
      destruct (Hnew Hfree) as (g' & Heq & Hre & Hk' & Hmines).
      pose proof Hre as (R & C & N & _). rewrite Heq.
      assert (Hs' : well_shaped g') by (eapply reboarded_shaped; eauto).
      destruct (IH (k + 1) g' (p :: seen)) as [IHret IHun];
        [done|lia|lia| |done|].
      { intros q Hq. rewrite Hmines by (unfold in_range; now rewrite <- R, <- C).
        rewrite (Hseen q) by (unfold in_range; now rewrite <- R, <- C).
        simpl. split; intros [H|H]; auto. }
      rewrite R, C, N in IHret, IHun.
      replace (Z.to_nat (num_mines g - k))
        with (S (Z.to_nat (num_mines g - (k + 1)))) by lia.
      split.
      * intros Hle. simpl in Hle.
        destruct IHret as (g'' & Hrun & Hre' & Hmines'); [lia|].
        exists g''. split; [done|].
        split; [eapply reboarded_trans; [exact Hre|exact Hre']|].
        intros q Hq. rewrite Hmines' by (unfold in_range; now rewrite R, C).
        simpl. tauto.
      * intros Hlt'. simpl in Hlt'. apply IHun. lia.
Qed.

(** X19. With positive dimensions the constructor returns exactly when the
    draws of [random.randint] fall on at least [num_mines] different cells;
    the hazards are then the first [num_mines] different cells drawn, and
    no others.  On draws that fall on fewer cells it is still sampling. *)
Theorem mines_where_drawn nrows ncols n draws :
  0 < nrows -> 0 < ncols ->
  ((Z.to_nat n
    <= length (fresh_cells [] (map (drawn_cell nrows ncols) draws)))%nat ->
   exists g, construct nrows ncols n draws = Ok tt g /\
     forall r c, in_range g r c ->
       (is_hazard g r c <->
        In (r, c) (take (Z.to_nat n)
                     (fresh_cells [] (map (drawn_cell nrows ncols) draws))))) /\
  ((length (fresh_cells [] (map (drawn_cell nrows ncols) draws))
    < Z.to_nat n)%nat ->
   construct nrows ncols n draws = Unfinished).
Proof.
  intros Hrows Hcols.
  set (g0 := init_fields nrows ncols n).
  assert (Hs0 : well_shaped g0) by apply init_fields_shaped.
  assert (Hk0 : Z.of_nat (mine_total (board g0)) = 0) by apply mine_total_init.
  destruct (place_loop_exact draws 0 g0 [] Hs0 Hrows Hcols) as [Hret Hun];
    [|done|].
  { intros [r c] [Hr Hc]. unfold mine_at, g0. simpl in *.
    rewrite grid_get_init by lia. split; [done|intros []]. }
  simpl in Hret, Hun. rewrite Z.sub_0_r in Hret, Hun. split.
  - intros Hle. destruct (Hret Hle) as (g1 & Hplace & Hre & Hmines).
    assert (Hs1 : well_shaped g1) by (eapply reboarded_shaped; eauto).
    pose proof (calculate_numbers_sat g1 Hs1) as Hcalc.
    apply returns_Ok in Hcalc as ([] & g & Hrun & Hre' & Hcells).
    exists g. split.
    { unfold construct, _place_mines. fold g0.
      now rewrite (bind_Ok _ _ _ _ _ Hplace). }
    pose proof Hre as (R & C & _). pose proof Hre' as (R' & C' & _).
    intros r c Hrc.
    assert (Hrc1 : in_range g1 r c) by (unfold in_range; now rewrite <- R', <- C').
    assert (Hrc0 : in_range g0 r c) by (unfold in_range; now rewrite <- R, <- C).
    specialize (Hmines (r, c) Hrc0). unfold is_hazard.
    rewrite (Hcells r c Hrc1). unfold numbered_cell.
    destruct (mine_at (board g1) (r, c)); split; try done.
    + intros _. destruct (proj1 Hmines eq_refl) as [[]|H]. exact H.
    + intros H. assert (Hf : false = true) by (apply Hmines; now right).
      discriminate.
  - intros Hlt. unfold construct, _place_mines. fold g0.
    apply bind_Unfinished. now apply Hun.
Qed.

Lemma mines_where_drawn_witness :
  0 < 3 /\ 0 < 3 /\
  (Z.to_nat 2
   <= length (fresh_cells []
                (map (drawn_cell 3 3) [(0, 0); (3, 3); (4, 5)]%Z)))%nat /\
  exists g, construct 3 3 2 [(0, 0); (3, 3); (4, 5)] = Ok tt g /\
    forall r c, in_range g r c ->
      (is_hazard g r c <->
       In (r, c) (take (Z.to_nat 2)
                    (fresh_cells []
                       (map (drawn_cell 3 3) [(0, 0); (3, 3); (4, 5)])))).
Proof.
  assert (H3 : 0 < 3) by lia.
  assert (Hle : (Z.to_nat 2
                 <= length (fresh_cells []
                      (map (drawn_cell 3 3) [(0, 0); (3, 3); (4, 5)]%Z)))%nat)
    by (vm_compute; lia).
  split; [exact H3|]. split; [exact H3|]. split; [exact Hle|].
  exact (proj1 (mines_where_drawn 3 3 2 [(0, 0); (3, 3); (4, 5)] H3 H3) Hle).
Defined.

(** * When a call raises *)

Lemma outside_of_unreadable {A} (gr : list (list A)) nr nc r c :
  has_dims gr nr nc -> grid_get gr r c = None ->
  (r < - nr \/ nr <= r) \/ (c < - nc \/ nc <= c).
Proof.
  intros Hd Hnone.
  destruct (Z_lt_le_dec r (- nr)); [lia|].
  destruct (Z_lt_le_dec r nr); [|lia].
  destruct (Z_lt_le_dec c (- nc)); [lia|].
  destruct (Z_lt_le_dec c nc); [|lia].
  destruct (grid_get_readable gr nr nc r c Hd) as [x Hx]; [lia|lia|].
  congruence.
Qed.

(** X20. The exceptions of the engine.  In a state reached by calls of
    [reveal] and [flag], a call raises [IndexError] only in a game in
    progress and at coordinates with [r] outside [[-rows, rows)] or [c]
    outside [[-cols, cols)], and then leaves the object as it was; the
    only other exception is [RecursionError], which [reveal] raises only
    with no more frames than there are hidden cells, and [flag] only with
    no frame at all. *)
Theorem calls_raise_two_ways g frames cmd e g' :
  reachable g -> exec frames cmd g = Raise e g' ->
  (e = IndexError /\ g' = g /\ outcome g = InProgress /\
   forall r c, cmd = Reveal r c \/ cmd = Flag r c ->
     (r < - rows g \/ rows g <= r) \/ (c < - cols g \/ cols g <= c)) \/
  (e = RecursionError /\
   (frames <= hidden_total (visible_board g))%nat /\
   forall r c, cmd = Flag r c -> frames = 0%nat /\ g' = g).
Proof.
  intros Hreach Hrun. pose proof (reachable_sound g Hreach) as ([Hs _] & _).
  pose proof Hs as [Hbd Hvd].
  destruct frames as [|frames].
  { rewrite exec_no_frame in Hrun. injection Hrun as <- <-.
    right. split; [done|]. split; [lia|]. now intros. }
  destruct (game_over g) eqn:Hover.
  { now rewrite exec_game_over in Hrun. }
  assert (Hin : outcome g = InProgress) by now apply outcome_in_progress.
  destruct cmd as [r c|r c]; unfold exec in Hrun.
  - destruct (grid_get (visible_board g) r c) as [v|] eqn:Hv.
    + right.
      assert (Hread : game_over g = true \/
                      grid_get (visible_board g) r c <> None)
        by (right; congruence).
      pose proof (reveal_no_raise (S frames) r c g Hs Hread) as Hno.
      pose proof (reveal_settles (S frames) r c g) as Hset.
      rewrite Hrun in Hno, Hset. simpl in Hno, Hset. subst e.
      split; [done|]. split; [now apply Hset|]. intros ? ? [=].
    + left. rewrite reveal_eq, Hover, Hv in Hrun. injection Hrun as <- <-.
      split; [done|]. split; [done|]. split; [done|].
      intros r' c' [[= <- <-]|[=]].
      now apply (outside_of_unreadable _ _ _ r c Hvd).
  - rewrite call_S, flag_eq, Hover in Hrun. left.
    destruct (grid_get (visible_board g) r c) as [v|] eqn:Hv.
    + exfalso.
      destruct (grid_set_readable _ _ _ r c "F" _ Hvd Hv) as [v1 H1].
      destruct (grid_set_readable _ _ _ r c " " _ Hvd Hv) as [v2 H2].
      rewrite H1, H2 in Hrun.
      destruct (v =? " ")%string; [done|]. now destruct (v =? "F")%string.
    + injection Hrun as <- <-.
      split; [done|]. split; [done|]. split; [done|].
      intros r' c' [[=]|[= <- <-]].
      now apply (outside_of_unreadable _ _ _ r c Hvd).
Qed.

Lemma calls_raise_two_ways_witness :
  reachable corner33 /\
  reveal 4 2 2 corner33
  = Raise RecursionError
      (set_visible_board
         [[" "; "1"; "0"]; ["1"; "1"; "0"]; [" "; "0"; "0"]] corner33) /\
  (4 <= hidden_total (visible_board corner33))%nat.
Proof.
  assert (Hreach : reachable corner33).
  { eapply reach_construct, corner33_constructed. }
  assert (Hrun : exec 4 (Reveal 2 2) corner33
                 = Raise RecursionError
                     (set_visible_board
                        [[" "; "1"; "0"]; ["1"; "1"; "0"]; [" "; "0"; "0"]]
                        corner33)) by reflexivity.
  split; [exact Hreach|]. split; [exact Hrun|].
  destruct (calls_raise_two_ways corner33 4 (Reveal 2 2) _ _ Hreach Hrun)
    as [(He & _)|(_ & Hf & _)]; [discriminate He|exact Hf].
Defined.
